(** * Conversation ingest engine: format detection and the four parsers

    A shallow embedding of the TypeScript sources

      - [src/ingest/parsers/json-transcript.ts]
      - [src/ingest/parsers/chat-log.ts]
      - [src/ingest/parsers/whatsapp.ts]
      - [src/ingest/parsers/srt.ts]
      - [src/ingest/index.ts]   ([detectFormat], [parseInput], [ingest])
      - [src/routes/ingest.ts]  ([normalizeRequestBody] and the two handlers)

    together with the part of the JavaScript runtime these files call
    (string trimming and splitting, regular expressions, number
    conversion, [Array.prototype.sort], [Math.min]).

    Modelling conventions.

    - A JavaScript string is a [string]; its code units are limited to
      U+0000..U+00FF.  Over this range the white space of [trim] and of
      the class [\s] is TAB, LF, VT, FF, CR, SPACE and NBSP, and the
      character class of the WhatsApp patterns that holds the hyphen
      and the en dash (U+2013) contains the hyphen only.
    - A JavaScript number is a [number]: [NaN], the two infinities, or a
      finite value carried as an exact rational in lowest terms; the sign
      of zero is not represented.  [parseFloat], [parseInt] and the
      arithmetic of the chat-log timestamps round to the nearest double
      ([Num.to_double], [Num.fmul], [Num.fsub]).  The other operations
      are exact: they are what the host computes as long as the operands
      and the result are integers of at most 53 bits, and the theorems
      that rest on them say where that is assumed.
    - [undefined] for an optional field is [None].
    - [new Date(s).getTime()] depends on the host for every string outside
      the ECMAScript date-time format, so the parsers take the host's
      [Date_parse] as a parameter; [Host.Date_parse_iso] is one conforming
      instance used to run the examples. *)

From Stdlib Require Import String Ascii List Bool Arith ZArith QArith Qround.
From Stdlib Require Import Lia Lqa Permutation Sorted.
Import ListNotations.

Close Scope Q_scope.
Local Open Scope string_scope.
Local Open Scope list_scope.
Local Open Scope nat_scope.

Set Implicit Arguments.

(* ================================================================== *)
(** ** JavaScript strings *)

Module Str.

Definition code (c : ascii) : nat := nat_of_ascii c.

(** White space and line terminators: what [String.prototype.trim]
    strips and what [\s] matches. *)
Definition is_space (c : ascii) : bool :=
  ((9 <=? code c) && (code c <=? 13)) || (code c =? 32) || (code c =? 160).

Definition is_digit (c : ascii) : bool :=
  (48 <=? code c) && (code c <=? 57).

Definition is_upper (c : ascii) : bool := (65 <=? code c) && (code c <=? 90).
Definition is_lower (c : ascii) : bool := (97 <=? code c) && (code c <=? 122).
Definition is_alpha (c : ascii) : bool := is_upper c || is_lower c.

(** [.] without the [s] flag: anything but a line terminator. *)
Definition is_line_terminator (c : ascii) : bool :=
  (code c =? 10) || (code c =? 13).

Definition is_char (x : ascii) (c : ascii) : bool := Ascii.eqb x c.

Definition upcase (c : ascii) : ascii :=
  if is_lower c then ascii_of_nat (code c - 32) else c.

(** A literal character under the [i] flag. *)
Definition is_char_ci (x : ascii) (c : ascii) : bool :=
  Ascii.eqb (upcase x) (upcase c).

Fixpoint trimStart (s : string) : string :=
  match s with
  | EmptyString => EmptyString
  | String c s' => if is_space c then trimStart s' else s
  end.

Fixpoint trimEnd (s : string) : string :=
  match s with
  | EmptyString => EmptyString
  | String c s' =>
      match trimEnd s' with
      | EmptyString => if is_space c then EmptyString else String c EmptyString
      | t => String c t
      end
  end.

(** [String.prototype.trim]. *)
Definition trim (s : string) : string := trimEnd (trimStart s).

(** Nothing but white space. *)
Fixpoint all_space (s : string) : bool :=
  match s with
  | EmptyString => true
  | String c s' => is_space c && all_space s'
  end.

(** [q] is what is left of [s] after some prefix. *)
Definition is_suffix (q s : string) : Prop := exists p, s = (p ++ q)%string.

(** Truthiness of a string: non-empty. *)
Definition truthy (s : string) : bool :=
  match s with EmptyString => false | _ => true end.

(** [s.substring(0, |s| - |rest|)] for a suffix [rest] of [s]. *)
Definition upto (s rest : string) : string :=
  substring 0 (String.length s - String.length rest) s.

(** [Array.prototype.join]. *)
Fixpoint join (sep : string) (l : list string) : string :=
  match l with
  | [] => EmptyString
  | [x] => x
  | x :: l' => (x ++ sep ++ join sep l')%string
  end.

(** [s.split(sep)] for a separator of one character. *)
Fixpoint split_char (sep : ascii) (s : string) : list string :=
  match s with
  | EmptyString => [EmptyString]
  | String c s' =>
      if Ascii.eqb c sep then EmptyString :: split_char sep s'
      else match split_char sep s' with
           | piece :: l => String c piece :: l
           | [] => [String c EmptyString]
           end
  end.

(** [s.replace(/c/g, d)] for characters [c] and [d]. *)
Fixpoint replace_char (c d : ascii) (s : string) : string :=
  match s with
  | EmptyString => EmptyString
  | String a s' => String (if Ascii.eqb a c then d else a) (replace_char c d s')
  end.

Definition LF : string := String (ascii_of_nat 10) EmptyString.
Definition CR : string := String (ascii_of_nat 13) EmptyString.

End Str.

(* ================================================================== *)
(** ** Regular expressions

    A backtracking matcher in continuation-passing style with the
    ECMAScript disciplines the patterns of the sources rely on: the left
    alternative first, greedy quantifiers, an iteration of [*] that
    consumes nothing is rejected. *)

Module Regex.

Inductive re : Type :=
| Eps
| Bol                            (* ^  (no m flag) *)
| Eol                            (* $  (no m flag) *)
| Cls (p : ascii -> bool)        (* one character of a class *)
| Seq (r1 r2 : re)
| Alt (r1 r2 : re)
| Star (r : re)
| Grp (i : nat) (r : re).        (* capture group number i *)

Definition Plus (r : re) : re := Seq r (Star r).
Definition Opt (r : re) : re := Alt r Eps.

Fixpoint upto_n (n : nat) (r : re) : re :=      (* r{0,n} *)
  match n with
  | O => Eps
  | S n' => Opt (Seq r (upto_n n' r))
  end.

Fixpoint Rep (m n : nat) (r : re) : re :=       (* r{m,m+n} *)
  match m with
  | O => upto_n n r
  | S m' => Seq r (Rep m' n r)
  end.

Definition Range (lo hi : nat) (r : re) : re := Rep lo (hi - lo) r.   (* r{lo,hi} *)
Definition Times (n : nat) (r : re) : re := Rep n 0 r.               (* r{n} *)

Fixpoint seqs (l : list re) : re :=
  match l with
  | [] => Eps
  | [r] => r
  | r :: l' => Seq r (seqs l')
  end.

Definition caps : Type := list (nat * string).

Fixpoint cap (c : caps) (i : nat) : string :=
  match c with
  | [] => EmptyString
  | (j, s) :: c' => if Nat.eqb i j then s else cap c' i
  end.

Section Run.
Context {R : Type}.
Variable total : nat.          (* length of the whole input *)

Fixpoint run (r : re) (s : string) (c : caps)
         (k : string -> caps -> option R) {struct r} : option R :=
  match r with
  | Eps => k s c
  | Bol => if String.length s =? total then k s c else None
  | Eol => match s with EmptyString => k s c | String _ _ => None end
  | Cls p =>
      match s with
      | String a s' => if p a then k s' c else None
      | EmptyString => None
      end
  | Seq r1 r2 => run r1 s c (fun s1 c1 => run r2 s1 c1 k)
  | Alt r1 r2 =>
      match run r1 s c k with
      | Some x => Some x
      | None => run r2 s c k
      end
  | Star r1 =>
      (fix loop (fuel : nat) (s : string) (c : caps) {struct fuel} : option R :=
         match fuel with
         | O => k s c
         | S fuel' =>
             match run r1 s c
                       (fun s1 c1 =>
                          if String.length s1 <? String.length s then loop fuel' s1 c1 else None)
             with
             | Some x => Some x
             | None => k s c
             end
         end) (String.length s) s c
  | Grp i r1 => run r1 s c (fun s1 c1 => k s1 ((i, Str.upto s s1) :: c1))
  end.
End Run.

(** A match anchored at the start of the suffix [s] of an input of
    length [total]: the text after the match and the captures. *)
Definition match_here (r : re) (total : nat) (s : string) : option (string * caps) :=
  run total r s [] (fun s' c => Some (s', c)).

(** Leftmost match from the suffix [s] on: the text before it (from
    [s]), the text after it, the captures. *)
Fixpoint search_from (r : re) (total : nat) (s : string)
  : option (string * string * caps) :=
  match match_here r total s with
  | Some (rest, c) => Some (EmptyString, rest, c)
  | None =>
      match s with
      | EmptyString => None
      | String a s' =>
          match search_from r total s' with
          | Some (pre, rest, c) => Some (String a pre, rest, c)
          | None => None
          end
      end
  end.

(** [s.match(r)] for a pattern without the [g] flag: the captures of
    the leftmost match, or [None] for [null]. *)
Definition exec (r : re) (s : string) : option caps :=
  match search_from r (String.length s) s with
  | Some (_, _, c) => Some c
  | None => None
  end.

(** [r.test(s)]. *)
Definition test (r : re) (s : string) : bool :=
  match exec r s with Some _ => true | None => false end.

(** [s.split(r)] for a pattern [r] that has no capture group and
    matches no empty string.  [fuel] bounds the positions tried; [cur]
    is the piece accumulated since the last separator. *)
Fixpoint split_go (r : re) (total : nat) (fuel : nat) (s : string) (cur : string)
  : list string :=
  match fuel with
  | O => [(cur ++ s)%string]
  | S fuel' =>
      match s with
      | EmptyString => [cur]
      | String a s' =>
          match match_here r total s with
          | Some (rest, _) =>
              if String.length rest <? String.length s
              then cur :: split_go r total fuel' rest EmptyString
              else split_go r total fuel' s' (cur ++ String a EmptyString)%string
          | None => split_go r total fuel' s' (cur ++ String a EmptyString)%string
          end
      end
  end.

Definition split (r : re) (s : string) : list string :=
  split_go r (String.length s) (String.length s) s EmptyString.

End Regex.

(* ================================================================== *)
(** ** JavaScript numbers *)

Module Num.

Inductive number : Type :=
| NaN
| NegInf
| PosInf
| Fin (q : Q).

Definition of_Z (z : Z) : number := Fin (inject_Z z).
Definition of_nat (n : nat) : number := of_Z (Z.of_nat n).

Definition isNaN (x : number) : bool :=
  match x with NaN => true | _ => false end.

Definition isFinite (x : number) : bool :=
  match x with Fin _ => true | _ => false end.

Definition Qsign (q : Q) : comparison := (Qnum q ?= 0)%Z.

Definition neg (x : number) : number :=
  match x with
  | NaN => NaN
  | NegInf => PosInf
  | PosInf => NegInf
  | Fin q => Fin (Qred (- q))
  end.

Definition add (x y : number) : number :=
  match x, y with
  | NaN, _ | _, NaN => NaN
  | PosInf, NegInf | NegInf, PosInf => NaN
  | PosInf, _ | _, PosInf => PosInf
  | NegInf, _ | _, NegInf => NegInf
  | Fin a, Fin b => Fin (Qred (a + b))
  end.

Definition sub (x y : number) : number :=
  match x, y with
  | NaN, _ | _, NaN => NaN
  | PosInf, PosInf | NegInf, NegInf => NaN
  | PosInf, _ | _, NegInf => PosInf
  | NegInf, _ | _, PosInf => NegInf
  | Fin a, Fin b => Fin (Qred (a - b))
  end.

Definition inf_times (positive : bool) (q : Q) : number :=
  match Qsign q with
  | Eq => NaN
  | Gt => if positive then PosInf else NegInf
  | Lt => if positive then NegInf else PosInf
  end.

Definition mul (x y : number) : number :=
  match x, y with
  | NaN, _ | _, NaN => NaN
  | PosInf, PosInf | NegInf, NegInf => PosInf
  | PosInf, NegInf | NegInf, PosInf => NegInf
  | PosInf, Fin q | Fin q, PosInf => inf_times true q
  | NegInf, Fin q | Fin q, NegInf => inf_times false q
  | Fin a, Fin b => Fin (Qred (a * b))
  end.

Definition div (x y : number) : number :=
  match x, y with
  | NaN, _ | _, NaN => NaN
  | Fin a, Fin b =>
      match Qsign b with
      | Eq => inf_times true a
      | _ => Fin (Qred (a / b))
      end
  | Fin _, _ => of_Z 0
  | PosInf, Fin b => match Qsign b with Lt => NegInf | _ => PosInf end
  | NegInf, Fin b => match Qsign b with Lt => PosInf | _ => NegInf end
  | _, _ => NaN
  end.

(** [x < y]: false as soon as one side is [NaN]. *)
Definition lt (x y : number) : bool :=
  match x, y with
  | NaN, _ | _, NaN => false
  | _, NegInf => false
  | NegInf, _ => true
  | PosInf, _ => false
  | _, PosInf => true
  | Fin a, Fin b => negb (Qle_bool b a)
  end.

Definition gt (x y : number) : bool := lt y x.

(** [x >= y]. *)
Definition ge (x y : number) : bool :=
  match x, y with
  | NaN, _ | _, NaN => false
  | _, _ => negb (lt x y)
  end.

(** [Math.floor]. *)
Definition floor (x : number) : number :=
  match x with
  | Fin q => of_Z (Qfloor q)
  | _ => x
  end.

Definition min2 (x y : number) : number :=
  match x, y with
  | NaN, _ | _, NaN => NaN
  | _, _ => if lt y x then y else x
  end.

(** [Math.min(...l)]: [Infinity] for no argument, [NaN] as soon as
    one argument is. *)
Definition min (l : list number) : number := fold_right min2 PosInf l.

(** *** The nearest double

    Where the code computes on values that need not be integers of at
    most 53 bits (the Slack timestamps of a chat log, the number of a
    subtitle), the result is rounded as the binary64 arithmetic of the
    host rounds it: to the nearest double, ties to even. *)

(** Round half to even of [n / d], for [0 <= n] and [0 < d]. *)
Definition round_half_even (n d : Z) : Z :=
  let f := (n / d)%Z in
  match (2 * (n mod d) ?= d)%Z with
  | Lt => f
  | Gt => (f + 1)%Z
  | Eq => if Z.even f then f else (f + 1)%Z
  end.

(** The exponent [e] with [2^e <= n / d < 2^(e+1)], for [0 < n] and
    [0 < d]. *)
Definition binade (n d : Z) : Z :=
  let e := (Z.log2 n - Z.log2 d)%Z in
  if (0 <=? e)%Z
  then (if (d * 2 ^ e <=? n)%Z then e else (e - 1)%Z)
  else (if (d <=? n * 2 ^ (- e))%Z then e else (e - 1)%Z).

(** The double nearest to [n / d], for [0 < n] and [0 < d]: 53 bits of
    precision, exponents from -1022 (gradual underflow below) to 1023
    ([Infinity] above). *)
Definition nearest (n d : Z) : number :=
  let e := Z.max (binade n d) (-1022) in
  let shift := (52 - e)%Z in
  if (0 <=? shift)%Z
  then
    let m := round_half_even (n * 2 ^ shift) d in
    Fin (Qred (Qmake m (Z.to_pos (2 ^ shift))))
  else
    let m := round_half_even n (d * 2 ^ (- shift)) in
    let x := (m * 2 ^ (- shift))%Z in
    if (2 ^ 1024 <=? x)%Z then PosInf else of_Z x.

Definition to_double (x : number) : number :=
  match x with
  | Fin q =>
      match (Qnum q ?= 0)%Z with
      | Eq => of_Z 0
      | Gt => nearest (Qnum q) (Zpos (Qden q))
      | Lt => neg (nearest (- Qnum q) (Zpos (Qden q)))
      end
  | _ => x
  end.

(** [x * y] and [x - y] as the host computes them. *)
Definition fmul (x y : number) : number := to_double (mul x y).
Definition fsub (x y : number) : number := to_double (sub x y).

(** *** Numeric literals in strings *)

Definition digit_val (c : ascii) : Z := Z.of_nat (Str.code c - 48).

(** The longest run of decimal digits at the head of [s]: its value
    on top of [acc], the number of digits read, the rest. *)
Fixpoint digits (s : string) (acc : Z) (n : nat) : Z * nat * string :=
  match s with
  | String c s' =>
      if Str.is_digit c then digits s' (10 * acc + digit_val c)%Z (S n)
      else (acc, n, s)
  | EmptyString => (acc, n, s)
  end.

Fixpoint strip_prefix (p s : string) : option string :=
  match p, s with
  | EmptyString, _ => Some s
  | String a p', String b s' => if Ascii.eqb a b then strip_prefix p' s' else None
  | String _ _, EmptyString => None
  end.

(** [m * 10^e] in lowest terms. *)
Definition scale10 (m e : Z) : Q :=
  if (0 <=? e)%Z then inject_Z (m * 10 ^ e)
  else Qred (Qmake m (Z.to_pos (10 ^ (- e)))).

(** ExponentPart at the head of [s], when there is a complete one. *)
Definition exponent (s : string) : Z * string :=
  match s with
  | String c s1 =>
      if Str.is_char_ci "e" c then
        let '(sg, s2) :=
          match s1 with
          | String "+" t => (1%Z, t)
          | String "-" t => ((-1)%Z, t)
          | _ => (1%Z, s1)
          end in
        let '(v, n, rest) := digits s2 0%Z 0 in
        if n =? 0 then (0%Z, s) else ((sg * v)%Z, rest)
      else (0%Z, s)
  | EmptyString => (0%Z, s)
  end.

(** The longest StrUnsignedDecimalLiteral at the head of [s]. *)
Definition unsigned_decimal (s : string) : option (number * string) :=
  match strip_prefix "Infinity" s with
  | Some rest => Some (PosInf, rest)
  | None =>
      let '(ip, ni, r1) := digits s 0%Z 0 in
      let mantissa :=
        match r1 with
        | String "." r2 =>
            let '(m, nf, r3) := digits r2 ip 0 in
            if (ni =? 0) && (nf =? 0) then None else Some (m, Z.of_nat nf, r3)
        | _ => if ni =? 0 then None else Some (ip, 0%Z, r1)
        end in
      match mantissa with
      | None => None
      | Some (m, nf, r) =>
          let '(e, rest) := exponent r in
          Some (Fin (scale10 m (e - nf)), rest)
      end
  end.

(** The longest StrDecimalLiteral at the head of [s]. *)
Definition signed_decimal (s : string) : option (number * string) :=
  match s with
  | String "+" s' => unsigned_decimal s'
  | String "-" s' =>
      match unsigned_decimal s' with
      | Some (x, rest) => Some (neg x, rest)
      | None => None
      end
  | _ => unsigned_decimal s
  end.

(** [parseFloat(s)]: the double nearest to the value of the longest
    decimal literal at the head of [s]. *)
Definition parseFloat (s : string) : number :=
  match signed_decimal (Str.trimStart s) with
  | Some (x, _) => to_double x
  | None => NaN
  end.

(** [parseInt(s, 10)]. *)
Definition parseInt10 (s : string) : number :=
  let t := Str.trimStart s in
  let '(sg, t') :=
    match t with
    | String "+" u => (1%Z, u)
    | String "-" u => ((-1)%Z, u)
    | _ => (1%Z, t)
    end in
  let '(v, n, _) := digits t' 0%Z 0 in
  if n =? 0 then NaN else to_double (of_Z (sg * v)).

Definition radix_digit (radix : nat) (c : ascii) : option Z :=
  let v :=
    if Str.is_digit c then Some (Str.code c - 48)
    else if Str.is_alpha c then Some (Str.code (Str.upcase c) - 55)
    else None in
  match v with
  | Some d => if d <? radix then Some (Z.of_nat d) else None
  | None => None
  end.

Fixpoint radix_digits (radix : nat) (s : string) (acc : Z) : option Z :=
  match s with
  | EmptyString => Some acc
  | String c s' =>
      match radix_digit radix c with
      | Some d => radix_digits radix s' (Z.of_nat radix * acc + d)%Z
      | None => None
      end
  end.

(** A NonDecimalIntegerLiteral: [0x], [0o] or [0b] and at least one
    digit of that radix, nothing else. *)
Definition non_decimal (s : string) : option number :=
  match s with
  | String "0" (String p (String d ds)) =>
      let radix :=
        if Str.is_char_ci "x" p then 16
        else if Str.is_char_ci "o" p then 8
        else if Str.is_char_ci "b" p then 2
        else 0 in
      if radix =? 0 then None
      else match radix_digits radix (String d ds) 0%Z with
           | Some v => Some (of_Z v)
           | None => None
           end
  | _ => None
  end.

(** [Number(s)] on a string: white space around the literal is
    dropped, the empty string is 0, the whole of what is left must be
    one numeric literal. *)
Definition Number (s : string) : number :=
  let t := Str.trim s in
  match t with
  | EmptyString => of_Z 0
  | _ =>
      match non_decimal t with
      | Some x => x
      | None =>
          match signed_decimal t with
          | Some (x, EmptyString) => x
          | _ => NaN
          end
      end
  end.

(** *** Printing *)

Definition digit_char (d : Z) : ascii := ascii_of_nat (48 + Z.to_nat d).

Fixpoint print_nat_digits (fuel : nat) (n : Z) (acc : string) : string :=
  match fuel with
  | O => acc
  | S fuel' =>
      let acc' := String (digit_char (n mod 10)) acc in
      if (n <? 10)%Z then acc' else print_nat_digits fuel' (n / 10) acc'
  end.

Definition print_Z (n : Z) : string :=
  let body := print_nat_digits (S (Z.to_nat (Z.log2 (Z.abs n)))) (Z.abs n) EmptyString in
  if (n <? 0)%Z then String "-" body else body.

(** Digits of the fraction [r / d] (with [0 <= r < d]) for as long as
    it does not terminate, at most [fuel] of them. *)
Fixpoint print_fraction (fuel : nat) (r d : Z) : string :=
  match fuel with
  | O => EmptyString
  | S fuel' =>
      if (r =? 0)%Z then EmptyString
      else String (digit_char (10 * r / d)) (print_fraction fuel' ((10 * r) mod d) d)
  end.

(** [Number.prototype.toString()], for [NaN], the infinities, the
    integers, and the decimal fractions JavaScript prints in positional
    notation. *)
Definition toString (x : number) : string :=
  match x with
  | NaN => "NaN"
  | PosInf => "Infinity"
  | NegInf => "-Infinity"
  | Fin q =>
      let n := Qnum q in
      let d := Zpos (Qden q) in
      let ip := (Z.abs n / d)%Z in
      let frac := print_fraction 20 (Z.abs n mod d) d in
      let body :=
        match frac with
        | EmptyString => print_Z ip
        | _ => (print_Z ip ++ "." ++ frac)%string
        end in
      if (n <? 0)%Z then String "-" body else body
  end.

(** [String.prototype.padStart(2, "0")]. *)
Definition padStart2 (s : string) : string :=
  match String.length s with
  | 0 => "00"
  | 1 => String "0" s
  | _ => s
  end.

Declare Scope num_scope.
Delimit Scope num_scope with num.
Bind Scope num_scope with number.
Notation "x + y" := (add x y) : num_scope.
Notation "x - y" := (sub x y) : num_scope.
Notation "x * y" := (mul x y) : num_scope.
Notation "x / y" := (div x y) : num_scope.

End Num.

Export Num.

(* ================================================================== *)
(** ** The host's date parser

    [new Date(s).getTime()] is an integral time value or [NaN] (here
    [None]).  ECMAScript fixes the result for the date-time string format
    [YYYY-MM-DDTHH:mm:ss.sssZ] and its truncations and leaves every other
    string to the implementation.  [Date_parse_iso] is the host that
    accepts that format and nothing else, with UTC as local time zone. *)

Module Host.

Definition bind {A B : Type} (x : option A) (f : A -> option B) : option B :=
  match x with Some a => f a | None => None end.

Notation "' p <- e ;; k" := (bind e (fun p => k))
  (at level 61, p pattern, e at next level, right associativity).

Fixpoint fixed_digits (n : nat) (s : string) (acc : Z) : option (Z * string) :=
  match n with
  | O => Some (acc, s)
  | S n' =>
      match s with
      | String c s' =>
          if Str.is_digit c then fixed_digits n' s' (10 * acc + digit_val c)%Z
          else None
      | EmptyString => None
      end
  end.

Definition expect (c : ascii) (s : string) : option string :=
  match s with
  | String a s' => if Ascii.eqb a c then Some s' else None
  | EmptyString => None
  end.

Definition is_leap (y : Z) : bool :=
  ((y mod 4 =? 0) && negb (y mod 100 =? 0) || (y mod 400 =? 0))%Z.

Definition days_in_month (y m : Z) : Z :=
  if (m =? 2)%Z then (if is_leap y then 29 else 28)%Z
  else if ((m =? 4) || (m =? 6) || (m =? 9) || (m =? 11))%Z then 30%Z
  else 31%Z.

(** Days from 1970-01-01 to the given civil date. *)
Definition days_from_civil (y m d : Z) : Z :=
  let y' := (if m <=? 2 then y - 1 else y)%Z in
  let era := (y' / 400)%Z in
  let yoe := (y' - era * 400)%Z in
  let mp := ((m + 9) mod 12)%Z in
  let doy := ((153 * mp + 2) / 5 + d - 1)%Z in
  let doe := (yoe * 365 + yoe / 4 - yoe / 100 + doy)%Z in
  (era * 146097 + doe - 719468)%Z.

Definition parse_date (s : string) : option (Z * Z * Z * string) :=
  ' (y, s1) <- fixed_digits 4 s 0%Z ;;
  match expect "-" s1 with
  | None => Some (y, 1%Z, 1%Z, s1)
  | Some s2 =>
      ' (m, s3) <- fixed_digits 2 s2 0%Z ;;
      match expect "-" s3 with
      | None => Some (y, m, 1%Z, s3)
      | Some s4 =>
          ' (d, s5) <- fixed_digits 2 s4 0%Z ;;
          Some (y, m, d, s5)
      end
  end.

(** [HH:mm], [HH:mm:ss] or [HH:mm:ss.sss] in milliseconds. *)
Definition parse_time (s : string) : option (Z * string) :=
  ' (h, s1) <- fixed_digits 2 s 0%Z ;;
  ' s2 <- expect ":" s1 ;;
  ' (mi, s3) <- fixed_digits 2 s2 0%Z ;;
  ' (sec, ms, s6) <-
      match expect ":" s3 with
      | None => Some (0%Z, 0%Z, s3)
      | Some s4 =>
          ' (sec, s5) <- fixed_digits 2 s4 0%Z ;;
          match expect "." s5 with
          | None => Some (sec, 0%Z, s5)
          | Some s6 =>
              ' (ms, s7) <- fixed_digits 3 s6 0%Z ;;
              Some (sec, ms, s7)
          end
      end ;;
  if ((h <=? 23) && (mi <=? 59) && (sec <=? 59)
      || (h =? 24) && (mi =? 0) && (sec =? 0) && (ms =? 0))%Z
  then Some ((h * 3600000 + mi * 60000 + sec * 1000 + ms)%Z, s6)
  else None.

(** [Z] or [+HH:mm] or [-HH:mm], in milliseconds east of UTC. *)
Definition parse_offset (s : string) : option Z :=
  match s with
  | EmptyString => Some 0%Z
  | String "Z" EmptyString => Some 0%Z
  | String sg s1 =>
      ' sign <- (if Ascii.eqb sg "+" then Some 1%Z
                 else if Ascii.eqb sg "-" then Some (-1)%Z else None) ;;
      ' (h, s2) <- fixed_digits 2 s1 0%Z ;;
      ' s3 <- expect ":" s2 ;;
      ' (mi, s4) <- fixed_digits 2 s3 0%Z ;;
      match s4 with
      | EmptyString =>
          if ((h <=? 23) && (mi <=? 59))%Z
          then Some (sign * (h * 3600000 + mi * 60000))%Z else None
      | String _ _ => None
      end
  end.

Definition Date_parse_iso (s : string) : option Z :=
  ' (y, m, d, s1) <- parse_date s ;;
  if negb ((1 <=? m) && (m <=? 12) && (1 <=? d) && (d <=? days_in_month y m))%Z
  then None
  else
    let day := (days_from_civil y m d * 86400000)%Z in
    match s1 with
    | EmptyString => Some day
    | String "T" s2 =>
        ' (t, s3) <- parse_time s2 ;;
        ' off <- parse_offset s3 ;;
        Some (day + t - off)%Z
    | String _ _ => None
    end.

(** A host that reads the ECMAScript format and one of the forms that
    Node reads beyond it: a string of two digits from 50 to 99 is the
    first day of the year 19NN, at midnight local time (here UTC).  The
    other forms that Node reads are left out.  ECMAScript leaves every
    string outside its date-time format to the implementation. *)
Definition Date_parse_legacy_year (s : string) : option Z :=
  match Date_parse_iso s with
  | Some t => Some t
  | None =>
      match fixed_digits 2 s 0%Z with
      | Some (n, EmptyString) =>
          if (50 <=? n)%Z
          then Some (days_from_civil (1900 + n) 1 1 * 86400000)%Z
          else None
      | _ => None
      end
  end.

End Host.

(* ================================================================== *)
(** ** [src/ingest/types.ts] *)

Module Types.

(** A metadata value: what the parsers store under a key. *)
Inductive mval : Type :=
| MUndefined
| MStr (s : string)
| MNum (n : number).

Definition Metadata : Type := list (string * mval).

Record NormalizedTurn : Type := mkTurn {
  speaker : string;
  text : string;
  startMs : option number;
  endMs : option number;
  turnIndex : nat;
  metadata : Metadata
}.

Record NormalizedConversation : Type := mkConversation {
  title : string;
  source : string;
  turns : list NormalizedTurn;
  conv_metadata : Metadata
}.

Inductive InputFormat : Type :=
| json_transcript
| chat_log
| whatsapp
| srt
| unknown.

Definition format_tag (f : InputFormat) : string :=
  match f with
  | json_transcript => "json-transcript"
  | chat_log => "chat-log"
  | whatsapp => "whatsapp"
  | srt => "srt"
  | unknown => "unknown"
  end.

Record ParseResult : Type := mkResult {
  success : bool;
  data : option NormalizedConversation;
  error : option string;
  format : option InputFormat
}.

(** [a || b] on an optional string and a string. *)
Definition or_else (a : option string) (b : string) : string :=
  match a with
  | Some s => if Str.truthy s then s else b
  | None => b
  end.

(** Truthiness of an optional string. *)
Definition present (a : option string) : bool :=
  match a with Some s => Str.truthy s | None => false end.

(** [l.map((x, index) => f x index)]. *)
Fixpoint mapi_from {A B : Type} (f : A -> nat -> B) (i : nat) (l : list A) : list B :=
  match l with
  | [] => []
  | x :: l' => f x i :: mapi_from f (S i) l'
  end.

Definition mapi {A B : Type} (f : A -> nat -> B) (l : list A) : list B :=
  mapi_from f 0 l.

End Types.

Export Types.

(* ================================================================== *)
(** ** [Array.prototype.sort]

    ECMAScript requires a stable sort and fixes the result whenever the
    comparator is a consistent ordering of the elements; for other
    comparators the order is left to the implementation.  The model is
    the stable insertion sort: an element moves behind its right
    neighbour exactly when the comparator, called on the pair, returns a
    number above zero ([NaN] counts as zero). *)

Module Arr.

Section Sort.
Context {A : Type}.
Variable cmp : A -> A -> number.

Fixpoint insert (x : A) (l : list A) : list A :=
  match l with
  | [] => [x]
  | y :: l' => if Num.gt (cmp x y) (of_Z 0) then y :: insert x l' else x :: l
  end.

Fixpoint sort (l : list A) : list A :=
  match l with
  | [] => []
  | x :: l' => insert x (sort l')
  end.
End Sort.

(** [l.filter((x): x is T => x !== undefined)]. *)
Fixpoint defined {A : Type} (l : list (option A)) : list A :=
  match l with
  | [] => []
  | Some x :: l' => x :: defined l'
  | None :: l' => defined l'
  end.

End Arr.

(* ================================================================== *)
(** ** [src/ingest/parsers/json-transcript.ts] *)

Module JsonTranscript.

Record JsonTranscriptEntry : Type := mkEntry {
  speaker : option string;
  timestamp : option string;
  start : option number;
  end_ : option number;
  text : string
}.

Record JsonTranscriptInput : Type := mkInput {
  title : option string;
  entries : list JsonTranscriptEntry
}.

Section WithHost.
Variable Date_parse : string -> option Z.

Definition parseTimestampToMs (timestamp : option string) : option number :=
  match timestamp with
  | None => None
  | Some ts =>
      if negb (Str.truthy ts) then None
      else
        match Date_parse ts with
        | Some t => Some (of_Z t)
        | None =>
            let parts := map Number (Str.split_char ":" ts) in
            if existsb isNaN parts then None
            else
              match parts with
              | [hours; minutes; seconds] =>
                  Some ((hours * of_Z 3600 + minutes * of_Z 60 + seconds)
                        * of_Z 1000)%num
              | [minutes; seconds] =>
                  Some ((minutes * of_Z 60 + seconds) * of_Z 1000)%num
              | [seconds] => Some (seconds * of_Z 1000)%num
              | _ => None
              end
        end
  end.

Definition parseJsonTranscript (input : JsonTranscriptInput) (title : option string)
  : NormalizedConversation :=
  let turns :=
    mapi (fun (entry : JsonTranscriptEntry) (index : nat) =>
            let startMs :=
              match entry.(start) with
              | Some n => Some n
              | None => parseTimestampToMs entry.(timestamp)
              end in
            let endMs := entry.(end_) in
            {| Types.speaker := or_else entry.(speaker) "Unknown";
               Types.text := entry.(text);
               startMs := startMs;
               endMs := endMs;
               turnIndex := index;
               metadata := [] |})
         input.(entries) in
  {| Types.title := or_else title (or_else input.(JsonTranscript.title) "Untitled Transcript");
     source := "json-transcript";
     turns := turns;
     conv_metadata := [] |}.
End WithHost.

End JsonTranscript.

(* ================================================================== *)
(** ** [src/ingest/parsers/chat-log.ts] *)

Module ChatLog.

Record ChatLogMessage : Type := mkMessage {
  user : option string;
  username : option string;
  author : option string;
  sender : option string;
  timestamp : option string;
  ts : option string;
  date : option string;
  time : option string;
  text : option string;
  message : option string;
  content : option string
}.

Record ChatLogInput : Type := mkInput {
  title : option string;
  channel : option string;
  messages : list ChatLogMessage
}.

(** [a || b] on two optional strings. *)
Definition oror (a b : option string) : option string :=
  if present a then a else b.

Definition extractSpeaker (m : ChatLogMessage) : string :=
  or_else (oror (oror (oror m.(user) m.(username)) m.(author)) m.(sender)) "Unknown".

Definition extractText (m : ChatLogMessage) : string :=
  or_else (oror (oror m.(text) m.(message)) m.(content)) "".

Definition year2100 : number := of_Z 4102444800.

Section WithHost.
Variable Date_parse : string -> option Z.

(** [new Date(s)] when its time value is not [NaN]. *)
Definition valid_date (s : string) : option number :=
  match Date_parse s with
  | Some t => Some (of_Z t)
  | None => None
  end.

Definition parseTimestampToMs (m : ChatLogMessage) : option number :=
  if present m.(ts) then
    let ts := parseFloat (or_else m.(ts) "") in
    if Num.lt ts year2100 then Some (floor (fmul ts (of_Z 1000)))
    else Some (floor ts)
  else
    match (if present m.(timestamp)
           then valid_date (or_else m.(timestamp) "")
           else None)
    with
    | Some t => Some t
    | None =>
        if present m.(date) then
          let dateStr :=
            if present m.(time)
            then (or_else m.(date) "" ++ " " ++ or_else m.(time) "")%string
            else or_else m.(date) "" in
          valid_date dateStr
        else None
    end.

(** The comparator handed to [sort]. *)
Definition compare_messages (a b : ChatLogMessage) : number :=
  match parseTimestampToMs a, parseTimestampToMs b with
  | Some tsA, Some tsB => fsub tsA tsB
  | _, _ => of_Z 0
  end.

Definition sortedMessages (input : ChatLogInput) : list ChatLogMessage :=
  Arr.sort compare_messages input.(messages).

Definition baseTimestamp (input : ChatLogInput) : number :=
  let timestamps := Arr.defined (map parseTimestampToMs (sortedMessages input)) in
  if 0 <? List.length timestamps then Num.min timestamps else of_Z 0.

Definition keeps (msg : ChatLogMessage) : bool :=
  negb (String.eqb (Str.trim (extractText msg)) "").

Definition parseChatLog (input : ChatLogInput) (title : option string)
  : NormalizedConversation :=
  let baseTimestamp := baseTimestamp input in
  let turns :=
    mapi (fun (message : ChatLogMessage) (index : nat) =>
            let absoluteMs := parseTimestampToMs message in
            let startMs :=
              match absoluteMs with
              | Some t => Some (fsub t baseTimestamp)
              | None => None
              end in
            {| Types.speaker := extractSpeaker message;
               Types.text := extractText message;
               startMs := startMs;
               endMs := None;
               turnIndex := index;
               metadata := [] |})
         (filter keeps (sortedMessages input)) in
  {| Types.title :=
       or_else title (or_else input.(ChatLog.title)
                        (or_else input.(channel) "Untitled Chat"));
     source := "chat-log";
     turns := turns;
     conv_metadata :=
       [("channel",
         match input.(channel) with Some c => MStr c | None => MUndefined end)] |}.
End WithHost.

End ChatLog.

(* ================================================================== *)
(** ** [src/ingest/parsers/whatsapp.ts] *)

Module WhatsApp.

Import Regex.

Definition digit : re := Cls Str.is_digit.
Definition space : re := Cls Str.is_space.
Definition chr (c : ascii) : re := Cls (Str.is_char c).
Definition chr_ci (c : ascii) : re := Cls (Str.is_char_ci c).
Definition not_chr (c : ascii) : re := Cls (fun a => negb (Str.is_char c a)).
Definition dot : re := Cls (fun a => negb (Str.is_line_terminator a)).

(** [\d{1,2}\/\d{1,2}\/\d{2,4}] *)
Definition date_re : re :=
  seqs [Range 1 2 digit; chr "/"; Range 1 2 digit; chr "/"; Range 2 4 digit].

(** [\d{1,2}:\d{2}(?::\d{2})?] *)
Definition time_re : re :=
  seqs [Range 1 2 digit; chr ":"; Times 2 digit; Opt (Seq (chr ":") (Times 2 digit))].

(** [\s*[-\u2013]\s*([^:]+):\s*(.+)$] after a header, and its bracketed
    variant without the dash. *)
Definition tail_re (dash : bool) : re :=
  seqs ((if dash then [Star space; chr "-"] else [])
        ++ [Star space; Grp 3 (Plus (not_chr ":")); chr ":"; Star space;
            Grp 4 (Plus dot); Eol])%list.

(** US format: [1/29/24, 2:30 PM - Name: Message] *)
Definition pattern_us : re :=
  seqs [Bol; Grp 1 date_re; Opt (chr ","); Plus space;
        Grp 2 (seqs [time_re; Star space;
                     Opt (Alt (Seq (chr_ci "A") (chr_ci "M"))
                              (Seq (chr_ci "P") (chr_ci "M")))]);
        tail_re true].

(** EU format: [29/01/2024, 14:30 - Name: Message] *)
Definition pattern_eu : re :=
  seqs [Bol; Grp 1 date_re; Opt (chr ","); Plus space; Grp 2 time_re; tail_re true].

(** Bracket format: [[29/01/2024, 14:30:00] Name: Message] *)
Definition pattern_bracket : re :=
  seqs [Bol; chr "["; Grp 1 date_re; Opt (chr ","); Plus space; Grp 2 time_re;
        chr "]"; tail_re false].

Definition WHATSAPP_PATTERNS : list re := [pattern_us; pattern_eu; pattern_bracket].

Record ParsedLine : Type := mkParsed {
  date : string;
  time : string;
  speaker : string;
  text : string
}.

Fixpoint first_match (patterns : list re) (line : string) : option ParsedLine :=
  match patterns with
  | [] => None
  | pattern :: rest =>
      match exec pattern line with
      | Some m =>
          Some {| date := cap m 1;
                  time := cap m 2;
                  speaker := Str.trim (cap m 3);
                  text := Str.trim (cap m 4) |}
      | None => first_match rest line
      end
  end.

Definition parseLine (line : string) : option ParsedLine :=
  first_match WHATSAPP_PATTERNS line.

(** [text.split(/\r?\n/).filter((line) => line.trim())] *)
Definition line_break : re := Seq (Opt (chr "013")) (chr "010").

Definition nonblank (line : string) : bool := Str.truthy (Str.trim line).

Definition nonblank_lines (text : string) : list string :=
  filter nonblank (split line_break text).

Section WithHost.
Variable Date_parse : string -> option Z.

Definition valid_date (s : string) : option number :=
  match Date_parse s with
  | Some t => Some (of_Z t)
  | None => None
  end.

Definition parseDateTime (date time : string) : option number :=
  let normalizedDate := Str.replace_char "/" "-" date in
  let dateTimeStr := (normalizedDate ++ " " ++ time)%string in
  match valid_date dateTimeStr with
  | Some t => Some t
  | None =>
      let parts := split (Cls (fun c => Str.is_char "/" c || Str.is_char "-" c)) date in
      match map Number parts with
      | [a; b; c] =>
          let year := if Num.lt c (of_Z 100) then (of_Z 2000 + c)%num else c in
          if Num.gt a (of_Z 12) then
            valid_date (toString year ++ "-" ++ padStart2 (toString b) ++ "-"
                        ++ padStart2 (toString a) ++ " " ++ time)%string
          else
            valid_date (toString year ++ "-" ++ padStart2 (toString a) ++ "-"
                        ++ padStart2 (toString b) ++ " " ++ time)%string
      | _ => None
      end
  end.

(** The loop variables of [parseWhatsApp]. *)
Record state : Type := mkState {
  st_turns : list NormalizedTurn;
  currentTurn : option ParsedLine;
  currentText : string
}.

Definition initial : state :=
  {| st_turns := []; currentTurn := None; currentText := "" |}.

(** [turns.push({...})] for the turn being accumulated, if any. *)
Definition flush (st : state) : list NormalizedTurn :=
  match st.(currentTurn) with
  | Some cur =>
      let timestamp := parseDateTime cur.(date) cur.(time) in
      (st.(st_turns)
       ++ [{| Types.speaker := cur.(speaker);
              Types.text := Str.trim st.(currentText);
              startMs := timestamp;
              endMs := None;
              turnIndex := List.length st.(st_turns);
              metadata := [("originalDate", MStr cur.(date));
                           ("originalTime", MStr cur.(time))] |}])%list
  | None => st.(st_turns)
  end.

(** One iteration of the loop over the lines. *)
Definition step (st : state) (line : string) : state :=
  match parseLine line with
  | Some parsed =>
      {| st_turns := flush st;
         currentTurn := Some parsed;
         currentText := parsed.(text) |}
  | None =>
      match st.(currentTurn) with
      | Some _ =>
          {| st_turns := st.(st_turns);
             currentTurn := st.(currentTurn);
             currentText := (st.(currentText) ++ Str.LF ++ line)%string |}
      | None => st
      end
  end.

Definition set_startMs (turn : NormalizedTurn) (v : option number) : NormalizedTurn :=
  {| Types.speaker := turn.(Types.speaker);
     Types.text := turn.(Types.text);
     startMs := v;
     endMs := turn.(endMs);
     turnIndex := turn.(turnIndex);
     metadata := turn.(metadata) |}.

(** Normalize timestamps relative to first message. *)
Definition rebase (turns : list NormalizedTurn) : list NormalizedTurn :=
  match turns with
  | first :: _ =>
      match first.(startMs) with
      | Some baseTime =>
          map (fun turn =>
                 match turn.(startMs) with
                 | Some t => set_startMs turn (Some (t - baseTime)%num)
                 | None => turn
                 end) turns
      | None => turns
      end
  | [] => turns
  end.

(** The turns pushed by the loop and the final flush, before
    normalisation. *)
Definition collect (lines : list string) : list NormalizedTurn :=
  flush (fold_left step lines initial).

Definition parseWhatsApp (text : string) (title : option string)
  : NormalizedConversation :=
  let lines := nonblank_lines text in
  {| Types.title := or_else title "WhatsApp Chat";
     source := "whatsapp";
     turns := rebase (collect lines);
     conv_metadata := [] |}.
End WithHost.

Definition is_some {A : Type} (o : option A) : bool :=
  match o with Some _ => true | None => false end.

(** [matches / samplSize >= 0.3] is decided on exact rationals; with at
    most 10 sampled lines the only ratio equal to 0.3 is 3/10, which the
    double division rounds to the double of the literal [0.3], so the
    answer is that of the source. *)
Definition isWhatsAppText (text : string) : bool :=
  let lines := nonblank_lines text in
  if List.length lines <? 2 then false
  else
    let samplSize := Nat.min (List.length lines) 10 in
    let matches := List.length (filter (fun l => is_some (parseLine l)) (firstn samplSize lines)) in
    Num.ge (of_nat matches / of_nat samplSize)%num (Fin (3 # 10)).

End WhatsApp.

(* ================================================================== *)
(** ** [src/ingest/parsers/srt.ts] *)

Module Srt.

Import Regex.

Definition digit : re := Cls Str.is_digit.
Definition space : re := Cls Str.is_space.
Definition chr (c : ascii) : re := Cls (Str.is_char c).
Definition not_chr (c : ascii) : re := Cls (fun a => negb (Str.is_char c a)).
Definition any : re := Cls (fun _ => true).               (* [.] under the s flag *)
Definition comma_or_dot : re := Cls (fun c => Str.is_char "," c || Str.is_char "." c).

Record SrtBlock : Type := mkBlock {
  index : number;
  startMs : number;
  endMs : number;
  text : string
}.

(** [(\d{1,2}):(\d{2}):(\d{2})[,.](\d{3})] *)
Definition timestamp_re : re :=
  seqs [Grp 1 (Range 1 2 digit); chr ":"; Grp 2 (Times 2 digit); chr ":";
        Grp 3 (Times 2 digit); comma_or_dot; Grp 4 (Times 3 digit)].

Definition parseTimestamp (timestamp : string) : number :=
  match exec timestamp_re timestamp with
  | None => of_Z 0
  | Some m =>
      let hours := Number (cap m 1) in
      let minutes := Number (cap m 2) in
      let seconds := Number (cap m 3) in
      let ms := Number (cap m 4) in
      (hours * of_Z 3600000 + minutes * of_Z 60000 + seconds * of_Z 1000 + ms)%num
  end.

(** [^([A-Za-z][A-Za-z0-9\s]{0,20}):\s*(.+)$] with the s flag *)
Definition speaker_colon : re :=
  seqs [Bol;
        Grp 1 (Seq (Cls Str.is_alpha)
                   (Range 0 20 (Cls (fun c => Str.is_alpha c || Str.is_digit c
                                              || Str.is_space c))));
        chr ":"; Star space; Grp 2 (Plus any); Eol].

(** [^\[([^\]]+)\]\s*(.+)$] with the s flag *)
Definition speaker_bracket : re :=
  seqs [Bol; chr "["; Grp 1 (Plus (not_chr "]")); chr "]"; Star space;
        Grp 2 (Plus any); Eol].

(** [^\(([^)]+)\)\s*(.+)$] with the s flag *)
Definition speaker_paren : re :=
  seqs [Bol; chr "("; Grp 1 (Plus (not_chr ")")); chr ")"; Star space;
        Grp 2 (Plus any); Eol].

Definition patterns : list re := [speaker_colon; speaker_bracket; speaker_paren].

Fixpoint first_match (patterns : list re) (text : string) : string * string :=
  match patterns with
  | [] => ("Unknown", text)
  | pattern :: rest =>
      match exec pattern text with
      | Some m => (Str.trim (cap m 1), Str.trim (cap m 2))
      | None => first_match rest text
      end
  end.

Definition extractSpeaker (text : string) : string * string :=
  first_match patterns text.

(** [\n\s*\n] *)
Definition blank_line : re := seqs [chr "010"; Star space; chr "010"].

(** [\r?\n] *)
Definition line_break : re := Seq (Opt (chr "013")) (chr "010").

(** One half of a cue range, [\d{1,2}:\d{2}:\d{2}[,.]\d{3}] *)
Definition cue_time : re :=
  seqs [Range 1 2 digit; chr ":"; Times 2 digit; chr ":"; Times 2 digit;
        comma_or_dot; Times 3 digit].

(** [(cue_time)\s*-->\s*(cue_time)] *)
Definition cue_range : re :=
  seqs [Grp 1 cue_time; Star space; chr "-"; chr "-"; chr ">"; Star space;
        Grp 2 cue_time].

Definition nonblank (s : string) : bool := Str.truthy (Str.trim s).

(** The body of the loop over the raw blocks: [None] where the source
    says [continue]. *)
Definition parseBlock (block : string) : option SrtBlock :=
  let lines := filter nonblank (split line_break block) in
  if List.length lines <? 3 then None
  else
    match lines with
    | line0 :: line1 :: rest =>
        let index := parseInt10 line0 in
        if isNaN index then None
        else
          match exec cue_range line1 with
          | None => None
          | Some timeMatch =>
              let startMs := parseTimestamp (cap timeMatch 1) in
              let endMs := parseTimestamp (cap timeMatch 2) in
              let text := Str.trim (Str.join Str.LF rest) in
              Some {| index := index; startMs := startMs; endMs := endMs; text := text |}
          end
    | _ => None
    end.

Fixpoint keep_some {A B : Type} (f : A -> option B) (l : list A) : list B :=
  match l with
  | [] => []
  | x :: l' =>
      match f x with
      | Some y => y :: keep_some f l'
      | None => keep_some f l'
      end
  end.

Definition parseSrtBlocks (text : string) : list SrtBlock :=
  let rawBlocks := filter nonblank (split blank_line text) in
  keep_some parseBlock rawBlocks.

(** [turns.push({...})] for one block. *)
Definition push (turns : list NormalizedTurn) (block : SrtBlock) : list NormalizedTurn :=
  let '(speaker, content) := extractSpeaker block.(text) in
  (turns ++ [{| Types.speaker := speaker;
                Types.text := content;
                Types.startMs := Some block.(startMs);
                Types.endMs := Some block.(endMs);
                turnIndex := List.length turns;
                metadata := [("srtIndex", MNum block.(index))] |}])%list.

Definition parseSrt (text : string) (title : option string) : NormalizedConversation :=
  let blocks := parseSrtBlocks text in
  {| Types.title := or_else title "Subtitle Transcript";
     source := "srt";
     turns := fold_left push blocks [];
     conv_metadata := [] |}.

(** [/^\d+$/] *)
Definition integer_re : re := seqs [Bol; Plus digit; Eol].

Definition isSrtText (text : string) : bool :=
  let lines := filter nonblank (split line_break text) in
  if List.length lines <? 3 then false
  else
    match lines with
    | line0 :: line1 :: _ =>
        let firstLineIsNumber := test integer_re (Str.trim line0) in
        let secondLineIsTimestamp :=
          test (seqs [cue_time; Star space; chr "-"; chr "-"; chr ">"; Star space; cue_time])
               line1 in
        firstLineIsNumber && secondLineIsTimestamp
    | _ => false
    end.

End Srt.

(* ================================================================== *)
(** ** [src/ingest/index.ts] *)

Module Ingest.

Set Warnings "-register-all".

(** A request payload as the handlers receive it: a decoded JSON value
    or a text body.  An object lists each of its keys once. *)
Inductive value : Type :=
| VUndefined
| VNull
| VBool (b : bool)
| VNum (n : number)
| VStr (s : string)
| VArr (items : list value)
| VObj (fields : list (string * value)).

Definition object : Type := list (string * value).

Fixpoint get (o : object) (key : string) : option value :=
  match o with
  | [] => None
  | (k, v) :: o' => if String.eqb k key then Some v else get o' key
  end.

(** [key in o] *)
Definition has (o : object) (key : string) : bool :=
  match get o key with Some _ => true | None => false end.

(** [isJsonTranscript] of [json-transcript.ts].  A falsy value, a
    value that is not an object, and an array (whose [entries] is not
    an array) are refused. *)
Definition isJsonTranscript (data : value) : bool :=
  match data with
  | VObj obj =>
      match get obj "entries" with
      | Some (VArr entries) =>
          let sample := firstn 3 entries in
          forallb (fun entry =>
                     match entry with
                     | VObj e => has e "text" && (has e "speaker" || has e "timestamp")
                     | _ => false
                     end) sample
      | _ => false
      end
  | _ => false
  end.

(** [isChatLog] of [chat-log.ts]. *)
Definition isChatLog (data : value) : bool :=
  match data with
  | VObj obj =>
      match get obj "messages" with
      | Some (VArr messages) =>
          let sample := firstn 3 messages in
          forallb (fun msg =>
                     match msg with
                     | VObj m =>
                         let hasText := has m "text" || has m "message" || has m "content" in
                         let hasUser :=
                           has m "user" || has m "username" || has m "author"
                           || has m "sender" in
                         let hasTimestamp := has m "ts" || has m "timestamp" || has m "date" in
                         hasText || (hasUser && hasTimestamp)
                     | _ => false
                     end) sample
      | _ => false
      end
  | _ => false
  end.

Definition detectFormat (data : value) : InputFormat :=
  if isJsonTranscript data then json_transcript
  else if isChatLog data then chat_log
  else
    match data with
    | VStr text =>
        if Srt.isSrtText text then srt
        else if WhatsApp.isWhatsAppText text then whatsapp
        else unknown
    | _ => unknown
    end.

(** *** Reading a payload at the type its guard asserts

    [isJsonTranscript] and [isChatLog] are type guards: after them the
    payload is used as a [JsonTranscriptInput] or a [ChatLogInput].  The
    readers below give that typed view; they answer [None] for a payload
    that does not inhabit the declared interface (a field of another
    type, an entry that is not an object), which the parsers' types
    exclude. *)

Definition opt_string (o : object) (key : string) : option (option string) :=
  match get o key with
  | None => Some None
  | Some (VStr s) => Some (Some s)
  | Some _ => None
  end.

Definition opt_number (o : object) (key : string) : option (option number) :=
  match get o key with
  | None => Some None
  | Some (VNum n) => Some (Some n)
  | Some _ => None
  end.

Import Host.

Fixpoint read_all {A : Type} (f : value -> option A) (l : list value) : option (list A) :=
  match l with
  | [] => Some []
  | v :: l' =>
      ' x <- f v ;;
      ' xs <- read_all f l' ;;
      Some (x :: xs)
  end.

Definition as_entry (v : value) : option JsonTranscript.JsonTranscriptEntry :=
  match v with
  | VObj e =>
      ' speaker <- opt_string e "speaker" ;;
      ' timestamp <- opt_string e "timestamp" ;;
      ' start <- opt_number e "start" ;;
      ' end_ <- opt_number e "end" ;;
      match get e "text" with
      | Some (VStr text) =>
          Some (JsonTranscript.mkEntry speaker timestamp start end_ text)
      | _ => None
      end
  | _ => None
  end.

Definition as_JsonTranscriptInput (data : value) : option JsonTranscript.JsonTranscriptInput :=
  match data with
  | VObj obj =>
      ' title <- opt_string obj "title" ;;
      match get obj "entries" with
      | Some (VArr entries) =>
          ' es <- read_all as_entry entries ;;
          Some (JsonTranscript.mkInput title es)
      | _ => None
      end
  | _ => None
  end.

Definition as_message (v : value) : option ChatLog.ChatLogMessage :=
  match v with
  | VObj m =>
      ' user <- opt_string m "user" ;;
      ' username <- opt_string m "username" ;;
      ' author <- opt_string m "author" ;;
      ' sender <- opt_string m "sender" ;;
      ' timestamp <- opt_string m "timestamp" ;;
      ' ts <- opt_string m "ts" ;;
      ' date <- opt_string m "date" ;;
      ' time <- opt_string m "time" ;;
      ' text <- opt_string m "text" ;;
      ' message <- opt_string m "message" ;;
      ' content <- opt_string m "content" ;;
      Some (ChatLog.mkMessage user username author sender timestamp ts date time
                              text message content)
  | _ => None
  end.

Definition as_ChatLogInput (data : value) : option ChatLog.ChatLogInput :=
  match data with
  | VObj obj =>
      ' title <- opt_string obj "title" ;;
      ' channel <- opt_string obj "channel" ;;
      match get obj "messages" with
      | Some (VArr messages) =>
          ' ms <- read_all as_message messages ;;
          Some (ChatLog.mkInput title channel ms)
      | _ => None
      end
  | _ => None
  end.

Record Options : Type := mkOptions {
  opt_format : option InputFormat;
  opt_title : option string
}.

Definition failure (error : string) (format : InputFormat) : ParseResult :=
  {| success := false; data := None; error := Some error; format := Some format |}.

Definition succeeded (normalized : NormalizedConversation) (format : InputFormat)
  : ParseResult :=
  {| success := true; data := Some normalized; error := None; format := Some format |}.

Section WithHost.
Variable Date_parse : string -> option Z.

(** [parseInput].  The answer is [None] exactly when a guard accepted
    a payload that its typed reader refuses: there the source runs the
    parser on values outside its declared input type, and either goes on
    with them or throws and answers, from its [catch], with a failure
    that carries the message of the error thrown.  On a payload of the
    declared type no parser throws. *)
Definition parseInput (data : value) (options : option Options) : option ParseResult :=
  let explicit := match options with Some o => o.(opt_format) | None => None end in
  let title := match options with Some o => o.(opt_title) | None => None end in
  let format := match explicit with Some f => f | None => detectFormat data end in
  match format with
  | json_transcript =>
      if negb (isJsonTranscript data)
      then Some (failure "Data does not match json-transcript format" format)
      else
        ' input <- as_JsonTranscriptInput data ;;
        Some (succeeded (JsonTranscript.parseJsonTranscript Date_parse input title) format)
  | chat_log =>
      if negb (isChatLog data)
      then Some (failure "Data does not match chat-log format" format)
      else
        ' input <- as_ChatLogInput data ;;
        Some (succeeded (ChatLog.parseChatLog Date_parse input title) format)
  | whatsapp =>
      match data with
      | VStr text =>
          Some (succeeded (WhatsApp.parseWhatsApp Date_parse text title) format)
      | _ => Some (failure "WhatsApp format requires plain text input" format)
      end
  | srt =>
      match data with
      | VStr text => Some (succeeded (Srt.parseSrt text title) format)
      | _ => Some (failure "SRT format requires plain text input" format)
      end
  | unknown =>
      Some (failure "Unknown format. Supported: json-transcript, chat-log, whatsapp, srt"
                    unknown)
  end.
End WithHost.

End Ingest.

(* ================================================================== *)
(** ** Vocabulary of the properties *)

(** Payloads the scenarios of the specification use. *)
Module Samples.

Import Ingest.

(** [{"entries":[{"speaker":"Alice","timestamp":"00:00:05","text":"Hello everyone"},
                 {"speaker":"Bob","timestamp":"00:00:12","text":"Hi Alice"}]}] *)
Definition transcript : value :=
  VObj [("entries",
         VArr [VObj [("speaker", VStr "Alice"); ("timestamp", VStr "00:00:05");
                     ("text", VStr "Hello everyone")];
               VObj [("speaker", VStr "Bob"); ("timestamp", VStr "00:00:12");
                     ("text", VStr "Hi Alice")]])].

(** [{"entries":[{"speaker":"Alice","text":""}]}]: an entry without
    any text. *)
Definition blank_entry : value :=
  VObj [("entries", VArr [VObj [("speaker", VStr "Alice"); ("text", VStr "")]])].

(** A header line and one more line that ends in two spaces. *)
Definition trailing_spaces : string :=
  ("1/29/24, 2:30 PM - Alice: Hello" ++ Str.LF ++ "more  ")%string.

(** A header line whose text is white space, and one more line. *)
Definition blank_header : string :=
  ("1/29/24, 2:30 PM - Alice:  " ++ Str.LF ++ "more")%string.

(** A single WhatsApp line. *)
Definition one_line : string := "1/29/24, 2:30 PM - Alice: Hello".

(** Two WhatsApp lines. *)
Definition two_lines : string :=
  ("1/29/24, 2:30 PM - Alice: Hello everyone" ++ Str.LF
   ++ "1/29/24, 2:31 PM - Bob: Hi Alice!")%string.

(** [{"entries": []}] and [{"messages": []}] *)
Definition empty_entries : value := VObj [("entries", VArr [])].
Definition empty_messages : value := VObj [("messages", VArr [])].

(** A text that is neither a subtitle file nor a WhatsApp export. *)
Definition plain_text : value := VStr "hello".

(** A host that, besides the date-time format, reads the two date and
    time strings of [two_lines] the way the specification's scenario
    expects them to resolve, one minute apart. *)
Definition scenario_host (s : string) : option Z :=
  if String.eqb s "1-29-24 2:30 PM" then Some 1706538600000%Z
  else if String.eqb s "1-29-24 2:31 PM" then Some 1706538660000%Z
  else Host.Date_parse_iso s.

(** One subtitle cue. *)
Definition one_cue : string :=
  ("1" ++ Str.LF ++ "00:00:05,000 --> 00:00:08,000" ++ Str.LF
   ++ "Alice: Hello everyone")%string.

(** [{"entries":[{"text":"Hello"}]}]: neither [speaker] nor [timestamp]. *)
Definition anonymous_entries : value :=
  VObj [("entries", VArr [VObj [("text", VStr "Hello")]])].

(** [{"entries":[{"speaker":"Alice","timestamp":"90","text":"hi"}]}]:
    a timestamp of 90 seconds in the [SS] form. *)
Definition bare_seconds : value :=
  VObj [("entries",
         VArr [VObj [("speaker", VStr "Alice"); ("timestamp", VStr "90");
                     ("text", VStr "hi")]])].

(** The chat-log scenario: two Slack messages one minute apart. *)
Definition slack_minute : value :=
  VObj [("messages",
         VArr [VObj [("user", VStr "alice"); ("ts", VStr "1706540400.000100");
                     ("text", VStr "Hello")];
               VObj [("user", VStr "bob"); ("ts", VStr "1706540460.000200");
                     ("text", VStr "Hi")]])].

(** A chat-log message with a user, a Slack-style [ts] and a text. *)
Definition slack (user ts text : string) : ChatLog.ChatLogMessage :=
  ChatLog.mkMessage (Some user) None None None None (Some ts) None None
                    (Some text) None None.

(** [{"messages":[{"user":"ann","ts":"100","text":""},
                  {"user":"bob","ts":"200","text":"hi"}]}]:
    the earliest message has no text. *)
Definition dropped_first : ChatLog.ChatLogInput :=
  ChatLog.mkInput None None [slack "ann" "100" ""; slack "bob" "200" "hi"].

End Samples.

(** The shape of every value [Math.floor] returns and of every time
    value of a valid date: not a proper fraction. *)
Definition integral (x : number) : Prop :=
  match x with
  | Fin q => exists z, q = inject_Z z
  | _ => True
  end.

(** An order by an integral key, and a comparator that is the
    difference of the keys on the elements of a list. *)
Definition by_key {A : Type} (key : A -> Z) (a b : A) : Prop := (key a <= key b)%Z.

Definition agrees {A : Type} (cmp : A -> A -> number) (key : A -> Z) (l : list A) : Prop :=
  forall a b, In a l -> In b l -> cmp a b = of_Z (key a - key b).

(** The text of a subtitle block is a trimmed string that is not
    blank. *)
Definition body_ok (b : Srt.SrtBlock) : Prop :=
  (exists X, Srt.text b = Str.trim X) /\ Str.all_space (Srt.text b) = false.

(** [turns[i].turnIndex == i] for every index [i]. *)
Definition contiguous (l : list NormalizedTurn) : Prop :=
  forall i t, nth_error l i = Some t -> turnIndex t = i.

(** A text that is not empty after trimming. *)
Definition nonempty_text (t : NormalizedTurn) : Prop :=
  Str.trim (Types.text t) <> "".

(** Non-empty text in every turn of every successful parse, whatever
    the format. *)
Definition nonempty_as_stated : Prop :=
  forall Date_parse payload options result conversation,
    Ingest.parseInput Date_parse payload options = Some result ->
    success result = true ->
    Types.data result = Some conversation ->
    Forall nonempty_text (turns conversation).

Module WhatsAppSpec.

Import WhatsApp.

(** A line one of the three patterns matches. *)
Definition header (line : string) : bool := is_some (parseLine line).

(** The text of a header followed by lines, one line break before
    each. *)
Definition joined (header_text : string) (lines : list string) : string :=
  fold_left (fun acc line => (acc ++ Str.LF ++ line)%string) lines header_text.

(** The next line, if there is one, is a header. *)
Definition ends_message (rest : list string) : Prop :=
  match rest with
  | [] => True
  | next :: _ => header next = true
  end.

(** A turn as the loop pushes it: the timestamp resolved from the
    date and time of its header, which its metadata record. *)
Definition stamped (Date_parse : string -> option Z) (a : NormalizedTurn) : Prop :=
  exists d t,
    metadata a = [("originalDate", MStr d); ("originalTime", MStr t)]
    /\ startMs a = parseDateTime Date_parse d t.

(** The [startMs] of a turn relative to [baseTime]. *)
Definition relative_to (baseTime : number) (a : NormalizedTurn) : option number :=
  match startMs a with
  | Some t => Some (t - baseTime)%num
  | None => None
  end.

(** The lines the detector samples and how many of them match. *)
Definition sample (text : string) : list string := firstn 10 (nonblank_lines text).
Definition matched (text : string) : nat := List.length (filter header (sample text)).

(** At least 30% of the sampled lines match. *)
Definition threshold_met (text : string) : Prop :=
  3 * List.length (sample text) <= 10 * matched text.

(** Detection by the 30% rule alone, whatever the number of lines. *)
Definition detection_as_stated : Prop :=
  forall text,
    Srt.isSrtText text = false ->
    sample text <> [] ->
    threshold_met text ->
    Ingest.detectFormat (Ingest.VStr text) = whatsapp.

(** The state with nothing pushed yet. *)
Definition restart (st : state) : state :=
  mkState [] (currentTurn st) (currentText st).

(** The continuation property with the joined text emitted as it
    is. *)
Definition continuation_as_stated : Prop :=
  forall Date_parse text title before h parsed more rest,
    nonblank_lines text = (before ++ h :: more ++ rest)%list ->
    parseLine h = Some parsed ->
    Forall (fun line => header line = false) more ->
    ends_message rest ->
    map Types.text (turns (parseWhatsApp Date_parse text title))
    = (map Types.text (collect Date_parse before)
       ++ [joined parsed.(WhatsApp.text) more]
       ++ map Types.text (collect Date_parse rest))%list.

End WhatsAppSpec.

Module IngestSpec.

Import Ingest.


Definition is_text (payload : value) : bool :=
  match payload with VStr _ => true | _ => false end.

(** The check [parseInput] makes before it runs the parser of a
    format. *)
Definition guard (f : InputFormat) (payload : value) : bool :=
  match f with
  | json_transcript => isJsonTranscript payload
  | chat_log => isChatLog payload
  | whatsapp | srt => is_text payload
  | unknown => false
  end.

Definition shape_error (f : InputFormat) : string :=
  match f with
  | json_transcript => "Data does not match json-transcript format"
  | chat_log => "Data does not match chat-log format"
  | whatsapp => "WhatsApp format requires plain text input"
  | srt => "SRT format requires plain text input"
  | unknown => "Unknown format. Supported: json-transcript, chat-log, whatsapp, srt"
  end.

(** The turns of a successful answer. *)
Definition turns_of (r : option ParseResult) : list NormalizedTurn :=
  match r with
  | Some {| data := Some conversation |} => turns conversation
  | _ => []
  end.

Definition explicitly (f : InputFormat) (title : option string) : option Options :=
  Some (mkOptions (Some f) title).


End IngestSpec.

Module ChatLogSpec.

Import ChatLog.

Section WithHost.
Variable Date_parse : string -> option Z.

(** The timestamp of a message is resolvable: the resolver answers
    a finite number, neither [undefined] nor [NaN] nor an infinity, and
    its magnitude is below 2^52 milliseconds, so that the difference of
    two resolved times is an integer that a number holds exactly. *)
Definition resolves (m : ChatLogMessage) : bool :=
  match parseTimestampToMs Date_parse m with
  | Some (Fin q) => (Z.abs (Qfloor q) <? 2 ^ 52)%Z
  | _ => false
  end.

(** The resolved absolute time of a message, in milliseconds. *)
Definition time_of (m : ChatLogMessage) : Z :=
  match parseTimestampToMs Date_parse m with
  | Some (Fin q) => Qfloor q
  | _ => 0%Z
  end.

Definition earlier_or_same (a b : ChatLogMessage) : Prop :=
  (time_of a <= time_of b)%Z.

(** The messages behind the emitted turns, in emission order. *)
Definition emitted (input : ChatLogInput) : list ChatLogMessage :=
  filter keeps (sortedMessages Date_parse input).

(** [Math.min] over the timestamps of the messages as they come in
    the input, before any is sorted or dropped; 0 when none has a
    timestamp. *)
Definition baseline_of_all (input : ChatLogInput) : number :=
  let timestamps := Arr.defined (map (parseTimestampToMs Date_parse) input.(messages)) in
  if 0 <? List.length timestamps then Num.min timestamps else of_Z 0.
End WithHost.

(** The chat-log ordering property with the first turn always at 0. *)
Definition ordering_as_stated : Prop :=
  forall Date_parse input title,
    forallb (resolves Date_parse) input.(messages) = true ->
    StronglySorted (earlier_or_same Date_parse) (emitted Date_parse input)
    /\ (forall first rest,
           turns (parseChatLog Date_parse input title) = first :: rest ->
           startMs first = Some (of_Z 0))
    /\ map startMs (turns (parseChatLog Date_parse input title))
       = map (fun m => Some (of_Z (time_of Date_parse m) - baseline_of_all Date_parse input)%num)
             (emitted Date_parse input)
    /\ Forall (fun t => exists d, startMs t = Some (of_Z d) /\ (0 <= d)%Z)
              (turns (parseChatLog Date_parse input title)).

End ChatLogSpec.

(* ================================================================== *)
(** ** [src/routes/ingest.ts] *)

Module Routes.

Import Ingest.

(** What [normalizeRequestBody] returns. *)
Record Normalized : Type := mkNormalized {
  n_title : option string;
  n_format : option InputFormat;
  n_data : value
}.

(** [typeof obj.title === "string" ? obj.title : undefined] *)
Definition title_of (obj : object) : option string :=
  match get obj "title" with
  | Some (VStr s) => Some s
  | _ => None
  end.

(** [[...four tags...].includes(obj.format) ? obj.format : undefined] *)
Definition format_of (obj : object) : option InputFormat :=
  match get obj "format" with
  | Some (VStr s) =>
      if String.eqb s "json-transcript" then Some json_transcript
      else if String.eqb s "chat-log" then Some chat_log
      else if String.eqb s "whatsapp" then Some whatsapp
      else if String.eqb s "srt" then Some srt
      else None
  | _ => None
  end.

(** [normalizeRequestBody].  A falsy body and a body that is not an
    object are the data; an array has no [data] and no [title]. *)
Definition normalizeRequestBody (body : value) : Normalized :=
  match body with
  | VObj obj =>
      if has obj "data" then
        {| n_title := title_of obj;
           n_format := format_of obj;
           n_data := match get obj "data" with Some d => d | None => VUndefined end |}
      else {| n_title := title_of obj; n_format := None; n_data := body |}
  | _ => {| n_title := None; n_format := None; n_data := body |}
  end.

(** The answer of [POST /ingest/preview]: a status and what the JSON
    body carries. *)
Inductive PreviewResponse : Type :=
| PreviewRefused (status : nat) (error : option string) (format : option InputFormat)
| PreviewShown (format : option InputFormat) (title source : string)
               (turnCount : nat) (turns : list NormalizedTurn).

Section WithHost.
Variable Date_parse : string -> option Z.

(** The handler of [POST /ingest/preview], on a request body; [None]
    where [parseInput] is. *)
Definition preview (body : value) : option PreviewResponse :=
  let n := normalizeRequestBody body in
  match parseInput Date_parse n.(n_data) (Some (mkOptions n.(n_format) n.(n_title))) with
  | None => None
  | Some result =>
      if negb result.(success)
      then Some (PreviewRefused 400 result.(error) result.(format))
      else
        match result.(data) with
        | Some conversation =>
            Some (PreviewShown result.(format)
                               conversation.(title) conversation.(source)
                               (List.length conversation.(turns))
                               (firstn 5 conversation.(turns)))
        | None => Some (PreviewRefused 500 (Some "Failed to preview conversation") None)
        end
  end.
End WithHost.

End Routes.

(* ================================================================== *)
(** ** [ingest] of [src/ingest/index.ts] and [POST /ingest]

    The database is a collaborator: its two inserts are parameters that
    take the store to a new store and either resolve or reject. *)

Module Persist.

Import Ingest.

Record ConversationRow : Type := mkConversationRow {
  row_title : string;
  row_source : string;
  row_metadata : Metadata
}.

Record TurnRow : Type := mkTurnRow {
  conversationId : string;
  speaker : string;
  text : string;
  startMs : option number;
  endMs : option number;
  turnIndex : nat;
  metadata : Metadata
}.

(** How an awaited promise settles. *)
Inductive outcome (A : Type) : Type :=
| Resolved (a : A)
| Rejected (message : string).

Arguments Resolved {A} a.
Arguments Rejected {A} message.

(** What [ingest] resolves to. *)
Record Ingested : Type := mkIngested {
  ingested_id : string;
  turnCount : nat
}.

(** The answer of [POST /ingest]. *)
Inductive IngestResponse : Type :=
| Undetected                       (* 400, could not detect input format *)
| Created (conversationId : string) (turnCount : nat) (format : InputFormat)   (* 201 *)
| Failed (details : string).       (* 500 *)

Section WithDb.
Variable Store : Type.

(** [db.insert(conversations).values(row).returning()]: the id of the
    stored conversation. *)
Variable insertConversation : Store -> ConversationRow -> Store * outcome string.

(** [db.insert(turns).values(rows)] *)
Variable insertTurns : Store -> list TurnRow -> Store * outcome unit.

Variable Date_parse : string -> option Z.

Definition turn_row (id : string) (turn : NormalizedTurn) : TurnRow :=
  {| conversationId := id;
     speaker := turn.(Types.speaker);
     text := turn.(Types.text);
     startMs := turn.(Types.startMs);
     endMs := turn.(Types.endMs);
     turnIndex := turn.(Types.turnIndex);
     metadata := turn.(Types.metadata) |}.

(** [ingest]: the store it leaves and how it settles; [None] where
    [parseInput] is. *)
Definition ingest (db : Store) (payload : value) (options : option Options)
  : option (Store * outcome Ingested) :=
  match parseInput Date_parse payload options with
  | None => None
  | Some parseResult =>
      match (if parseResult.(success) then parseResult.(data) else None) with
      | None =>
          Some (db, Rejected (or_else parseResult.(error) "Failed to parse input"))
      | Some normalized =>
          match insertConversation db
                  {| row_title := normalized.(title);
                     row_source := normalized.(source);
                     row_metadata := normalized.(conv_metadata) |}
          with
          | (db1, Rejected message) => Some (db1, Rejected message)
          | (db1, Resolved id) =>
              let count := List.length normalized.(turns) in
              if 0 <? count then
                match insertTurns db1 (map (turn_row id) normalized.(turns)) with
                | (db2, Rejected message) => Some (db2, Rejected message)
                | (db2, Resolved _) => Some (db2, Resolved (mkIngested id count))
                end
              else Some (db1, Resolved (mkIngested id count))
          end
      end
  end.

(** The handler of [POST /ingest], on a request body. *)
Definition post_ingest (db : Store) (body : value) : option (Store * IngestResponse) :=
  let n := Routes.normalizeRequestBody body in
  let detectedFormat :=
    match n.(Routes.n_format) with
    | Some f => f
    | None => detectFormat n.(Routes.n_data)
    end in
  match detectedFormat with
  | unknown => Some (db, Undetected)
  | _ =>
      match ingest db n.(Routes.n_data)
                   (Some (mkOptions n.(Routes.n_format) n.(Routes.n_title))) with
      | None => None
      | Some (db', Rejected message) => Some (db', Failed message)
      | Some (db', Resolved r) =>
          Some (db', Created r.(ingested_id) r.(turnCount) detectedFormat)
      end
  end.
End WithDb.

(** *** A store to run the examples: two tables in memory

    Conversations get the number of conversations stored so far as id;
    the batch of turns is refused as a whole when [refuse] is set. *)

Record Tables : Type := mkTables {
  conversations : list (string * ConversationRow);
  turn_rows : list TurnRow
}.

Definition empty_tables : Tables := {| conversations := []; turn_rows := [] |}.

Definition table_insertConversation (db : Tables) (row : ConversationRow)
  : Tables * outcome string :=
  let id := Num.print_Z (Z.of_nat (List.length db.(conversations))) in
  ({| conversations := (db.(conversations) ++ [(id, row)])%list;
      turn_rows := db.(turn_rows) |},
   Resolved id).

Definition table_insertTurns (refuse : bool) (db : Tables) (rows : list TurnRow)
  : Tables * outcome unit :=
  if refuse then (db, Rejected "insert failed")
  else ({| conversations := db.(conversations);
           turn_rows := (db.(turn_rows) ++ rows)%list |},
        Resolved tt).

End Persist.

(* ================================================================== *)
(** ** Vocabulary of further properties *)

Module Digits.

(** A string of decimal digits and its value. *)
Fixpoint all_digits (s : string) : bool :=
  match s with
  | EmptyString => true
  | String c s' => Str.is_digit c && all_digits s'
  end.

Fixpoint value_from (s : string) (acc : Z) : Z :=
  match s with
  | EmptyString => acc
  | String c s' => value_from s' (10 * acc + digit_val c)%Z
  end.

Definition value (s : string) : Z := value_from s 0%Z.

(** An integer that a JavaScript number holds exactly: at most
    [Number.MAX_SAFE_INTEGER]. *)
Definition safe (z : Z) : Prop := (z <= 9007199254740991)%Z.

(** The milliseconds of a cue time given by its four fields. *)
Definition cue_ms (hh mm ss ms : string) : Z :=
  (value hh * 3600000 + value mm * 60000 + value ss * 1000 + value ms)%Z.

(** Every character of the string is in the class. *)
Fixpoint all_in (p : ascii -> bool) (s : string) : bool :=
  match s with
  | EmptyString => true
  | String c s' => p c && all_in p s'
  end.

(** A pattern without group or anchor whose classes are within [p]. *)
Inductive plain (p : ascii -> bool) : Regex.re -> Prop :=
| plain_eps : plain p Regex.Eps
| plain_cls q : (forall a, q a = true -> p a = true) -> plain p (Regex.Cls q)
| plain_seq r1 r2 : plain p r1 -> plain p r2 -> plain p (Regex.Seq r1 r2)
| plain_alt r1 r2 : plain p r1 -> plain p r2 -> plain p (Regex.Alt r1 r2)
| plain_star r : plain p r -> plain p (Regex.Star r).

End Digits.

Module WhatsAppHeaders.

Import WhatsApp.

(** The header lines of a text, parsed, in order. *)
Fixpoint headers (lines : list string) : list ParsedLine :=
  match lines with
  | [] => []
  | line :: rest =>
      match parseLine line with
      | Some parsed => parsed :: headers rest
      | None => headers rest
      end
  end.

(** The header being accumulated, if any. *)
Definition pending (st : state) : list ParsedLine :=
  match currentTurn st with
  | Some cur => [cur]
  | None => []
  end.

Definition header_metadata (h : ParsedLine) : Metadata :=
  [("originalDate", MStr h.(date)); ("originalTime", MStr h.(time))].

End WhatsAppHeaders.

Module ChatLogMore.

Import ChatLog.

(** The first of the optional strings that is present and not empty,
    [default] when there is none. *)
Fixpoint first_nonempty (candidates : list (option string)) (default : string) : string :=
  match candidates with
  | [] => default
  | Some s :: rest => if Str.truthy s then s else first_nonempty rest default
  | None :: rest => first_nonempty rest default
  end.

(** Who said what: the speaker and the text extracted from a message. *)
Definition said (m : ChatLogMessage) : string * string :=
  (extractSpeaker m, extractText m).

Definition said_in_turn (t : NormalizedTurn) : string * string :=
  (Types.speaker t, Types.text t).

(** The comparator never asks to move the first behind the second. *)
Definition in_place (cmp : ChatLogMessage -> ChatLogMessage -> number)
           (a b : ChatLogMessage) : Prop :=
  Num.gt (cmp a b) (of_Z 0) = false.

(** The message has the resolved time [t]. *)
Definition at_time (Date_parse : string -> option Z) (t : Z) (m : ChatLogMessage) : bool :=
  (ChatLogSpec.time_of Date_parse m =? t)%Z.

(** A [ts] field that [parseFloat] cannot read. *)
Definition unreadable_ts (m : ChatLogMessage) : Prop :=
  present m.(ts) = true /\ parseFloat (or_else m.(ts) "") = NaN.

(** [{"messages":[{"user":"ann","ts":"soon","text":"a"},
                  {"user":"bob","ts":"200","text":"b"}]}] *)
Definition unreadable : ChatLogInput :=
  mkInput None None [Samples.slack "ann" "soon" "a"; Samples.slack "bob" "200" "b"].

(** Three messages without any timestamp, the second without text. *)
Definition untimed : ChatLogInput :=
  mkInput None None
          [mkMessage (Some "ann") None None None None None None None (Some "one") None None;
           mkMessage (Some "bob") None None None None None None None None None None;
           mkMessage None (Some "cy") None None None None None None None (Some "three") None].

End ChatLogMore.

Module PersistMore.

Import Ingest Persist.

(** The format [parseInput] works with: the explicit one, else the
    detected one. *)
Definition chosen (payload : value) (options : option Options) : InputFormat :=
  match match options with Some o => opt_format o | None => None end with
  | Some f => f
  | None => detectFormat payload
  end.

(** The values [ingest] gives to the insert of a conversation. *)
Definition conversation_row (conversation : NormalizedConversation) : ConversationRow :=
  {| row_title := title conversation;
     row_source := source conversation;
     row_metadata := conv_metadata conversation |}.

End PersistMore.

(* ================================================================== *)
(** * Properties *)

(** ** Integral numbers

    Timestamps are integral: every finite value the resolvers return is
    [of_Z z] for some [z], and on such values the operations of [Num]
    are those of [Z]. *)

Module NumFacts.

Lemma Qred_inject_Z (z : Z) : Qred (inject_Z z) = inject_Z z.
Proof.
  unfold Qred, inject_Z.
  pose proof (Z.ggcd_gcd z 1) as Hg.
  pose proof (Z.ggcd_correct_divisors z 1) as Hd.
  destruct (Z.ggcd z 1) as [g [aa bb]]; simpl in *.
  rewrite Z.gcd_1_r in Hg. subst g.
  destruct Hd as [H1 H2]. rewrite Z.mul_1_l in H1, H2. subst. reflexivity.
Qed.

Lemma Qred_to_Z (q : Q) (z : Z) : (q == inject_Z z)%Q -> Qred q = inject_Z z.
Proof.
  intros H. rewrite <- (Qred_inject_Z z). apply Qred_complete. exact H.
Qed.

Lemma round_exact (n : Z) : round_half_even n 1 = n.
Proof.
  unfold round_half_even. rewrite Z.mod_1_r, Z.div_1_r. reflexivity.
Qed.

Lemma nearest_integer (z : Z) :
  (0 < z < 2 ^ 53)%Z -> nearest z 1 = of_Z z.
Proof.
  intros [Hpos Hlt]. unfold nearest, binade.
  change (Z.log2 1) with 0%Z. rewrite Z.sub_0_r.
  pose proof (Z.log2_nonneg z) as Hnn.
  pose proof (Z.log2_spec z Hpos) as [Hlow _].
  assert (Hlog : (Z.log2 z < 53)%Z) by (apply Z.log2_lt_pow2; assumption).
  destruct (Z.leb_spec 0 (Z.log2 z)) as [_|]; [|lia].
  destruct (Z.leb_spec (1 * 2 ^ Z.log2 z) z) as [_|]; [|lia].
  rewrite Z.max_l by lia.
  destruct (Z.leb_spec 0 (52 - Z.log2 z)) as [_|]; [|lia].
  rewrite round_exact. unfold of_Z. f_equal. apply Qred_to_Z.
  assert (Hp : (0 < 2 ^ (52 - Z.log2 z))%Z) by (apply Z.pow_pos_nonneg; lia).
  unfold Qeq, inject_Z. cbn [Qnum Qden]. rewrite Z2Pos.id by exact Hp. lia.
Qed.

(** An integer of at most 53 bits is a double. *)
Lemma to_double_of_Z (z : Z) : (Z.abs z < 2 ^ 53)%Z -> to_double (of_Z z) = of_Z z.
Proof.
  intros H. unfold to_double, of_Z, inject_Z. cbn [Qnum Qden].
  destruct (Z.compare_spec z 0) as [->|Hneg|Hpos].
  - reflexivity.
  - rewrite nearest_integer by lia. unfold Num.neg, of_Z. f_equal.
    apply Qred_to_Z. unfold Qeq, inject_Z, Qopp. cbn [Qnum Qden]. lia.
  - apply nearest_integer. lia.
Qed.

Lemma sub_of_Z (a b : Z) : (of_Z a - of_Z b)%num = of_Z (a - b).
Proof.
  unfold of_Z, Num.sub. f_equal. apply Qred_to_Z.
  unfold Qeq, inject_Z, Qminus, Qplus, Qopp; simpl. lia.
Qed.

Lemma mul_of_Z (a b : Z) : (of_Z a * of_Z b)%num = of_Z (a * b).
Proof.
  unfold of_Z, Num.mul. f_equal. apply Qred_to_Z.
  unfold Qeq, inject_Z, Qmult; simpl. lia.
Qed.

Lemma add_of_Z (a b : Z) : (of_Z a + of_Z b)%num = of_Z (a + b).
Proof.
  unfold of_Z, Num.add. f_equal. apply Qred_to_Z.
  unfold Qeq, inject_Z, Qplus; simpl. lia.
Qed.

Lemma fsub_of_Z (a b : Z) :
  (Z.abs (a - b) < 2 ^ 53)%Z -> fsub (of_Z a) (of_Z b) = of_Z (a - b).
Proof. intros H. unfold fsub. rewrite sub_of_Z. apply to_double_of_Z, H. Qed.

Lemma fmul_of_Z (a b : Z) :
  (Z.abs (a * b) < 2 ^ 53)%Z -> fmul (of_Z a) (of_Z b) = of_Z (a * b).
Proof. intros H. unfold fmul. rewrite mul_of_Z. apply to_double_of_Z, H. Qed.

Lemma lt_of_Z (a b : Z) : Num.lt (of_Z a) (of_Z b) = (a <? b)%Z.
Proof.
  unfold of_Z, Num.lt, Qle_bool, inject_Z; simpl.
  rewrite !Z.mul_1_r. rewrite Z.ltb_antisym. reflexivity.
Qed.

Lemma gt_of_Z (a b : Z) : Num.gt (of_Z a) (of_Z b) = (b <? a)%Z.
Proof. unfold Num.gt. apply lt_of_Z. Qed.

Lemma min2_of_Z (a b : Z) : min2 (of_Z a) (of_Z b) = of_Z (Z.min a b).
Proof.
  unfold min2. change (Fin (inject_Z a)) with (of_Z a).
  change (Fin (inject_Z b)) with (of_Z b).
  rewrite lt_of_Z. destruct (Z.ltb_spec b a).
  - rewrite Z.min_r by lia. reflexivity.
  - rewrite Z.min_l by lia. reflexivity.
Qed.

Lemma of_Z_inj (a b : Z) : of_Z a = of_Z b -> a = b.
Proof. unfold of_Z, inject_Z. intros H. injection H. auto. Qed.

Lemma integral_of_Z (z : Z) : integral (of_Z z).
Proof. simpl. eauto. Qed.

Lemma integral_floor (x : number) : integral (floor x).
Proof. destruct x; simpl; eauto. Qed.

Lemma integral_finite (x : number) :
  integral x -> isFinite x = true -> exists z, x = of_Z z.
Proof.
  destruct x; simpl; try discriminate.
  intros [z ->] _. exists z. reflexivity.
Qed.

Lemma min2_comm (x y : number) :
  integral x -> integral y -> min2 x y = min2 y x.
Proof.
  destruct x as [| | |a], y as [| | |b]; try reflexivity.
  unfold integral. intros [za ->] [zb ->]. fold (of_Z za) (of_Z zb).
  rewrite !min2_of_Z, Z.min_comm. reflexivity.
Qed.

Lemma integral_min2 (x y : number) :
  integral x -> integral y -> integral (min2 x y).
Proof.
  destruct x as [| | |a], y as [| | |b]; simpl; auto.
  destruct (negb (Qle_bool a b)); auto.
Qed.

Lemma min2_assoc (x y z : number) :
  integral x -> integral y -> integral z ->
  min2 x (min2 y z) = min2 (min2 x y) z.
Proof.
  destruct x as [| | |a], y as [| | |b], z as [| | |c];
    try reflexivity;
    try (intros _ _ _; simpl;
         repeat match goal with
                | |- context [if ?c then _ else _] => destruct c
                end; reflexivity).
  1, 2: intros _ _ _; simpl; destruct (Qle_bool b c); reflexivity.
  unfold integral. intros [za ->] [zb ->] [zc ->].
  fold (of_Z za) (of_Z zb) (of_Z zc).
  rewrite !min2_of_Z, Z.min_assoc. reflexivity.
Qed.

Lemma integral_min (l : list number) : Forall integral l -> integral (Num.min l).
Proof.
  induction 1; simpl; auto using integral_min2.
Qed.

(** [Math.min] does not depend on the order of its arguments. *)
Lemma min_perm (l l' : list number) :
  Permutation l l' -> Forall integral l -> Num.min l = Num.min l'.
Proof.
  induction 1; intros Hall; simpl.
  - reflexivity.
  - inversion Hall; subst. f_equal. auto.
  - inversion Hall as [|? ? Hy Hall']; subst.
    inversion Hall' as [|? ? Hx Hl]; subst.
    pose proof (integral_min Hl) as Hm.
    rewrite !min2_assoc by assumption.
    f_equal. apply min2_comm; assumption.
  - rewrite IHPermutation1 by assumption.
    apply IHPermutation2.
    eapply Permutation_Forall; eassumption.
Qed.

End NumFacts.

Arguments Num.lt : simpl never.
Arguments Num.gt : simpl never.
Arguments Num.ge : simpl never.
Arguments Num.sub : simpl never.
Arguments Num.add : simpl never.
Arguments Num.mul : simpl never.
Arguments Num.div : simpl never.
Arguments Num.min2 : simpl never.
Arguments Num.floor : simpl never.
Arguments Num.of_Z : simpl never.
Arguments Num.to_double : simpl never.
Arguments Num.fmul : simpl never.
Arguments Num.fsub : simpl never.

(** ** Lists: indexed maps and the sort *)

Module ListFacts.

Section Mapi.
Context {A B : Type}.
Variable f : A -> nat -> B.

Lemma mapi_from_length (l : list A) (k : nat) :
  List.length (mapi_from f k l) = List.length l.
Proof.
  revert k. induction l as [|x l IH]; intros k; simpl; [reflexivity|].
  rewrite IH. reflexivity.
Qed.

Lemma mapi_from_nth (l : list A) (k i : nat) :
  nth_error (mapi_from f k l) i = option_map (fun x => f x (k + i)) (nth_error l i).
Proof.
  revert k i. induction l as [|x l IH]; intros k i.
  - destruct i; reflexivity.
  - destruct i as [|i]; simpl.
    + rewrite Nat.add_0_r. reflexivity.
    + rewrite IH. rewrite Nat.add_succ_r. reflexivity.
Qed.

Lemma mapi_nth (l : list A) (i : nat) :
  nth_error (mapi f l) i = option_map (fun x => f x i) (nth_error l i).
Proof. unfold mapi. rewrite mapi_from_nth. reflexivity. Qed.

(** A projection of the results that ignores the index is a plain
    [map]. *)
Lemma map_mapi_from {C : Type} (g : B -> C) (h : A -> C) (l : list A) (k : nat) :
  (forall x i, In x l -> g (f x i) = h x) ->
  map g (mapi_from f k l) = map h l.
Proof.
  revert k. induction l as [|x l IH]; intros k Hgh; simpl; [reflexivity|].
  rewrite Hgh by (left; reflexivity).
  rewrite IH by (intros; apply Hgh; right; assumption). reflexivity.
Qed.

Lemma Forall_mapi_from (P : B -> Prop) (Q : A -> Prop) (l : list A) (k : nat) :
  (forall x i, Q x -> P (f x i)) ->
  Forall Q l -> Forall P (mapi_from f k l).
Proof.
  intros HPQ H. revert k. induction H; intros k; simpl; constructor; auto.
Qed.
End Mapi.

Section Sort.
Context {A : Type}.
Variable cmp : A -> A -> number.

Lemma insert_perm (x : A) (l : list A) : Permutation (Arr.insert cmp x l) (x :: l).
Proof.
  induction l as [|y l IH]; simpl.
  - apply Permutation_refl.
  - destruct (Num.gt (cmp x y) (of_Z 0)).
    + eapply perm_trans; [apply perm_skip, IH | apply perm_swap].
    + apply Permutation_refl.
Qed.

(** The sort rearranges; it neither drops nor invents an element. *)
Lemma sort_perm (l : list A) : Permutation (Arr.sort cmp l) l.
Proof.
  induction l as [|x l IH]; simpl.
  - apply perm_nil.
  - eapply perm_trans; [apply insert_perm | apply perm_skip, IH].
Qed.

(** When the comparator is the difference of an integral key, the
    result is ordered by that key. *)
Variable key : A -> Z.

Lemma insert_sorted (x : A) (l : list A) :
  agrees cmp key (x :: l) ->
  StronglySorted (by_key key) l -> StronglySorted (by_key key) (Arr.insert cmp x l).
Proof.
  intros Hag Hs. induction Hs as [|y l Hs IH Hy]; simpl.
  - constructor; [constructor | constructor].
  - rewrite (Hag x y) by (simpl; auto).
    rewrite NumFacts.gt_of_Z.
    destruct (Z.ltb_spec 0 (key x - key y)) as [Hlt|Hge].
    + constructor.
      * apply IH. intros a b Ha Hb. apply Hag; simpl in *; tauto.
      * eapply Permutation_Forall.
        -- apply Permutation_sym, insert_perm.
        -- constructor; [unfold by_key; lia | exact Hy].
    + constructor.
      * constructor; assumption.
      * constructor; [unfold by_key; lia|].
        eapply Forall_impl; [|exact Hy].
        unfold by_key. intros a Ha. lia.
Qed.

Lemma sort_sorted (l : list A) :
  agrees cmp key l -> StronglySorted (by_key key) (Arr.sort cmp l).
Proof.
  induction l as [|x l IH]; intros Hag; simpl.
  - constructor.
  - apply insert_sorted.
    + intros a b Ha Hb. apply Hag.
      * destruct Ha as [->|Ha]; [left; reflexivity|].
        right. eapply Permutation_in; [apply sort_perm | exact Ha].
      * destruct Hb as [->|Hb]; [left; reflexivity|].
        right. eapply Permutation_in; [apply sort_perm | exact Hb].
    + apply IH. intros a b Ha Hb. apply Hag; right; assumption.
Qed.
End Sort.

Lemma sorted_filter {A : Type} (R : A -> A -> Prop) (p : A -> bool) (l : list A) :
  StronglySorted R l -> StronglySorted R (filter p l).
Proof.
  induction 1 as [|x l Hs IH Hx]; simpl.
  - constructor.
  - destruct (p x); [|exact IH].
    constructor; [exact IH|].
    apply Forall_forall. intros y Hy.
    apply filter_In in Hy. destruct Hy as [Hy _].
    rewrite Forall_forall in Hx. auto.
Qed.

End ListFacts.

(** ** Turn indices *)

Module IndexFacts.

Lemma contiguous_nil : contiguous [].
Proof. intros [|i] t H; discriminate. Qed.

Lemma contiguous_push (l : list NormalizedTurn) (t : NormalizedTurn) :
  contiguous l -> turnIndex t = List.length l -> contiguous (l ++ [t]).
Proof.
  intros Hl Ht i u Hu.
  destruct (Nat.lt_ge_cases i (List.length l)) as [Hlt|Hge].
  - rewrite nth_error_app1 in Hu by exact Hlt. auto.
  - rewrite nth_error_app2 in Hu by exact Hge.
    destruct (i - List.length l) as [|n] eqn:E; simpl in Hu.
    + injection Hu as <-. lia.
    + destruct n; discriminate.
Qed.

Lemma contiguous_mapi {A : Type} (f : A -> nat -> NormalizedTurn) (l : list A) :
  (forall x i, turnIndex (f x i) = i) -> contiguous (mapi f l).
Proof.
  intros Hf i t Ht. rewrite ListFacts.mapi_nth in Ht.
  destruct (nth_error l i); simpl in Ht; [|discriminate].
  injection Ht as <-. apply Hf.
Qed.

Lemma contiguous_map (g : NormalizedTurn -> NormalizedTurn) (l : list NormalizedTurn) :
  (forall t, turnIndex (g t) = turnIndex t) -> contiguous l -> contiguous (map g l).
Proof.
  intros Hg Hl i t Ht. rewrite nth_error_map in Ht.
  destruct (nth_error l i) as [u|] eqn:E; simpl in Ht; [|discriminate].
  injection Ht as <-. rewrite Hg. auto.
Qed.

(** Contiguous indices are the interval from 0 to the number of turns,
    without gap or repeat. *)
Lemma contiguous_interval (l : list NormalizedTurn) :
  contiguous l -> map turnIndex l = seq 0 (List.length l).
Proof.
  unfold contiguous.
  assert (H : forall k,
             (forall i t, nth_error l i = Some t -> turnIndex t = k + i) ->
             map turnIndex l = seq k (List.length l)).
  { induction l as [|a l IH]; intros k Hk; simpl; [reflexivity|].
    rewrite (Hk 0 a eq_refl), Nat.add_0_r. f_equal.
    apply IH. intros i t Hi. rewrite (Hk (S i) t Hi). lia. }
  intros Hl. apply (H 0). exact Hl.
Qed.

Lemma json_contiguous Date_parse input title :
  contiguous (turns (JsonTranscript.parseJsonTranscript Date_parse input title)).
Proof. apply contiguous_mapi. reflexivity. Qed.

Lemma chat_contiguous Date_parse input title :
  contiguous (turns (ChatLog.parseChatLog Date_parse input title)).
Proof. apply contiguous_mapi. reflexivity. Qed.

Lemma flush_contiguous Date_parse st :
  contiguous (WhatsApp.st_turns st) -> contiguous (WhatsApp.flush Date_parse st).
Proof.
  intros H. unfold WhatsApp.flush.
  destruct (WhatsApp.currentTurn st); [|exact H].
  apply contiguous_push; [exact H | reflexivity].
Qed.

Lemma step_contiguous Date_parse st line :
  contiguous (WhatsApp.st_turns st) ->
  contiguous (WhatsApp.st_turns (WhatsApp.step Date_parse st line)).
Proof.
  intros H. unfold WhatsApp.step.
  destruct (WhatsApp.parseLine line); simpl.
  - apply flush_contiguous, H.
  - destruct (WhatsApp.currentTurn st); exact H.
Qed.

Lemma collect_contiguous Date_parse lines :
  contiguous (WhatsApp.collect Date_parse lines).
Proof.
  unfold WhatsApp.collect. apply flush_contiguous.
  generalize contiguous_nil.
  change [] with (WhatsApp.st_turns (WhatsApp.initial)).
  generalize WhatsApp.initial.
  induction lines as [|line lines IH]; intros st Hst; simpl.
  - exact Hst.
  - apply IH. apply step_contiguous, Hst.
Qed.

Lemma rebase_contiguous l : contiguous l -> contiguous (WhatsApp.rebase l).
Proof.
  intros H. unfold WhatsApp.rebase.
  destruct l as [|first l']; [exact H|].
  destruct (startMs first); [|exact H].
  apply contiguous_map; [|exact H].
  intros t. destruct (startMs t); reflexivity.
Qed.

Lemma whatsapp_contiguous Date_parse text title :
  contiguous (turns (WhatsApp.parseWhatsApp Date_parse text title)).
Proof. apply rebase_contiguous, collect_contiguous. Qed.

Lemma srt_contiguous text title : contiguous (turns (Srt.parseSrt text title)).
Proof.
  simpl. generalize contiguous_nil.
  generalize (@nil NormalizedTurn).
  induction (Srt.parseSrtBlocks text) as [|block blocks IH]; intros acc Hacc; simpl.
  - exact Hacc.
  - apply IH. unfold Srt.push.
    destruct (Srt.extractSpeaker (Srt.text block)) as [speaker content].
    apply contiguous_push; [exact Hacc | reflexivity].
Qed.

End IndexFacts.

(** C1. Turn-index contiguity: on every input on which [parseInput]
    succeeds, whichever of the four parsers ran, the emitted turns
    satisfy [turns[i].turnIndex = i] for every index [i]; the indices are
    zero-based, without gap or repeat, in emission order. *)
Theorem turn_index_contiguity :
  forall Date_parse payload options result conversation,
    Ingest.parseInput Date_parse payload options = Some result ->
    success result = true ->
    Types.data result = Some conversation ->
    contiguous (turns conversation)
    /\ map turnIndex (turns conversation) = seq 0 (List.length (turns conversation)).
Proof.
  intros Date_parse payload options result conversation Hparse Hok Hdata.
  assert (H : contiguous (turns conversation)).
  { unfold Ingest.parseInput in Hparse.
    destruct (match match options with
                    | Some o => Ingest.opt_format o
                    | None => None
                    end with
              | Some f => f
              | None => Ingest.detectFormat payload
              end) eqn:Hformat.
    - destruct (negb (Ingest.isJsonTranscript payload)).
      + injection Hparse as <-. discriminate.
      + destruct (Ingest.as_JsonTranscriptInput payload) as [input|]; [|discriminate].
        injection Hparse as <-. injection Hdata as <-.
        apply IndexFacts.json_contiguous.
    - destruct (negb (Ingest.isChatLog payload)).
      + injection Hparse as <-. discriminate.
      + destruct (Ingest.as_ChatLogInput payload) as [input|]; [|discriminate].
        injection Hparse as <-. injection Hdata as <-.
        apply IndexFacts.chat_contiguous.
    - destruct payload; injection Hparse as <-; try discriminate.
      injection Hdata as <-. apply IndexFacts.whatsapp_contiguous.
    - destruct payload; injection Hparse as <-; try discriminate.
      injection Hdata as <-. apply IndexFacts.srt_contiguous.
    - injection Hparse as <-. discriminate. }
  split; [exact H | apply IndexFacts.contiguous_interval, H].
Qed.

(** The scenario transcript: two turns, numbered 0 and 1. *)
Lemma turn_index_contiguity_witness :
  exists result conversation,
    Ingest.parseInput Host.Date_parse_iso Samples.transcript None = Some result
    /\ success result = true
    /\ Types.data result = Some conversation
    /\ List.length (turns conversation) = 2
    /\ contiguous (turns conversation)
    /\ map turnIndex (turns conversation) = [0; 1].
Proof.
  eexists. eexists.
  split; [vm_compute; reflexivity|].
  split; [reflexivity|].
  split; [reflexivity|].
  split; [reflexivity|].
  split.
  - eapply (turn_index_contiguity Host.Date_parse_iso Samples.transcript None);
      reflexivity.
  - reflexivity.
Defined.

(** ** Chat logs: ordering and the baseline *)

Module ChatLogFacts.

Import ChatLog ChatLogSpec.

Section WithHost.
Variable Date_parse : string -> option Z.

Local Abbreviation resolves := (resolves Date_parse).
Local Abbreviation time_of := (time_of Date_parse).
Local Abbreviation timestamp_of := (parseTimestampToMs Date_parse).

Lemma timestamp_integral (m : ChatLogMessage) (x : number) :
  timestamp_of m = Some x -> integral x.
Proof.
  unfold parseTimestampToMs, valid_date.
  destruct (present (ts m)).
  - destruct (Num.lt _ _); intros H; injection H as <-; apply NumFacts.integral_floor.
  - destruct (present (ChatLog.timestamp m)).
    + destruct (Date_parse (or_else (ChatLog.timestamp m) "")).
      * intros H; injection H as <-. apply NumFacts.integral_of_Z.
      * destruct (present (date m)); [|discriminate].
        destruct (Date_parse _); [|discriminate].
        intros H; injection H as <-. apply NumFacts.integral_of_Z.
    + destruct (present (date m)); [|discriminate].
      destruct (Date_parse _); [|discriminate].
      intros H; injection H as <-. apply NumFacts.integral_of_Z.
Qed.

(** A resolvable timestamp is an integer of milliseconds. *)
Lemma resolves_time (m : ChatLogMessage) :
  resolves m = true -> timestamp_of m = Some (of_Z (time_of m)).
Proof.
  unfold ChatLogSpec.resolves, ChatLogSpec.time_of.
  destruct (timestamp_of m) as [x|] eqn:E; [|discriminate].
  intros Hfin. apply timestamp_integral in E.
  destruct x as [| | |q]; try discriminate Hfin.
  destruct (NumFacts.integral_finite (Fin q) E eq_refl) as [z Hz].
  injection Hz as ->.
  unfold of_Z. simpl. rewrite Z.div_1_r. reflexivity.
Qed.

(** A resolvable timestamp is below 2^52 in magnitude. *)
Lemma resolves_range (m : ChatLogMessage) :
  resolves m = true -> (Z.abs (time_of m) < 2 ^ 52)%Z.
Proof.
  unfold ChatLogSpec.resolves, ChatLogSpec.time_of.
  destruct (timestamp_of m) as [[| | |q]|]; try discriminate.
  intros H. apply Z.ltb_lt, H.
Qed.

Lemma difference_exact (a b : Z) :
  (Z.abs a < 2 ^ 52)%Z -> (Z.abs b < 2 ^ 52)%Z ->
  fsub (of_Z a) (of_Z b) = of_Z (a - b).
Proof.
  intros Ha Hb. apply NumFacts.fsub_of_Z.
  change (2 ^ 53)%Z with (2 * 2 ^ 52)%Z. lia.
Qed.

Lemma compare_resolved (a b : ChatLogMessage) :
  resolves a = true -> resolves b = true ->
  compare_messages Date_parse a b = of_Z (time_of a - time_of b).
Proof.
  intros Ha Hb. unfold compare_messages.
  rewrite (resolves_time _ Ha), (resolves_time _ Hb).
  apply difference_exact; apply resolves_range; assumption.
Qed.

Variable input : ChatLogInput.
Hypothesis all_resolved : forallb resolves input.(messages) = true.

Lemma message_resolved (m : ChatLogMessage) : In m input.(messages) -> resolves m = true.
Proof. intros Hm. rewrite forallb_forall in all_resolved. auto. Qed.

Lemma sorted_in (m : ChatLogMessage) :
  In m (sortedMessages Date_parse input) <-> In m input.(messages).
Proof.
  unfold sortedMessages. split; intros H.
  - eapply Permutation_in; [apply ListFacts.sort_perm | exact H].
  - eapply Permutation_in; [apply Permutation_sym, ListFacts.sort_perm | exact H].
Qed.

Lemma sorted_by_time :
  StronglySorted (earlier_or_same Date_parse) (sortedMessages Date_parse input).
Proof.
  apply (@ListFacts.sort_sorted _ (compare_messages Date_parse) time_of).
  intros a b Ha Hb. apply compare_resolved; apply message_resolved; assumption.
Qed.

Lemma emitted_in (m : ChatLogMessage) :
  In m (emitted Date_parse input) <-> In m input.(messages) /\ keeps m = true.
Proof.
  unfold emitted. rewrite filter_In, sorted_in. reflexivity.
Qed.

Lemma emitted_sorted :
  StronglySorted (earlier_or_same Date_parse) (emitted Date_parse input).
Proof. apply ListFacts.sorted_filter, sorted_by_time. Qed.

Lemma defined_resolved (l : list ChatLogMessage) :
  (forall m, In m l -> resolves m = true) ->
  Arr.defined (map timestamp_of l) = map of_Z (map time_of l).
Proof.
  induction l as [|m l IH]; intros Hl; simpl; [reflexivity|].
  rewrite (resolves_time m) by (apply Hl; left; reflexivity).
  rewrite IH by (intros; apply Hl; right; assumption). reflexivity.
Qed.

Lemma min_of_Z_spec (l : list Z) :
  l <> [] ->
  exists b, Num.min (map of_Z l) = of_Z b /\ In b l /\ forall x, In x l -> (b <= x)%Z.
Proof.
  induction l as [|a l IH]; [congruence|]. intros _.
  destruct l as [|a' l'].
  - exists a. simpl. split; [reflexivity|]. split; [auto|].
    intros x [->|[]]. lia.
  - destruct IH as [b [Hb [Hin Hle]]]; [discriminate|].
    exists (Z.min a b).
    change (Num.min (map of_Z (a :: a' :: l')))
      with (min2 (of_Z a) (Num.min (map of_Z (a' :: l')))).
    rewrite Hb, NumFacts.min2_of_Z. split; [reflexivity|]. split.
    + destruct (Z.min_spec a b) as [[_ ->]|[_ ->]]; [left; reflexivity | right; exact Hin].
    + intros x [->|Hx]; [lia|]. specialize (Hle x Hx). lia.
Qed.

(** The baseline is the least timestamp over all the messages of the
    input, kept or dropped. *)
Lemma base_spec :
  exists base,
    baseTimestamp Date_parse input = of_Z base
    /\ (forall m, In m input.(messages) -> (base <= time_of m)%Z)
    /\ (input.(messages) <> [] ->
        exists m, In m input.(messages) /\ time_of m = base).
Proof.
  unfold baseTimestamp.
  rewrite defined_resolved
    by (intros m Hm; apply message_resolved, sorted_in, Hm).
  rewrite !length_map.
  destruct (sortedMessages Date_parse input) as [|m0 l] eqn:E.
  - exists 0%Z. simpl. split; [reflexivity|].
    assert (Hnil : input.(messages) = []).
    { destruct (messages input) as [|m l] eqn:Em; [reflexivity|].
      assert (H : In m (sortedMessages Date_parse input))
        by (apply sorted_in; rewrite Em; left; reflexivity).
      rewrite E in H. destruct H. }
    rewrite Hnil. split; [intros m Hm; destruct Hm|congruence].
  - destruct (min_of_Z_spec (l := map time_of (m0 :: l))) as [b [Hb [Hin Hle]]];
      [discriminate|].
    exists b. simpl List.length. simpl Nat.ltb. cbv iota.
    split; [exact Hb|]. split.
    + intros m Hm. apply Hle. apply in_map. rewrite <- E. apply sorted_in, Hm.
    + intros _. apply in_map_iff in Hin. destruct Hin as [m [Hm Hin]].
      exists m. split; [|exact Hm]. apply sorted_in. rewrite E. exact Hin.
Qed.

Lemma turns_startMs (title : option string) (base : Z) :
  baseTimestamp Date_parse input = of_Z base ->
  map Types.startMs (turns (parseChatLog Date_parse input title))
  = map (fun m => Some (of_Z (time_of m - base))) (emitted Date_parse input).
Proof.
  intros Hbase. simpl. unfold mapi.
  apply ListFacts.map_mapi_from.
  intros m i Hm. simpl.
  apply emitted_in in Hm. destruct Hm as [Hm _].
  rewrite (resolves_time m) by (apply message_resolved, Hm).
  rewrite Hbase. f_equal. apply difference_exact.
  - apply resolves_range, message_resolved, Hm.
  - destruct base_spec as [b [Hb [_ Hmin]]].
    rewrite Hbase in Hb. apply NumFacts.of_Z_inj in Hb. subst b.
    destruct Hmin as [m0 [Hm0 <-]]; [intros Hnil; rewrite Hnil in Hm; destruct Hm|].
    apply resolves_range, message_resolved, Hm0.
Qed.
End WithHost.

Lemma turns_text Date_parse input title :
  map Types.text (turns (parseChatLog Date_parse input title))
  = map extractText (emitted Date_parse input).
Proof.
  simpl. unfold mapi. apply ListFacts.map_mapi_from. reflexivity.
Qed.

End ChatLogFacts.

Module BaselineFacts.

Import ChatLog ChatLogSpec.

Lemma defined_perm {A : Type} (l l' : list (option A)) :
  Permutation l l' -> Permutation (Arr.defined l) (Arr.defined l').
Proof.
  induction 1 as [|x l l' _ IH|x y l|l l' l'' _ IH1 _ IH2]; simpl.
  - apply perm_nil.
  - destruct x; [apply perm_skip|]; exact IH.
  - destruct x, y; try apply Permutation_refl. apply perm_swap.
  - eapply perm_trans; eassumption.
Qed.

Lemma defined_integral Date_parse (l : list ChatLogMessage) :
  Forall integral (Arr.defined (map (parseTimestampToMs Date_parse) l)).
Proof.
  induction l as [|m l IH]; simpl; [constructor|].
  destruct (parseTimestampToMs Date_parse m) as [x|] eqn:E; [|exact IH].
  constructor; [|exact IH].
  eapply ChatLogFacts.timestamp_integral; eassumption.
Qed.

(** Sorting the messages first changes nothing to the baseline. *)
Lemma baseline_unsorted Date_parse input :
  baseTimestamp Date_parse input = baseline_of_all Date_parse input.
Proof.
  unfold baseTimestamp, baseline_of_all, sortedMessages.
  assert (Hperm :
    Permutation
      (Arr.defined (map (parseTimestampToMs Date_parse)
                        (Arr.sort (compare_messages Date_parse) (messages input))))
      (Arr.defined (map (parseTimestampToMs Date_parse) (messages input)))).
  { apply defined_perm, Permutation_map, ListFacts.sort_perm. }
  rewrite (Permutation_length Hperm).
  rewrite (NumFacts.min_perm Hperm) by apply defined_integral.
  reflexivity.
Qed.

End BaselineFacts.

(** C3 (as stated: first emitted turn always at 0) fails: in
    [Samples.dropped_first] both timestamps resolve, the message of
    second 100 has no text and is dropped, and the only emitted turn
    starts at 100000 ms, not 0. *)
Lemma chat_log_first_turn_not_zero : ~ ChatLogSpec.ordering_as_stated.
Proof.
  intros H.
  destruct (H Host.Date_parse_iso Samples.dropped_first None) as [_ [Hfirst _]].
  - vm_compute. reflexivity.
  - destruct (turns (ChatLog.parseChatLog Host.Date_parse_iso Samples.dropped_first None))
      as [|first rest] eqn:E; vm_compute in E; [discriminate E|].
    injection E as <- <-.
    specialize (Hfirst _ _ eq_refl). vm_compute in Hfirst. discriminate.
Qed.

(** C3 (amended). For every chat-log input in which every message's
    timestamp resolves to a finite number (of a magnitude below 2^52 ms,
    so that the code subtracts exactly): the emitted turns follow the
    messages with non-empty text in non-decreasing resolved time; there
    is a baseline that is the least resolved timestamp over all the
    messages of the input, dropped ones included; every [startMs] is the
    message's resolved timestamp minus that baseline, hence at least 0;
    and the first emitted turn has [startMs = 0] as soon as a message
    that carries the least timestamp has non-empty text. *)
Theorem chat_log_ordering :
  forall Date_parse input title,
    forallb (ChatLogSpec.resolves Date_parse) input.(ChatLog.messages) = true ->
    let time_of := ChatLogSpec.time_of Date_parse in
    let emitted := ChatLogSpec.emitted Date_parse input in
    let turns := turns (ChatLog.parseChatLog Date_parse input title) in
    StronglySorted (ChatLogSpec.earlier_or_same Date_parse) emitted
    /\ map Types.text turns = map ChatLog.extractText emitted
    /\ exists base,
        ChatLog.baseTimestamp Date_parse input = of_Z base
        /\ (forall m, In m input.(ChatLog.messages) -> (base <= time_of m)%Z)
        /\ (input.(ChatLog.messages) <> [] ->
            exists m, In m input.(ChatLog.messages) /\ time_of m = base)
        /\ map startMs turns = map (fun m => Some (of_Z (time_of m - base))) emitted
        /\ Forall (fun m => (0 <= time_of m - base)%Z) emitted
        /\ (forall m, In m input.(ChatLog.messages) -> time_of m = base ->
                      ChatLog.keeps m = true ->
                      exists first rest,
                        turns = first :: rest /\ startMs first = Some (of_Z 0)).
Proof.
  intros Date_parse input title Hres. cbv zeta.
  split; [apply ChatLogFacts.emitted_sorted, Hres|].
  split; [apply ChatLogFacts.turns_text|].
  destruct (ChatLogFacts.base_spec Date_parse input Hres) as [base [Hbase [Hlow Hmin]]].
  exists base.
  pose proof (ChatLogFacts.turns_startMs Date_parse input Hres title Hbase) as Hstart.
  pose proof (ChatLogFacts.emitted_sorted Date_parse input Hres) as Hsorted.
  repeat split; try assumption.
  - apply Forall_forall. intros m Hm.
    apply (ChatLogFacts.emitted_in Date_parse input) in Hm.
    specialize (Hlow m (proj1 Hm)). lia.
  - intros m Hm Htime Hkeep.
    assert (Hin : In m (ChatLogSpec.emitted Date_parse input))
      by (apply (ChatLogFacts.emitted_in Date_parse input); auto).
    assert (Hfrom : forall m1, In m1 (ChatLogSpec.emitted Date_parse input) ->
                               In m1 input.(ChatLog.messages))
      by (intros m1 H1; apply (ChatLogFacts.emitted_in Date_parse input) in H1; tauto).
    destruct (ChatLogSpec.emitted Date_parse input) as [|m1 rest1]; [destruct Hin|].
    destruct (turns (ChatLog.parseChatLog Date_parse input title)) as [|first rest];
      [discriminate|].
    exists first, rest. split; [reflexivity|].
    simpl in Hstart. injection Hstart as Hfirst _. rewrite Hfirst.
    assert (Hle : (ChatLogSpec.time_of Date_parse m1 <= ChatLogSpec.time_of Date_parse m)%Z).
    { inversion Hsorted as [|? ? _ Hall]; subst.
      destruct Hin as [->|Hin]; [lia|].
      rewrite Forall_forall in Hall. apply Hall, Hin. }
    specialize (Hlow m1 (Hfrom m1 (or_introl eq_refl))).
    replace (ChatLogSpec.time_of Date_parse m1 - base)%Z with 0%Z by lia.
    reflexivity.
Qed.

(** [Samples.dropped_first]: both timestamps resolve and the emitted
    turn is at 100000 ms from the baseline. *)
Lemma chat_log_ordering_witness :
  forallb (ChatLogSpec.resolves Host.Date_parse_iso)
          (ChatLog.messages Samples.dropped_first) = true
  /\ map startMs (turns (ChatLog.parseChatLog Host.Date_parse_iso Samples.dropped_first None))
     = [Some (of_Z 100000)]
  /\ exists base,
      ChatLog.baseTimestamp Host.Date_parse_iso Samples.dropped_first = of_Z base
      /\ map startMs (turns (ChatLog.parseChatLog Host.Date_parse_iso Samples.dropped_first None))
         = map (fun m => Some (of_Z (ChatLogSpec.time_of Host.Date_parse_iso m - base)))
               (ChatLogSpec.emitted Host.Date_parse_iso Samples.dropped_first).
Proof.
  split; [reflexivity|]. split; [reflexivity|].
  destruct (chat_log_ordering Host.Date_parse_iso Samples.dropped_first None eq_refl)
    as [_ [_ [base [Hbase [_ [_ [Hstart _]]]]]]].
  exists base. split; assumption.
Defined.

(** C9. The rebasing baseline of a chat log is [Math.min] over the
    resolved timestamps of all the messages, as they come in the input,
    before the messages with empty text are filtered out.  Consequently,
    when every timestamp resolves (to a finite number below 2^52 ms in
    magnitude) and the message that is strictly the earliest has empty
    text, the baseline is that dropped message's
    timestamp, every emitted [startMs] is an offset from it, and every
    emitted turn, the first one included, has [startMs > 0]. *)
Theorem baseline_before_filter :
  forall Date_parse input title,
    ChatLog.baseTimestamp Date_parse input = ChatLogSpec.baseline_of_all Date_parse input
    /\ forall before earliest after,
        input.(ChatLog.messages) = (before ++ earliest :: after)%list ->
        forallb (ChatLogSpec.resolves Date_parse) input.(ChatLog.messages) = true ->
        ChatLog.keeps earliest = false ->
        Forall (fun m => (ChatLogSpec.time_of Date_parse earliest
                          < ChatLogSpec.time_of Date_parse m)%Z) (before ++ after) ->
        ChatLog.baseTimestamp Date_parse input
        = of_Z (ChatLogSpec.time_of Date_parse earliest)
        /\ map startMs (turns (ChatLog.parseChatLog Date_parse input title))
           = map (fun m => Some (of_Z (ChatLogSpec.time_of Date_parse m
                                       - ChatLogSpec.time_of Date_parse earliest)))
                 (ChatLogSpec.emitted Date_parse input)
        /\ Forall (fun t => exists d, startMs t = Some (of_Z d) /\ (0 < d)%Z)
                  (turns (ChatLog.parseChatLog Date_parse input title)).
Proof.
  intros Date_parse input title.
  split; [apply BaselineFacts.baseline_unsorted|].
  intros before earliest after Hmsgs Hres Hdrop Hlate.
  destruct (ChatLogFacts.base_spec Date_parse input Hres) as [base [Hbase [Hlow Hmin]]].
  assert (Hin0 : In earliest input.(ChatLog.messages)).
  { rewrite Hmsgs. apply in_or_app. right. left. reflexivity. }
  assert (Hsplit : forall m, In m input.(ChatLog.messages) ->
                             m = earliest \/ In m (before ++ after)).
  { intros m Hm. rewrite Hmsgs in Hm. apply in_app_or in Hm.
    destruct Hm as [Hm|[Hm|Hm]]; [right|left|right]; auto using in_or_app. }
  rewrite Forall_forall in Hlate.
  assert (Hb : base = ChatLogSpec.time_of Date_parse earliest).
  { destruct Hmin as [m [Hm Htime]]; [rewrite Hmsgs; destruct before; discriminate|].
    destruct (Hsplit m Hm) as [->|Hlater]; [symmetry; exact Htime|].
    specialize (Hlate m Hlater). specialize (Hlow earliest Hin0). lia. }
  subst base.
  pose proof (ChatLogFacts.turns_startMs Date_parse input Hres title Hbase) as Hstart.
  split; [exact Hbase|]. split; [exact Hstart|].
  assert (Hpos : Forall (fun o => exists d, o = Some (of_Z d) /\ (0 < d)%Z)
                        (map startMs (turns (ChatLog.parseChatLog Date_parse input title)))).
  { rewrite Hstart. apply Forall_forall. intros o Ho.
    apply in_map_iff in Ho. destruct Ho as [m [<- Hm]].
    eexists. split; [reflexivity|].
    apply (ChatLogFacts.emitted_in Date_parse input) in Hm.
    destruct Hm as [Hm Hkeep].
    destruct (Hsplit m Hm) as [->|Hlater]; [congruence|].
    specialize (Hlate m Hlater). lia. }
  rewrite Forall_map in Hpos. exact Hpos.
Qed.

(** [Samples.dropped_first]: the baseline is the timestamp of the
    dropped message. *)
Lemma baseline_before_filter_witness :
  ChatLog.baseTimestamp Host.Date_parse_iso Samples.dropped_first = of_Z 100000
  /\ map startMs (turns (ChatLog.parseChatLog Host.Date_parse_iso Samples.dropped_first None))
     = [Some (of_Z 100000)]
  /\ Forall (fun t => exists d, startMs t = Some (of_Z d) /\ (0 < d)%Z)
            (turns (ChatLog.parseChatLog Host.Date_parse_iso Samples.dropped_first None)).
Proof.
  destruct (baseline_before_filter Host.Date_parse_iso Samples.dropped_first None)
    as [_ H].
  destruct (H [] (Samples.slack "ann" "100" "") [Samples.slack "bob" "200" "hi"])
    as [Hbase [Hstart Hpos]].
  - reflexivity.
  - reflexivity.
  - reflexivity.
  - constructor; [vm_compute; reflexivity | constructor].
  - split; [exact Hbase|]. split; [reflexivity | exact Hpos].
Defined.

(** ** Strings: trimming *)

Module StrFacts.

Import Str.

Local Open Scope string_scope.

Lemma is_suffix_refl (s : string) : is_suffix s s.
Proof. exists "". reflexivity. Qed.

Lemma append_assoc (a b c : string) : (a ++ b) ++ c = a ++ (b ++ c).
Proof. induction a as [|x a IH]; simpl; [reflexivity | rewrite IH; reflexivity]. Qed.

Lemma is_suffix_trans (a b c : string) : is_suffix a b -> is_suffix b c -> is_suffix a c.
Proof.
  intros [p ->] [q ->]. exists (q ++ p). rewrite append_assoc. reflexivity.
Qed.

Lemma is_suffix_tail (a : ascii) (s : string) : is_suffix s (String a s).
Proof. exists (String a ""). reflexivity. Qed.

Lemma append_length (a b : string) :
  String.length (a ++ b) = String.length a + String.length b.
Proof. induction a as [|x a IH]; simpl; [reflexivity | rewrite IH; reflexivity]. Qed.

Lemma substring_full (s : string) : substring 0 (String.length s) s = s.
Proof. induction s as [|c s IH]; simpl; [reflexivity | rewrite IH; reflexivity]. Qed.

Lemma upto_nil (s : string) : upto s "" = s.
Proof. unfold upto. simpl. rewrite Nat.sub_0_r. apply substring_full. Qed.

Lemma all_space_app (a b : string) : all_space (a ++ b) = all_space a && all_space b.
Proof.
  induction a as [|c a IH]; simpl; [reflexivity|].
  rewrite IH. rewrite andb_assoc. reflexivity.
Qed.

Lemma trimStart_all_space (s : string) : all_space s = true -> trimStart s = "".
Proof.
  induction s as [|c s IH]; simpl; [reflexivity|].
  intros H. apply andb_prop in H. destruct H as [Hc Hs]. rewrite Hc. auto.
Qed.

Lemma trimStart_head (s : string) :
  all_space s = false ->
  exists c t, trimStart s = String c t /\ is_space c = false.
Proof.
  induction s as [|c s IH]; simpl; [discriminate|].
  destruct (is_space c) eqn:Hc; simpl.
  - exact IH.
  - intros _. exists c, s. split; [reflexivity | exact Hc].
Qed.

Lemma trimEnd_all_space (s : string) : all_space s = true -> trimEnd s = "".
Proof.
  induction s as [|c s IH]; simpl; [reflexivity|].
  intros H. apply andb_prop in H. destruct H as [Hc Hs].
  rewrite IH by exact Hs. rewrite Hc. reflexivity.
Qed.

Lemma trimEnd_head (c : ascii) (t : string) :
  is_space c = false -> exists t', trimEnd (String c t) = String c t'.
Proof.
  intros Hc. simpl. destruct (trimEnd t).
  - rewrite Hc. eauto.
  - eauto.
Qed.

(** A string trims to the empty string exactly when it holds white
    space only. *)
Lemma trim_empty_iff (s : string) : trim s = "" <-> all_space s = true.
Proof.
  unfold trim. split.
  - intros H. destruct (all_space s) eqn:E; [reflexivity|].
    destruct (@trimStart_head s E) as [c [t [Ht Hc]]].
    rewrite Ht in H. destruct (@trimEnd_head c t Hc) as [t' Ht'].
    rewrite Ht' in H. discriminate.
  - intros H. rewrite trimStart_all_space by exact H. reflexivity.
Qed.

Lemma trim_keeps_text (s : string) : all_space s = false -> all_space (trim s) = false.
Proof.
  intros E. unfold trim.
  destruct (@trimStart_head s E) as [c [t [Ht Hc]]]. rewrite Ht.
  destruct (@trimEnd_head c t Hc) as [t' ->]. simpl. rewrite Hc. reflexivity.
Qed.

Lemma trimEnd_idempotent (s : string) : trimEnd (trimEnd s) = trimEnd s.
Proof.
  induction s as [|c s IH]; simpl; [reflexivity|].
  destruct (trimEnd s) as [|d t] eqn:E.
  - destruct (is_space c) eqn:Hc; simpl; [reflexivity|]. rewrite Hc. reflexivity.
  - change (trimEnd (String c (String d t))) with
      (match trimEnd (String d t) with
       | "" => if is_space c then "" else String c ""
       | String _ _ as u => String c u
       end).
    rewrite IH. reflexivity.
Qed.

Lemma trimEnd_app_space (p q : string) :
  all_space q = true -> trimEnd (p ++ q) = trimEnd p.
Proof.
  intros Hq. induction p as [|c p IH]; simpl.
  - apply trimEnd_all_space, Hq.
  - rewrite IH. reflexivity.
Qed.

Lemma trimEnd_length (s : string) : String.length (trimEnd s) <= String.length s.
Proof.
  induction s as [|c s IH]; simpl; [lia|].
  destruct (trimEnd s); [destruct (is_space c)|]; simpl in *; lia.
Qed.

(** What [trimEnd] returns does not end in white space. *)
Lemma trimEnd_suffix (s q : string) :
  is_suffix q (trimEnd s) -> q <> "" -> all_space q = false.
Proof.
  intros [p Hp] Hq. destruct (all_space q) eqn:E; [|reflexivity].
  exfalso.
  pose proof (trimEnd_idempotent s) as Hid. rewrite Hp in Hid.
  rewrite trimEnd_app_space in Hid by exact E.
  pose proof (trimEnd_length p) as Hlen. rewrite Hid, append_length in Hlen.
  destruct q; [congruence|]. simpl in Hlen. lia.
Qed.

Lemma trim_suffix (s q : string) :
  is_suffix q (trim s) -> q <> "" -> all_space q = false.
Proof. apply trimEnd_suffix. Qed.

Lemma truthy_trim (s : string) : truthy (trim s) = true <-> all_space s = false.
Proof.
  destruct (trim_empty_iff s) as [H1 H2].
  destruct (all_space s) eqn:F.
  - rewrite H2 by reflexivity. simpl. split; discriminate.
  - destruct (trim s) eqn:E; simpl.
    + specialize (H1 eq_refl). discriminate.
    + split; reflexivity.
Qed.

End StrFacts.

(** ** Regular expressions: where a match ends *)

Module RegexFacts.

Import Str Regex StrFacts.

Section Calls.
Context {R : Type}.
Variable total : nat.

(** A successful run has called its continuation on a suffix of the
    text it started from, and the answer is the continuation's. *)
Lemma run_calls (r : re) :
  forall (s : string) (c : caps) (k : string -> caps -> option R) (res : R),
    run total r s c k = Some res ->
    exists s' c', is_suffix s' s /\ k s' c' = Some res.
Proof.
  induction r as [| | |p|r1 IH1 r2 IH2|r1 IH1 r2 IH2|r1 IH1|i r1 IH1];
    intros s c k res H; simpl in H.
  - exists s, c. split; [apply is_suffix_refl | exact H].
  - destruct (String.length s =? total); [|discriminate].
    exists s, c. split; [apply is_suffix_refl | exact H].
  - destruct s; [|discriminate].
    exists "", c. split; [apply is_suffix_refl | exact H].
  - destruct s as [|a s]; [discriminate|].
    destruct (p a); [|discriminate].
    exists s, c. split; [apply is_suffix_tail | exact H].
  - apply IH1 in H. destruct H as [s1 [c1 [Hs1 H]]].
    apply IH2 in H. destruct H as [s2 [c2 [Hs2 H]]].
    exists s2, c2. split; [eapply is_suffix_trans; eassumption | exact H].
  - destruct (run total r1 s c k) eqn:E.
    + injection H as <-. apply IH1 in E. exact E.
    + apply IH2 in H. exact H.
  - revert H. generalize (String.length s) at 1. intros fuel. revert s c.
    induction fuel as [|fuel IHf]; intros s c H.
    + exists s, c. split; [apply is_suffix_refl | exact H].
    + match type of H with
      | match ?e with _ => _ end = _ => destruct e eqn:E
      end.
      * injection H as <-. apply IH1 in E. destruct E as [s1 [c1 [Hs1 E]]].
        destruct (String.length s1 <? String.length s); [|discriminate].
        apply IHf in E. destruct E as [s2 [c2 [Hs2 E]]].
        exists s2, c2. split; [eapply is_suffix_trans; eassumption | exact E].
      * exists s, c. split; [apply is_suffix_refl | exact H].
  - apply IH1 in H. destruct H as [s1 [c1 [Hs1 H]]].
    exists s1, ((i, upto s s1) :: c1). split; [exact Hs1 | exact H].
Qed.
End Calls.

Lemma seqs_cons (r : re) (l : list re) : l <> [] -> seqs (r :: l) = Seq r (seqs l).
Proof. destruct l; [congruence | reflexivity]. Qed.

(** A pattern that ends in [(X+)$] with group [i] around [X+]: group
    [i] of a match is a non-empty suffix of the text. *)
Lemma tail_capture (total : nat) (i : nat) (p : ascii -> bool) (pres : list re) :
  forall s c rest m,
    run total (seqs (pres ++ [Grp i (Plus (Cls p)); Eol])) s c
        (fun s' c' => Some (s', c')) = Some (rest, m) ->
    exists q, q <> "" /\ is_suffix q s /\ cap m i = q.
Proof.
  induction pres as [|r pres IH]; intros s c rest m H.
  - simpl in H.
    destruct s as [|a s0]; [discriminate|].
    destruct (p a); [|discriminate].
    match type of H with
    | ?loop _ _ _ = _ =>
        change (run total (Star (Cls p)) s0 c
                    (fun s1 c1 =>
                       match s1 with
                       | "" => Some (s1, (i, upto (String a s0) s1) :: c1)
                       | String _ _ => None
                       end) = Some (rest, m)) in H
    end.
    apply run_calls in H. destruct H as [s2 [c2 [_ H]]].
    destruct s2; [|discriminate]. injection H as _ <-.
    exists (String a s0). split; [discriminate|]. split; [apply is_suffix_refl|].
    simpl. rewrite Nat.eqb_refl. apply upto_nil.
  - change ((r :: pres) ++ [Grp i (Plus (Cls p)); Eol])%list
      with (r :: (pres ++ [Grp i (Plus (Cls p)); Eol]))%list in H.
    rewrite seqs_cons in H by (destruct pres; discriminate).
    simpl in H. apply run_calls in H. destruct H as [s1 [c1 [Hs1 H]]].
    apply IH in H. destruct H as [q [Hq [Hsuf Hcap]]].
    exists q. split; [exact Hq|]. split; [|exact Hcap].
    eapply is_suffix_trans; eassumption.
Qed.

Lemma search_from_some (r : re) (total : nat) :
  forall s pre rest c,
    search_from r total s = Some (pre, rest, c) ->
    exists s', is_suffix s' s /\ match_here r total s' = Some (rest, c).
Proof.
  induction s as [|a s IH]; intros pre rest c H; simpl in H.
  - destruct (match_here r total "") as [[rest' c']|] eqn:E; [|discriminate].
    injection H as _ <- <-. exists "". split; [apply is_suffix_refl | exact E].
  - destruct (match_here r total (String a s)) as [[rest' c']|] eqn:E.
    + injection H as _ <- <-. exists (String a s). split; [apply is_suffix_refl | exact E].
    + destruct (search_from r total s) as [[[pre' rest'] c']|] eqn:F; [|discriminate].
      injection H as _ <- <-.
      destruct (IH _ _ _ eq_refl) as [s' [Hs' Hm]].
      exists s'. split; [|exact Hm].
      eapply is_suffix_trans; [exact Hs' | apply is_suffix_tail].
Qed.

Lemma exec_tail_capture (i : nat) (p : ascii -> bool) (pres : list re) (s : string) (m : caps) :
  exec (seqs (pres ++ [Grp i (Plus (Cls p)); Eol])) s = Some m ->
  exists q, q <> "" /\ is_suffix q s /\ cap m i = q.
Proof.
  unfold exec. intros H.
  destruct (search_from _ _ s) as [[[pre rest] c]|] eqn:E; [|discriminate].
  injection H as <-.
  apply search_from_some in E. destruct E as [s' [Hs' E]].
  unfold match_here in E. apply tail_capture in E.
  destruct E as [q [Hq [Hsuf Hcap]]].
  exists q. split; [exact Hq|]. split; [|exact Hcap].
  eapply is_suffix_trans; eassumption.
Qed.

End RegexFacts.

(** ** Which parsers can emit an empty text *)

Module TextFacts.

Import Str StrFacts.

Lemma nonempty_of_text (t : NormalizedTurn) :
  all_space (Types.text t) = false -> nonempty_text t.
Proof.
  unfold nonempty_text. intros H E. apply trim_empty_iff in E. congruence.
Qed.

(** *** chat-log: the filter *)

Lemma keeps_text (m : ChatLog.ChatLogMessage) :
  ChatLog.keeps m = true -> Str.trim (ChatLog.extractText m) <> "".
Proof.
  unfold ChatLog.keeps. intros H E. rewrite E in H. discriminate.
Qed.

Lemma chat_nonempty Date_parse input title :
  Forall nonempty_text (turns (ChatLog.parseChatLog Date_parse input title)).
Proof.
  simpl. unfold mapi.
  apply ListFacts.Forall_mapi_from with (Q := fun m => ChatLog.keeps m = true).
  - intros m i Hm. apply keeps_text, Hm.
  - apply Forall_forall. intros m Hm. apply filter_In in Hm. tauto.
Qed.

(** *** srt: a cue body has a non-blank line *)

Lemma nonblank_text (l : string) : Srt.nonblank l = true -> all_space l = false.
Proof. unfold Srt.nonblank. apply truthy_trim. Qed.

Lemma join_text (l : string) (rest : list string) :
  all_space l = false -> all_space (join LF (l :: rest)) = false.
Proof.
  intros H. destruct rest as [|l' rest]; [exact H|].
  change (join LF (l :: l' :: rest)) with (l ++ LF ++ join LF (l' :: rest))%string.
  rewrite all_space_app, H. reflexivity.
Qed.

Lemma parseBlock_body (block : string) (b : Srt.SrtBlock) :
  Srt.parseBlock block = Some b -> body_ok b.
Proof.
  unfold Srt.parseBlock.
  assert (Hall : Forall (fun l => Srt.nonblank l = true)
                        (filter Srt.nonblank (Regex.split Srt.line_break block))).
  { apply Forall_forall. intros l Hl. apply filter_In in Hl. tauto. }
  destruct (filter Srt.nonblank (Regex.split Srt.line_break block))
    as [|line0 [|line1 [|line2 rest]]]; try discriminate.
  simpl List.length. simpl Nat.ltb. cbv iota.
  destruct (isNaN (parseInt10 line0)); [discriminate|].
  destruct (Regex.exec Srt.cue_range line1); [|discriminate].
  intros H. injection H as <-. unfold body_ok. simpl Srt.text.
  split; [eexists; reflexivity|].
  apply trim_keeps_text, join_text, nonblank_text.
  inversion Hall as [|? ? _ H1]; subst. inversion H1 as [|? ? _ H2]; subst.
  inversion H2; subst. assumption.
Qed.

Lemma parseSrtBlocks_body (text : string) :
  Forall body_ok (Srt.parseSrtBlocks text).
Proof.
  unfold Srt.parseSrtBlocks.
  induction (filter Srt.nonblank (Regex.split Srt.blank_line text)) as [|block l IH];
    simpl; [constructor|].
  destruct (Srt.parseBlock block) as [b|] eqn:E; [|exact IH].
  constructor; [eapply parseBlock_body; eassumption | exact IH].
Qed.

Lemma captured_text (pres : list Regex.re) (X : string) (m : Regex.caps) :
  Regex.exec (Regex.seqs (pres ++ [Regex.Grp 2 (Regex.Plus Srt.any); Regex.Eol])) (trim X)
  = Some m ->
  all_space (trim (Regex.cap m 2)) = false.
Proof.
  intros H. apply RegexFacts.exec_tail_capture in H.
  destruct H as [q [Hq [Hsuf ->]]].
  apply trim_keeps_text. eapply trim_suffix; eassumption.
Qed.

(** Whatever pattern matches, the text given back is not blank. *)
Lemma extractSpeaker_text (X : string) :
  all_space (trim X) = false ->
  all_space (snd (Srt.extractSpeaker (trim X))) = false.
Proof.
  intros Hbody. unfold Srt.extractSpeaker, Srt.patterns. simpl Srt.first_match.
  destruct (Regex.exec Srt.speaker_colon (trim X)) as [m|] eqn:E1.
  { simpl. exact (@captured_text
                    [Regex.Bol;
                     Regex.Grp 1 (Regex.Seq (Regex.Cls is_alpha)
                                    (Regex.Range 0 20
                                       (Regex.Cls (fun c => is_alpha c || is_digit c
                                                            || is_space c))));
                     Srt.chr ":"; Regex.Star Srt.space] X m E1). }
  destruct (Regex.exec Srt.speaker_bracket (trim X)) as [m|] eqn:E2.
  { simpl. exact (@captured_text
                    [Regex.Bol; Srt.chr "["; Regex.Grp 1 (Regex.Plus (Srt.not_chr "]"));
                     Srt.chr "]"; Regex.Star Srt.space] X m E2). }
  destruct (Regex.exec Srt.speaker_paren (trim X)) as [m|] eqn:E3.
  { simpl. exact (@captured_text
                    [Regex.Bol; Srt.chr "("; Regex.Grp 1 (Regex.Plus (Srt.not_chr ")"));
                     Srt.chr ")"; Regex.Star Srt.space] X m E3). }
  simpl. exact Hbody.
Qed.

Lemma push_nonempty (acc : list NormalizedTurn) (b : Srt.SrtBlock) :
  Forall nonempty_text acc -> body_ok b -> Forall nonempty_text (Srt.push acc b).
Proof.
  intros Hacc [[X HX] Hb]. unfold Srt.push.
  pose proof (extractSpeaker_text X) as Ht. rewrite <- HX in Ht. specialize (Ht Hb).
  destruct (Srt.extractSpeaker (Srt.text b)) as [speaker content].
  apply Forall_app. split; [exact Hacc|].
  constructor; [|constructor].
  apply nonempty_of_text. exact Ht.
Qed.

Lemma srt_nonempty text title :
  Forall nonempty_text (turns (Srt.parseSrt text title)).
Proof.
  simpl.
  assert (Hacc : Forall nonempty_text []) by constructor.
  revert Hacc. generalize (@nil NormalizedTurn).
  pose proof (parseSrtBlocks_body text) as Hblocks.
  induction Hblocks as [|b blocks Hb _ IH]; intros acc Hacc; simpl.
  - exact Hacc.
  - apply IH. apply push_nonempty; assumption.
Qed.

(** *** json-transcript: the text is passed through *)

Lemma json_text Date_parse input title :
  map Types.text (turns (JsonTranscript.parseJsonTranscript Date_parse input title))
  = map JsonTranscript.text input.(JsonTranscript.entries).
Proof.
  simpl. unfold mapi. apply ListFacts.map_mapi_from. reflexivity.
Qed.

End TextFacts.

(** ** WhatsApp: the loop over the lines *)

Module WhatsAppFacts.

Import WhatsApp WhatsAppSpec.

Lemma header_true (line : string) :
  header line = true -> exists parsed, parseLine line = Some parsed.
Proof. unfold header. destruct (parseLine line); [eauto | discriminate]. Qed.

Lemma header_false (line : string) : header line = false -> parseLine line = None.
Proof. unfold header. destruct (parseLine line); [discriminate | reflexivity]. Qed.

Section WithHost.
Variable Date_parse : string -> option Z.

Local Abbreviation step := (step Date_parse).
Local Abbreviation flush := (flush Date_parse).
Local Abbreviation collect := (collect Date_parse).

(** Lines that match nothing, while a turn is being accumulated, are
    appended to its text. *)
Lemma continuation_lines (more : list string) :
  forall acc cur txt,
    Forall (fun line => header line = false) more ->
    fold_left step more (mkState acc (Some cur) txt)
    = mkState acc (Some cur) (joined txt more).
Proof.
  induction more as [|line more IH]; intros acc cur txt Hmore; simpl.
  - reflexivity.
  - inversion Hmore as [|? ? Hline Hrest]; subst.
    unfold WhatsApp.step at 2. rewrite (header_false _ Hline). simpl.
    apply IH, Hrest.
Qed.

(** Lines that match nothing, before any header, leave no trace. *)
Lemma noise_lines (noise : list string) :
  Forall (fun line => header line = false) noise ->
  fold_left step noise initial = initial.
Proof.
  induction noise as [|line noise IH]; intros Hnoise; simpl.
  - reflexivity.
  - inversion Hnoise as [|? ? Hline Hrest]; subst.
    unfold WhatsApp.step at 2. rewrite (header_false _ Hline). simpl.
    apply IH, Hrest.
Qed.

Lemma flush_texts (st : state) :
  map Types.text (flush st)
  = (map Types.text (st_turns st) ++ map Types.text (flush (restart st)))%list.
Proof.
  unfold WhatsApp.flush, restart. simpl.
  destruct (currentTurn st); simpl.
  - rewrite map_app. reflexivity.
  - rewrite app_nil_r. reflexivity.
Qed.

(** The texts emitted from a state on are those already pushed,
    followed by what the rest of the scan emits. *)
Lemma scan_texts (lines : list string) :
  forall st,
    map Types.text (flush (fold_left step lines st))
    = (map Types.text (st_turns st)
       ++ map Types.text (flush (fold_left step lines (restart st))))%list.
Proof.
  induction lines as [|line lines IH]; intros [acc cur txt].
  - apply flush_texts.
  - simpl fold_left. unfold WhatsApp.step at 2 4.
    destruct (parseLine line) as [parsed|].
    + rewrite IH. rewrite (IH (mkState (flush (restart _)) _ _)). simpl st_turns.
      rewrite flush_texts. rewrite <- app_assoc. reflexivity.
    + unfold restart. simpl. destruct cur.
      * rewrite IH. reflexivity.
      * rewrite IH. reflexivity.
Qed.

Lemma step_header (st : state) (line : string) (parsed : ParsedLine) :
  parseLine line = Some parsed ->
  step st line = mkState (flush st) (Some parsed) parsed.(WhatsApp.text).
Proof. intros H. unfold WhatsApp.step. rewrite H. reflexivity. Qed.

Lemma flush_active_texts acc cur txt :
  map Types.text (flush (mkState acc (Some cur) txt))
  = (map Types.text acc ++ [Str.trim txt])%list.
Proof. unfold WhatsApp.flush. simpl. rewrite map_app. reflexivity. Qed.

Lemma collect_message (before more rest : list string) (h : string) (parsed : ParsedLine) :
  parseLine h = Some parsed ->
  Forall (fun line => header line = false) more ->
  ends_message rest ->
  map Types.text (collect (before ++ h :: more ++ rest))
  = (map Types.text (collect before)
     ++ [Str.trim (joined parsed.(WhatsApp.text) more)]
     ++ map Types.text (collect rest))%list.
Proof.
  intros Hh Hmore Hrest. unfold WhatsApp.collect.
  rewrite fold_left_app. simpl fold_left. rewrite (@step_header _ _ _ Hh).
  rewrite fold_left_app. rewrite (continuation_lines _ _ _ Hmore).
  destruct rest as [|next rest].
  - simpl fold_left. rewrite flush_active_texts. reflexivity.
  - simpl in Hrest. destruct (header_true _ Hrest) as [parsed' Hnext].
    simpl fold_left. rewrite !(@step_header _ _ _ Hnext).
    rewrite scan_texts. simpl st_turns. rewrite flush_active_texts.
    rewrite <- app_assoc. reflexivity.
Qed.

Lemma collect_noise (noise lines : list string) :
  Forall (fun line => header line = false) noise ->
  collect (noise ++ lines) = collect lines.
Proof.
  intros Hnoise. unfold WhatsApp.collect.
  rewrite fold_left_app, (noise_lines Hnoise). reflexivity.
Qed.

Lemma rebase_texts (l : list NormalizedTurn) :
  map Types.text (rebase l) = map Types.text l.
Proof.
  unfold rebase. destruct l as [|first l']; [reflexivity|].
  destruct (startMs first); [|reflexivity].
  rewrite map_map. apply map_ext. intros t. destruct (startMs t); reflexivity.
Qed.

(** One turn for every header line. *)
Lemma scan_length (lines : list string) :
  forall st,
    List.length (flush (fold_left step lines st))
    = List.length (flush st) + List.length (filter header lines).
Proof.
  induction lines as [|line lines IH]; intros st; simpl.
  - lia.
  - rewrite IH. unfold WhatsApp.step, header.
    destruct (parseLine line) as [parsed|]; simpl.
    + unfold WhatsApp.flush at 1. simpl. rewrite length_app. simpl. lia.
    + destruct (currentTurn st) eqn:E; [|lia].
      unfold WhatsApp.flush. simpl. rewrite E. rewrite !length_app. simpl. lia.
Qed.

Lemma whatsapp_length text title :
  List.length (turns (parseWhatsApp Date_parse text title))
  = List.length (filter header (nonblank_lines text)).
Proof.
  simpl. unfold rebase.
  assert (H : List.length (collect (nonblank_lines text))
              = List.length (filter header (nonblank_lines text))).
  { unfold WhatsApp.collect. rewrite scan_length. reflexivity. }
  destruct (collect (nonblank_lines text)) as [|first l] eqn:E; [exact H|].
  destruct (startMs first); [|exact H].
  rewrite length_map. exact H.
Qed.
End WithHost.

End WhatsAppFacts.

(** C2 (as stated: no emitted turn of any of the four parsers has an
    empty text) fails: [Samples.blank_entry] is accepted as a
    json-transcript and parsed with success into one turn whose text is
    the empty string. *)
Lemma json_transcript_emits_empty_text : ~ nonempty_as_stated.
Proof.
  intros H.
  specialize (H Host.Date_parse_iso Samples.blank_entry None _ _ eq_refl eq_refl eq_refl).
  inversion H as [|t l Ht _]; subst.
  apply Ht. reflexivity.
Qed.

(** C2 (amended). No turn emitted by the chat-log parser has a text
    that is empty after trimming, because the messages whose extracted
    text trims to the empty string are dropped; no turn emitted by the
    srt parser has one either.  The json-transcript parser drops nothing:
    the texts of its turns are the texts of the entries, unchanged and in
    order.  The whatsapp parser emits one turn for every header line. *)
Theorem nonempty_text_where_filtered :
  (forall Date_parse input title,
      Forall nonempty_text (turns (ChatLog.parseChatLog Date_parse input title)))
  /\ (forall text title,
         Forall nonempty_text (turns (Srt.parseSrt text title)))
  /\ (forall Date_parse input title,
         map Types.text (turns (JsonTranscript.parseJsonTranscript Date_parse input title))
         = map JsonTranscript.text input.(JsonTranscript.entries))
  /\ (forall Date_parse text title,
         List.length (turns (WhatsApp.parseWhatsApp Date_parse text title))
         = List.length (filter WhatsAppSpec.header (WhatsApp.nonblank_lines text))).
Proof.
  split; [exact TextFacts.chat_nonempty|].
  split; [exact TextFacts.srt_nonempty|].
  split; [exact TextFacts.json_text|].
  exact WhatsAppFacts.whatsapp_length.
Qed.

(** ** The orchestrator *)




(** C10. A structured payload whose [entries] (respectively
    [messages]) is an empty array, whatever else it holds, passes the
    shape validator vacuously: it is detected as json-transcript
    (respectively as chat-log, when it is no json-transcript), and
    [parseInput], left to detect the format, answers with success and a
    conversation without turns: it does so whenever the [title] (and the
    [channel]) beside the array is absent or a string. *)
Theorem empty_arrays_are_accepted :
  forall Date_parse obj options,
    match options with Some o => Ingest.opt_format o | None => None end = None ->
    let payload := Ingest.VObj obj in
    let parsed := Ingest.parseInput Date_parse payload options in
    (Ingest.get obj "entries" = Some (Ingest.VArr []) ->
     Ingest.isJsonTranscript payload = true
     /\ Ingest.detectFormat payload = json_transcript
     /\ (forall result,
            parsed = Some result ->
            exists conversation,
              result = Ingest.succeeded conversation json_transcript
              /\ turns conversation = [])
     /\ (forall t,
            Ingest.opt_string obj "title" = Some t ->
            exists conversation,
              parsed = Some (Ingest.succeeded conversation json_transcript)
              /\ turns conversation = []))
    /\ (Ingest.get obj "messages" = Some (Ingest.VArr []) ->
        Ingest.isChatLog payload = true
        /\ (Ingest.isJsonTranscript payload = false ->
            Ingest.detectFormat payload = chat_log
            /\ (forall result,
                   parsed = Some result ->
                   exists conversation,
                     result = Ingest.succeeded conversation chat_log
                     /\ turns conversation = [])
            /\ (forall t c,
                   Ingest.opt_string obj "title" = Some t ->
                   Ingest.opt_string obj "channel" = Some c ->
                   exists conversation,
                     parsed = Some (Ingest.succeeded conversation chat_log)
                     /\ turns conversation = []))).
Proof.
  intros Date_parse obj options Hauto. cbv zeta. split.
  - intros He.
    assert (Hshape : Ingest.isJsonTranscript (Ingest.VObj obj) = true)
      by (unfold Ingest.isJsonTranscript; rewrite He; reflexivity).
    assert (Hdetect : Ingest.detectFormat (Ingest.VObj obj) = json_transcript)
      by (unfold Ingest.detectFormat; rewrite Hshape; reflexivity).
    split; [exact Hshape|]. split; [exact Hdetect|].
    unfold Ingest.parseInput. rewrite Hauto, Hdetect, Hshape.
    unfold Ingest.as_JsonTranscriptInput. rewrite He.
    split.
    + intros result.
      destruct (Ingest.opt_string obj "title") as [t|]; simpl; [|discriminate].
      intros H. injection H as <-. eexists. split; reflexivity.
    + intros t ->. simpl. eexists. split; reflexivity.
  - intros Hm.
    assert (Hshape : Ingest.isChatLog (Ingest.VObj obj) = true)
      by (unfold Ingest.isChatLog; rewrite Hm; reflexivity).
    split; [exact Hshape|]. intros Hjson.
    assert (Hdetect : Ingest.detectFormat (Ingest.VObj obj) = chat_log)
      by (unfold Ingest.detectFormat; rewrite Hjson, Hshape; reflexivity).
    split; [exact Hdetect|].
    unfold Ingest.parseInput. rewrite Hauto, Hdetect, Hshape.
    unfold Ingest.as_ChatLogInput. rewrite Hm.
    split.
    + intros result.
      destruct (Ingest.opt_string obj "title") as [t|]; simpl; [|discriminate].
      destruct (Ingest.opt_string obj "channel") as [c|]; simpl; [|discriminate].
      intros H. injection H as <-. eexists. split; reflexivity.
    + intros t c -> ->. simpl. eexists. split; reflexivity.
Qed.

(** An empty transcript with a title and an empty chat log with a
    channel both parse into a conversation without turns. *)
Lemma empty_arrays_are_accepted_witness :
  (exists conversation,
      Ingest.parseInput Host.Date_parse_iso
        (Ingest.VObj [("title", Ingest.VStr "Notes"); ("entries", Ingest.VArr [])]) None
      = Some (Ingest.succeeded conversation json_transcript)
      /\ turns conversation = [])
  /\ (exists conversation,
         Ingest.parseInput Host.Date_parse_iso
           (Ingest.VObj [("channel", Ingest.VStr "general"); ("messages", Ingest.VArr [])])
           None
         = Some (Ingest.succeeded conversation chat_log)
         /\ turns conversation = []).
Proof.
  split.
  - destruct (@empty_arrays_are_accepted Host.Date_parse_iso
                [("title", Ingest.VStr "Notes"); ("entries", Ingest.VArr [])] None eq_refl)
      as [H _].
    destruct (H eq_refl) as [_ [_ [_ Hparse]]].
    apply (Hparse (Some "Notes")). reflexivity.
  - destruct (@empty_arrays_are_accepted Host.Date_parse_iso
                [("channel", Ingest.VStr "general"); ("messages", Ingest.VArr [])]
                None eq_refl)
      as [_ H].
    destruct (H eq_refl) as [_ H'].
    destruct (H' eq_refl) as [_ [_ Hparse]].
    apply (Hparse None (Some "general")); reflexivity.
Defined.

(** ** JSON transcripts: timestamps *)

(** C6 (the code misses the claim).  The timestamp of an entry is
    handed to [new Date] before the clock formats are tried, and the
    host's parser is not confined to ISO 8601: on Node the string ["90"]
    is the year 1990.  The entry of [Samples.bare_seconds], 90 seconds
    in the [SS] form that the function documents, starts at
    631152000000 ms there and not at 90000 ms; on a host that reads
    nothing but the ECMAScript format it starts at 90000 ms. *)
Theorem json_seconds_read_as_a_year :
  (exists conversation,
      Ingest.parseInput Host.Date_parse_legacy_year Samples.bare_seconds None
      = Some (Ingest.succeeded conversation json_transcript)
      /\ map startMs (turns conversation) = [Some (of_Z 631152000000)]
      /\ map startMs (turns conversation) <> [Some (of_Z 90000)])
  /\ (exists conversation,
         Ingest.parseInput Host.Date_parse_iso Samples.bare_seconds None
         = Some (Ingest.succeeded conversation json_transcript)
         /\ map startMs (turns conversation) = [Some (of_Z 90000)]).
Proof.
  split.
  - eexists. split; [vm_compute; reflexivity|]. split; [reflexivity | discriminate].
  - eexists. split; [vm_compute; reflexivity|]. reflexivity.
Qed.

(** ** WhatsApp: rebasing *)

Module RebaseFacts.

Import WhatsApp WhatsAppSpec.

Section WithHost.
Variable Date_parse : string -> option Z.

Lemma valid_date_of_Z (s : string) (x : number) :
  valid_date Date_parse s = Some x -> exists z, x = of_Z z.
Proof.
  unfold valid_date. destruct (Date_parse s) as [z|]; [|discriminate].
  intros H. injection H as <-. eauto.
Qed.

(** A resolved WhatsApp timestamp is an integer of milliseconds. *)
Lemma parseDateTime_of_Z (d t : string) (x : number) :
  parseDateTime Date_parse d t = Some x -> exists z, x = of_Z z.
Proof.
  unfold parseDateTime.
  destruct (valid_date Date_parse _) as [y|] eqn:E.
  - intros H. injection H as <-. eapply valid_date_of_Z, E.
  - destruct (map Number _) as [|a [|b [|c [|]]]]; try discriminate.
    destruct (Num.gt a (of_Z 12)); apply valid_date_of_Z.
Qed.

Lemma flush_stamped (st : state) :
  Forall (stamped Date_parse) (st_turns st) ->
  Forall (stamped Date_parse) (flush Date_parse st).
Proof.
  intros H. unfold flush. destruct (currentTurn st) as [cur|]; [|exact H].
  apply Forall_app. split; [exact H|].
  constructor; [|constructor].
  exists (date cur), (time cur). split; reflexivity.
Qed.

Lemma collect_stamped (lines : list string) :
  Forall (stamped Date_parse) (collect Date_parse lines).
Proof.
  unfold collect. apply flush_stamped.
  assert (H : Forall (stamped Date_parse) (st_turns initial)) by constructor.
  revert H. generalize initial.
  induction lines as [|line lines IH]; intros st Hst; simpl; [exact Hst|].
  apply IH. unfold step.
  destruct (parseLine line); simpl.
  - apply flush_stamped, Hst.
  - destruct (currentTurn st); exact Hst.
Qed.

Lemma rebase_startMs (first : NormalizedTurn) (rest : list NormalizedTurn) (t0 : number) :
  startMs first = Some t0 ->
  map startMs (rebase (first :: rest)) = map (relative_to t0) (first :: rest).
Proof.
  intros H. unfold rebase. rewrite H. rewrite map_map.
  apply map_ext. intros a. unfold relative_to.
  destruct (startMs a) eqn:E; [reflexivity | exact E].
Qed.
End WithHost.

End RebaseFacts.

(** C5. For every WhatsApp text: when the first emitted turn has a
    resolved absolute timestamp, the [startMs] of every turn with a
    resolved timestamp is its absolute time minus the first turn's, so
    the first turn starts at 0, and a turn without a resolved timestamp
    keeps [startMs] undefined; when the first turn's timestamp is not
    resolved, the turns are returned as they were collected.  The
    absolute time of a turn is what [parseDateTime] answers on the date
    and time of its header. *)
Theorem whatsapp_rebasing :
  forall Date_parse text title,
    let absolute := WhatsApp.collect Date_parse (WhatsApp.nonblank_lines text) in
    let emitted := turns (WhatsApp.parseWhatsApp Date_parse text title) in
    Forall (WhatsAppSpec.stamped Date_parse) absolute
    /\ match absolute with
       | [] => emitted = []
       | first :: _ =>
           match startMs first with
           | Some t0 =>
               map startMs emitted = map (WhatsAppSpec.relative_to t0) absolute
               /\ exists first' rest',
                   emitted = first' :: rest' /\ startMs first' = Some (of_Z 0)
           | None => emitted = absolute
           end
       end.
Proof.
  intros Date_parse text title. cbv zeta.
  pose proof (RebaseFacts.collect_stamped Date_parse (WhatsApp.nonblank_lines text)) as Hst.
  split; [exact Hst|].
  simpl turns.
  destruct (WhatsApp.collect Date_parse (WhatsApp.nonblank_lines text)) as [|first rest];
    [reflexivity|].
  destruct (startMs first) as [t0|] eqn:E.
  - pose proof (RebaseFacts.rebase_startMs first rest E) as Hmap.
    split; [exact Hmap|].
    destruct (WhatsApp.rebase (first :: rest)) as [|first' rest'] eqn:R; [discriminate|].
    exists first', rest'. split; [reflexivity|].
    simpl in Hmap. injection Hmap as Hfirst _. rewrite Hfirst.
    unfold WhatsAppSpec.relative_to. rewrite E.
    inversion Hst as [|? ? [d [t [_ Hd]]] _]; subst.
    rewrite E in Hd. symmetry in Hd.
    apply RebaseFacts.parseDateTime_of_Z in Hd. destruct Hd as [z ->].
    rewrite NumFacts.sub_of_Z, Z.sub_diag. reflexivity.
  - unfold WhatsApp.rebase. rewrite E. reflexivity.
Qed.

(** ** WhatsApp: continuation lines *)

(** C7 (as stated: the text of the turn is the header's text joined
    with the N following lines, N line breaks kept) fails: in
    [Samples.blank_header] the text after the speaker of the header line
    is white space, one line follows, and the emitted text is that line
    alone, without any line break, because the joined text is trimmed. *)
Lemma continuation_text_is_trimmed : ~ WhatsAppSpec.continuation_as_stated.
Proof.
  intros H.
  assert (Hmore : Forall (fun line => WhatsAppSpec.header line = false) ["more"])
    by (constructor; [reflexivity | constructor]).
  specialize (H Host.Date_parse_iso Samples.blank_header None []
                "1/29/24, 2:30 PM - Alice:  "
                (WhatsApp.mkParsed "1/29/24" "2:30 PM" "Alice" "")
                ["more"] [] eq_refl eq_refl Hmore I).
  vm_compute in H. discriminate.
Qed.

(** C7 (amended). In a WhatsApp text, blank lines apart, a header line
    followed by N lines that match no pattern, up to the next header
    line or the end of the input, becomes exactly one emitted turn: its
    text is the header's text joined with those N lines, one line break
    before each, in order, and then trimmed of leading and trailing
    white space.  The lines that match no pattern before the first
    header line are discarded and produce no turn. *)
Theorem whatsapp_continuation :
  forall Date_parse text title,
    (forall before h parsed more rest,
        WhatsApp.nonblank_lines text = (before ++ h :: more ++ rest)%list ->
        WhatsApp.parseLine h = Some parsed ->
        Forall (fun line => WhatsAppSpec.header line = false) more ->
        WhatsAppSpec.ends_message rest ->
        map Types.text (turns (WhatsApp.parseWhatsApp Date_parse text title))
        = (map Types.text (WhatsApp.collect Date_parse before)
           ++ [Str.trim (WhatsAppSpec.joined parsed.(WhatsApp.text) more)]
           ++ map Types.text (WhatsApp.collect Date_parse rest))%list)
    /\ (forall noise lines,
           WhatsApp.nonblank_lines text = (noise ++ lines)%list ->
           Forall (fun line => WhatsAppSpec.header line = false) noise ->
           WhatsApp.collect Date_parse noise = []
           /\ turns (WhatsApp.parseWhatsApp Date_parse text title)
              = WhatsApp.rebase (WhatsApp.collect Date_parse lines)).
Proof.
  intros Date_parse text title. split.
  - intros before h parsed more rest Hlines Hh Hmore Hrest.
    simpl turns. rewrite WhatsAppFacts.rebase_texts, Hlines.
    apply WhatsAppFacts.collect_message; assumption.
  - intros noise lines Hlines Hnoise. split.
    + unfold WhatsApp.collect. rewrite (WhatsAppFacts.noise_lines Date_parse Hnoise).
      reflexivity.
    + simpl turns. rewrite Hlines.
      rewrite (WhatsAppFacts.collect_noise Date_parse lines Hnoise). reflexivity.
Qed.

(** [Samples.trailing_spaces]: one turn, its text joined and trimmed. *)
Lemma whatsapp_continuation_witness :
  map Types.text (turns (WhatsApp.parseWhatsApp Host.Date_parse_iso Samples.trailing_spaces None))
  = [("Hello" ++ Str.LF ++ "more")%string].
Proof.
  refine (proj1 (whatsapp_continuation Host.Date_parse_iso Samples.trailing_spaces None)
                [] "1/29/24, 2:30 PM - Alice: Hello"
                (WhatsApp.mkParsed "1/29/24" "2:30 PM" "Alice" "Hello")
                ["more  "] [] _ _ _ _).
  - reflexivity.
  - reflexivity.
  - constructor; [reflexivity | constructor].
  - exact I.
Defined.

(** ** Detection of WhatsApp text *)

Module DetectFacts.

Import WhatsApp WhatsAppSpec.

Lemma firstn_min {A : Type} (n : nat) (l : list A) :
  firstn (Nat.min (List.length l) n) l = firstn n l.
Proof.
  destruct (Nat.le_ge_cases (List.length l) n) as [H|H].
  - rewrite Nat.min_l by exact H. rewrite firstn_all, firstn_all2 by exact H.
    reflexivity.
  - rewrite Nat.min_r by exact H. reflexivity.
Qed.

(** [m / s >= 0.3] on counts: the comparison of [10 m] with [3 s]. *)
Lemma ratio_threshold (m s : nat) :
  0 < s ->
  Num.ge (of_nat m / of_nat s)%num (Fin (3 # 10)) = true <-> 3 * s <= 10 * m.
Proof.
  intros Hs.
  assert (Hdiv : (of_nat m / of_nat s)%num
                 = Fin (Qred (inject_Z (Z.of_nat m) / inject_Z (Z.of_nat s)))).
  { unfold of_nat, of_Z, Num.div, Qsign. simpl Qnum.
    destruct (Z.compare_spec (Z.of_nat s) 0); try lia; reflexivity. }
  rewrite Hdiv. unfold Num.ge, Num.lt. rewrite negb_involutive.
  rewrite Qle_bool_iff, Qred_correct.
  unfold Qle, Qdiv, Qmult, Qinv, inject_Z. simpl Qnum.
  destruct (Z.of_nat s) as [|p|p] eqn:E; try lia.
  simpl. lia.
Qed.

Lemma isWhatsAppText_spec (text : string) :
  isWhatsAppText text = true
  <-> 2 <= List.length (nonblank_lines text) /\ threshold_met text.
Proof.
  unfold isWhatsAppText, threshold_met, matched, sample.
  destruct (Nat.ltb_spec (List.length (nonblank_lines text)) 2) as [Hlt|Hge].
  - split; [discriminate | lia].
  - rewrite firstn_min. fold (header).
    rewrite ratio_threshold by lia.
    change (fun l : string => is_some (parseLine l)) with header.
    assert (Hlen : List.length (firstn 10 (nonblank_lines text))
                   = Nat.min (List.length (nonblank_lines text)) 10).
    { rewrite length_firstn. apply Nat.min_comm. }
    rewrite Hlen. tauto.
Qed.

End DetectFacts.

(** C8 (as stated: no minimum number of lines) fails: the one line of
    [Samples.one_line] matches the US pattern, so all of the sample
    matches, and the text is still classified [unknown]. *)
Lemma one_matching_line_is_unknown : ~ WhatsAppSpec.detection_as_stated.
Proof.
  intros H.
  specialize (H Samples.one_line eq_refl).
  assert (Hdetect : Ingest.detectFormat (Ingest.VStr Samples.one_line) = unknown)
    by reflexivity.
  rewrite H in Hdetect.
  - discriminate.
  - vm_compute. discriminate.
  - vm_compute. lia.
Qed.

(** C8 (amended). A text that is not classified as srt and has at
    least two non-blank lines is classified as whatsapp when at least
    30% of its first up-to-10 non-blank lines match one of the three
    WhatsApp line patterns; a text with fewer than two non-blank lines is
    never classified as whatsapp. *)
Theorem whatsapp_detection :
  forall text,
    Srt.isSrtText text = false ->
    (2 <= List.length (WhatsApp.nonblank_lines text) ->
     WhatsAppSpec.threshold_met text ->
     Ingest.detectFormat (Ingest.VStr text) = whatsapp)
    /\ (List.length (WhatsApp.nonblank_lines text) < 2 ->
        Ingest.detectFormat (Ingest.VStr text) = unknown).
Proof.
  intros text Hsrt. unfold Ingest.detectFormat. simpl. rewrite Hsrt. split.
  - intros Hlen Hmet.
    destruct (DetectFacts.isWhatsAppText_spec text) as [_ H].
    rewrite H by (split; assumption). reflexivity.
  - intros Hlen.
    destruct (WhatsApp.isWhatsAppText text) eqn:E; [|reflexivity].
    apply DetectFacts.isWhatsAppText_spec in E. lia.
Qed.

(** Two matching lines are a WhatsApp text, one alone is not. *)
Lemma whatsapp_detection_witness :
  Ingest.detectFormat (Ingest.VStr Samples.two_lines) = whatsapp
  /\ Ingest.detectFormat (Ingest.VStr Samples.one_line) = unknown.
Proof.
  split.
  - refine (proj1 (whatsapp_detection Samples.two_lines _) _ _).
    + reflexivity.
    + vm_compute. lia.
    + vm_compute. lia.
  - refine (proj2 (whatsapp_detection Samples.one_line _) _).
    + reflexivity.
    + vm_compute. lia.
Defined.

(** ** The scenarios of the specification, evaluated *)

Module Scenarios.

Import Ingest IngestSpec.

Example chat_log_scenario :
  map startMs (turns_of (parseInput Host.Date_parse_iso Samples.slack_minute None))
  = [Some (of_Z 0); Some (of_Z 60000)].
Proof. reflexivity. Qed.

Example whatsapp_scenario :
  let emitted :=
    turns_of (parseInput Samples.scenario_host (VStr Samples.two_lines) None) in
  map Types.speaker emitted = ["Alice"; "Bob"]
  /\ map Types.text emitted = ["Hello everyone"; "Hi Alice!"]
  /\ map startMs emitted = [Some (of_Z 0); Some (of_Z 60000)].
Proof. repeat split; reflexivity. Qed.

Example srt_scenario :
  turns_of (parseInput Host.Date_parse_iso (VStr Samples.one_cue) None)
  = [{| Types.speaker := "Alice";
        Types.text := "Hello everyone";
        startMs := Some (of_Z 5000);
        endMs := Some (of_Z 8000);
        turnIndex := 0;
        metadata := [("srtIndex", MNum (of_Z 1))] |}].
Proof. reflexivity. Qed.

Example detection_scenario :
  isJsonTranscript Samples.anonymous_entries = false
  /\ detectFormat Samples.anonymous_entries = unknown.
Proof. split; reflexivity. Qed.

Example trailing_spaces_are_trimmed :
  map Types.text
      (turns_of (parseInput Host.Date_parse_iso (VStr Samples.trailing_spaces) None))
  = [("Hello" ++ Str.LF ++ "more")%string]
  /\ WhatsAppSpec.joined "Hello" ["more  "] = ("Hello" ++ Str.LF ++ "more  ")%string.
Proof. split; reflexivity. Qed.

Example blank_header_loses_the_line_break :
  WhatsApp.parseLine "1/29/24, 2:30 PM - Alice:  "
  = Some (WhatsApp.mkParsed "1/29/24" "2:30 PM" "Alice" "")
  /\ map Types.text
         (turns_of (parseInput Host.Date_parse_iso (VStr Samples.blank_header) None))
     = ["more"].
Proof. split; reflexivity. Qed.

Example explicit_whatsapp_on_plain_text :
  WhatsApp.isWhatsAppText "hello" = false
  /\ parseInput Host.Date_parse_iso Samples.plain_text
                (IngestSpec.explicitly whatsapp None)
     = Some (succeeded (mkConversation "WhatsApp Chat" "whatsapp" [] []) whatsapp).
Proof. split; reflexivity. Qed.

Example number_of_strings :
  map Number ["05"; " 12 "; ""; "1.5"; "0x1F"; "12px"; "a"]
  = [of_Z 5; of_Z 12; of_Z 0; Fin (3 # 2); of_Z 31; NaN; NaN].
Proof. reflexivity. Qed.

End Scenarios.

(* ================================================================== *)
(** * Further properties of the code *)

(** ** What [parseInput] answers *)

Module ResultFacts.

Import Ingest.

Lemma or_else_nonempty (a : option string) (b : string) : b <> "" -> or_else a b <> "".
Proof.
  intros Hb. unfold or_else. destruct a as [s|]; [|exact Hb].
  destruct s; simpl; [exact Hb | discriminate].
Qed.

Lemma or_else_given (t b : string) : t <> "" -> or_else (Some t) b = t.
Proof. intros Ht. unfold or_else. destruct t; [congruence | reflexivity]. Qed.

(** The four outcomes of a parse that ran. *)
Lemma parseInput_cases Date_parse payload options result :
  parseInput Date_parse payload options = Some result ->
  let title := match options with Some o => opt_title o | None => None end in
  (success result = false -> exists e f, result = failure e f /\ e <> "")
  /\ (success result = true ->
      (exists input, result = succeeded (JsonTranscript.parseJsonTranscript Date_parse input title)
                                        json_transcript)
      \/ (exists input, result = succeeded (ChatLog.parseChatLog Date_parse input title) chat_log)
      \/ (exists text, result = succeeded (WhatsApp.parseWhatsApp Date_parse text title) whatsapp)
      \/ (exists text, result = succeeded (Srt.parseSrt text title) srt)).
Proof.
  intros H. cbv zeta. unfold parseInput in H.
  destruct (match match options with
                  | Some o => opt_format o
                  | None => None
                  end with
            | Some f => f
            | None => detectFormat payload
            end).
  - destruct (negb (isJsonTranscript payload)).
    + injection H as <-. split; [|discriminate].
      intros _. eexists. eexists. split; [reflexivity | discriminate].
    + destruct (as_JsonTranscriptInput payload) as [input|]; [|discriminate].
      injection H as <-. split; [discriminate|]. intros _. left. eauto.
  - destruct (negb (isChatLog payload)).
    + injection H as <-. split; [|discriminate].
      intros _. eexists. eexists. split; [reflexivity | discriminate].
    + destruct (as_ChatLogInput payload) as [input|]; [|discriminate].
      injection H as <-. split; [discriminate|]. intros _. right. left. eauto.
  - destruct payload; injection H as <-;
      try (split; [|discriminate]; intros _; eexists; eexists;
           split; [reflexivity | discriminate]).
    split; [discriminate|]. intros _. right. right. left. eauto.
  - destruct payload; injection H as <-;
      try (split; [|discriminate]; intros _; eexists; eexists;
           split; [reflexivity | discriminate]).
    split; [discriminate|]. intros _. right. right. right. eauto.
  - injection H as <-. split; [|discriminate].
    intros _. eexists. eexists. split; [reflexivity | discriminate].
Qed.

Lemma detect_json payload :
  detectFormat payload = json_transcript -> isJsonTranscript payload = true.
Proof.
  unfold detectFormat. destruct (isJsonTranscript payload); [reflexivity|].
  destruct (isChatLog payload); [discriminate|].
  destruct payload; try discriminate.
  destruct (Srt.isSrtText s); [discriminate|].
  destruct (WhatsApp.isWhatsAppText s); discriminate.
Qed.

Lemma detect_chat payload :
  detectFormat payload = chat_log -> isChatLog payload = true.
Proof.
  unfold detectFormat. destruct (isJsonTranscript payload); [discriminate|].
  destruct (isChatLog payload); [reflexivity|].
  destruct payload; try discriminate.
  destruct (Srt.isSrtText s); [discriminate|].
  destruct (WhatsApp.isWhatsAppText s); discriminate.
Qed.

Lemma detect_text payload :
  detectFormat payload = whatsapp \/ detectFormat payload = srt ->
  exists text, payload = VStr text.
Proof.
  unfold detectFormat. destruct (isJsonTranscript payload); [intros [H|H]; discriminate|].
  destruct (isChatLog payload); [intros [H|H]; discriminate|].
  destruct payload; try (intros [H|H]; discriminate). eauto.
Qed.

End ResultFacts.

(** X3. The title of a parsed conversation is never empty, and it is
    the caller's title whenever the caller gives a non-empty one,
    whatever the format and whatever title the payload carries. *)
Theorem title_precedence :
  forall Date_parse payload options result conversation,
    Ingest.parseInput Date_parse payload options = Some result ->
    Types.data result = Some conversation ->
    title conversation <> ""
    /\ forall o t, options = Some o -> Ingest.opt_title o = Some t -> t <> "" ->
                   title conversation = t.
Proof.
  intros Date_parse payload options result conversation H Hdata.
  destruct (ResultFacts.parseInput_cases _ _ _ H) as [Hfail Hok].
  destruct (success result) eqn:Hs.
  - assert (Hgiven : forall o t, options = Some o -> Ingest.opt_title o = Some t ->
                                 match options with
                                 | Some o => Ingest.opt_title o
                                 | None => None
                                 end = Some t)
      by (intros o t -> Ht; exact Ht).
    destruct (Hok eq_refl) as [[x ->]|[[x ->]|[[x ->]|[x ->]]]];
      injection Hdata as <-; simpl; 
      (split;
       [ repeat apply ResultFacts.or_else_nonempty; discriminate
       | intros o t Ho Ht Hne; rewrite (Hgiven o t Ho Ht);
         apply ResultFacts.or_else_given, Hne ]).
  - destruct (Hfail eq_refl) as [e [f [-> _]]]. discriminate.
Qed.

(** The scenario transcript under the caller's title. *)
Lemma title_precedence_witness :
  exists result conversation,
    Ingest.parseInput Host.Date_parse_iso Samples.transcript
                      (Some (Ingest.mkOptions None (Some "Standup"))) = Some result
    /\ Types.data result = Some conversation
    /\ title conversation = "Standup".
Proof.
  eexists. eexists. split; [vm_compute; reflexivity|]. split; [reflexivity|].
  refine (proj2 (title_precedence Host.Date_parse_iso Samples.transcript
                   (Some (Ingest.mkOptions None (Some "Standup"))) eq_refl eq_refl)
                _ "Standup" eq_refl eq_refl _).
  discriminate.
Defined.

(** ** Chat logs: speakers, texts and order *)

Module ChatLogOrderFacts.

Import ChatLog ChatLogSpec ChatLogMore.

Lemma or_else_first (a : option string) (rest : list (option string)) (d : string) :
  first_nonempty (a :: rest) d = or_else a (first_nonempty rest d).
Proof. destruct a as [s|]; reflexivity. Qed.

Lemma oror_first (a b : option string) (rest : list (option string)) (d : string) :
  first_nonempty (oror a b :: rest) d = first_nonempty (a :: b :: rest) d.
Proof.
  unfold oror, present. destruct a as [s|]; simpl; [|reflexivity].
  destruct (Str.truthy s) eqn:E; simpl; [rewrite E|]; reflexivity.
Qed.

Lemma extractSpeaker_first (m : ChatLogMessage) :
  extractSpeaker m = first_nonempty [user m; username m; author m; sender m] "Unknown".
Proof.
  unfold extractSpeaker.
  rewrite <- (or_else_first _ [] "Unknown").
  rewrite !oror_first. reflexivity.
Qed.

Lemma extractText_first (m : ChatLogMessage) :
  extractText m = first_nonempty [text m; message m; content m] "".
Proof.
  unfold extractText.
  rewrite <- (or_else_first _ [] "").
  rewrite !oror_first. reflexivity.
Qed.

Lemma Permutation_filter {A : Type} (p : A -> bool) (l l' : list A) :
  Permutation l l' -> Permutation (filter p l) (filter p l').
Proof.
  induction 1 as [|x l l' _ IH|x y l|l l' l'' _ IH1 _ IH2]; simpl.
  - apply perm_nil.
  - destruct (p x); [apply perm_skip|]; exact IH.
  - destruct (p x), (p y); try apply Permutation_refl. apply perm_swap.
  - eapply perm_trans; eassumption.
Qed.

Lemma turns_said Date_parse input title :
  map said_in_turn (turns (parseChatLog Date_parse input title))
  = map said (emitted Date_parse input).
Proof.
  simpl. unfold mapi. apply ListFacts.map_mapi_from. reflexivity.
Qed.

(** The sort leaves a list alone when the comparator never asks for a
    move. *)
Lemma sort_in_place (cmp : ChatLogMessage -> ChatLogMessage -> number) (l : list ChatLogMessage) :
  StronglySorted (in_place cmp) l -> Arr.sort cmp l = l.
Proof.
  induction 1 as [|x l Hs IH Hx]; simpl; [reflexivity|].
  rewrite IH. destruct l as [|y l']; [reflexivity|].
  simpl. inversion Hx as [|? ? Hxy _]; subst.
  unfold in_place in Hxy. rewrite Hxy. reflexivity.
Qed.

Lemma all_pairs_sorted {A : Type} (R : A -> A -> Prop) (l : list A) :
  (forall a b, In a l -> In b l -> R a b) -> StronglySorted R l.
Proof.
  induction l as [|x l IH]; intros H; constructor.
  - apply IH. intros a b Ha Hb. apply H; right; assumption.
  - apply Forall_forall. intros y Hy. apply H; [left; reflexivity | right; exact Hy].
Qed.

Lemma untimed_in_place Date_parse (l : list ChatLogMessage) :
  Forall (fun m => parseTimestampToMs Date_parse m = None) l ->
  StronglySorted (in_place (compare_messages Date_parse)) l.
Proof.
  intros H. apply all_pairs_sorted. intros a b Ha _.
  rewrite Forall_forall in H. unfold in_place, compare_messages.
  rewrite (H a Ha). apply NumFacts.gt_of_Z.
Qed.

Lemma ordered_in_place Date_parse (l : list ChatLogMessage) :
  forallb (resolves Date_parse) l = true ->
  StronglySorted (earlier_or_same Date_parse) l ->
  StronglySorted (in_place (compare_messages Date_parse)) l.
Proof.
  intros Hres Hs. rewrite forallb_forall in Hres.
  induction Hs as [|x l Hs IH Hx]; constructor.
  - apply IH. intros m Hm. apply Hres. right. exact Hm.
  - rewrite Forall_forall in *. intros y Hy. unfold in_place.
    rewrite ChatLogFacts.compare_resolved by (apply Hres; simpl; auto).
    rewrite NumFacts.gt_of_Z. specialize (Hx y Hy). unfold earlier_or_same in Hx.
    apply Z.ltb_ge. lia.
Qed.

Lemma min_NaN (l : list number) : In NaN l -> Num.min l = NaN.
Proof.
  induction l as [|x l IH]; intros H; [destruct H|].
  simpl. destruct H as [->|H]; [reflexivity|].
  rewrite IH by exact H. destruct x; reflexivity.
Qed.

Lemma defined_in {A : Type} (x : A) (l : list (option A)) :
  In (Some x) l -> In x (Arr.defined l).
Proof.
  induction l as [|y l IH]; intros H; [destruct H|].
  destruct H as [->|H]; simpl; [left; reflexivity|].
  destruct y; [right|]; auto.
Qed.

Lemma unreadable_is_NaN Date_parse (m : ChatLogMessage) :
  unreadable_ts m -> parseTimestampToMs Date_parse m = Some NaN.
Proof.
  intros [Hp Hf]. unfold parseTimestampToMs. rewrite Hp, Hf. reflexivity.
Qed.

End ChatLogOrderFacts.

(** X4. A turn of the json-transcript or of the chat-log parser never
    has an empty speaker.  In a chat log the speaker is the first of
    [user], [username], [author], [sender] that is present and not empty,
    ["Unknown"] when there is none; the text is the first such of [text],
    [message], [content], the empty string when there is none. *)
Theorem speaker_is_never_empty :
  (forall Date_parse input title,
      Forall (fun t => Types.speaker t <> "")
             (turns (JsonTranscript.parseJsonTranscript Date_parse input title)))
  /\ (forall Date_parse input title,
         Forall (fun t => Types.speaker t <> "")
                (turns (ChatLog.parseChatLog Date_parse input title)))
  /\ (forall m,
         ChatLog.extractSpeaker m
         = ChatLogMore.first_nonempty
             [ChatLog.user m; ChatLog.username m; ChatLog.author m; ChatLog.sender m]
             "Unknown"
         /\ ChatLog.extractText m
            = ChatLogMore.first_nonempty
                [ChatLog.text m; ChatLog.message m; ChatLog.content m] "").
Proof.
  split; [|split].
  - intros Date_parse input title. simpl. unfold mapi.
    apply ListFacts.Forall_mapi_from with (Q := fun _ => True).
    + intros entry i _. simpl. apply ResultFacts.or_else_nonempty. discriminate.
    + apply Forall_forall. intros; exact I.
  - intros Date_parse input title. simpl. unfold mapi.
    apply ListFacts.Forall_mapi_from with (Q := fun _ => True).
    + intros m i _. simpl. unfold ChatLog.extractSpeaker.
      apply ResultFacts.or_else_nonempty. discriminate.
    + apply Forall_forall. intros; exact I.
  - intros m. split.
    + apply ChatLogOrderFacts.extractSpeaker_first.
    + apply ChatLogOrderFacts.extractText_first.
Qed.

(** X5. Whatever the timestamps, the chat-log parser neither loses nor
    repeats a message that has text: the speakers and texts of the turns
    are, up to order, those of the input messages whose text is not
    blank. *)
Theorem chat_log_keeps_every_text :
  forall Date_parse input title,
    Permutation
      (map ChatLogMore.said_in_turn (turns (ChatLog.parseChatLog Date_parse input title)))
      (map ChatLogMore.said (filter ChatLog.keeps input.(ChatLog.messages)))
    /\ List.length (turns (ChatLog.parseChatLog Date_parse input title))
       = List.length (filter ChatLog.keeps input.(ChatLog.messages)).
Proof.
  intros Date_parse input title.
  assert (H : Permutation
                (map ChatLogMore.said_in_turn
                     (turns (ChatLog.parseChatLog Date_parse input title)))
                (map ChatLogMore.said (filter ChatLog.keeps input.(ChatLog.messages)))).
  { rewrite ChatLogOrderFacts.turns_said. apply Permutation_map.
    apply ChatLogOrderFacts.Permutation_filter. apply ListFacts.sort_perm. }
  split; [exact H|].
  apply Permutation_length in H. rewrite !length_map in H. exact H.
Qed.

(** X6. When nothing has to move, the chat-log parser keeps the input
    order: this is so when no message has a resolvable timestamp, and
    when every timestamp resolves and the messages already come in
    non-decreasing time. *)
Theorem chat_log_keeps_input_order :
  forall Date_parse input title,
    Forall (fun m => ChatLog.parseTimestampToMs Date_parse m = None) input.(ChatLog.messages)
    \/ (forallb (ChatLogSpec.resolves Date_parse) input.(ChatLog.messages) = true
        /\ StronglySorted (ChatLogSpec.earlier_or_same Date_parse) input.(ChatLog.messages)) ->
    ChatLog.sortedMessages Date_parse input = input.(ChatLog.messages)
    /\ map ChatLogMore.said_in_turn (turns (ChatLog.parseChatLog Date_parse input title))
       = map ChatLogMore.said (filter ChatLog.keeps input.(ChatLog.messages)).
Proof.
  intros Date_parse input title H.
  assert (Hsort : ChatLog.sortedMessages Date_parse input = input.(ChatLog.messages)).
  { unfold ChatLog.sortedMessages. apply ChatLogOrderFacts.sort_in_place.
    destruct H as [H|[Hres Hs]].
    - apply ChatLogOrderFacts.untimed_in_place, H.
    - apply ChatLogOrderFacts.ordered_in_place; assumption. }
  split; [exact Hsort|].
  rewrite ChatLogOrderFacts.turns_said. unfold ChatLogSpec.emitted.
  rewrite Hsort. reflexivity.
Qed.

(** Three messages without timestamps: the two with text, in order. *)
Lemma chat_log_keeps_input_order_witness :
  map ChatLogMore.said_in_turn
      (turns (ChatLog.parseChatLog Host.Date_parse_iso ChatLogMore.untimed None))
  = [("ann", "one"); ("cy", "three")].
Proof.
  refine (proj2 (@chat_log_keeps_input_order Host.Date_parse_iso ChatLogMore.untimed
                   None _)).
  left. repeat constructor.
Defined.

(** X7. A [ts] that [parseFloat] cannot read resolves to [NaN], not to
    [undefined], and one such message spoils the whole chat log: the
    baseline is [NaN] and so is the [startMs] of every turn that has
    one. *)
Theorem chat_log_unreadable_ts_spoils_offsets :
  forall Date_parse input title m,
    In m input.(ChatLog.messages) ->
    ChatLogMore.unreadable_ts m ->
    ChatLog.parseTimestampToMs Date_parse m = Some NaN
    /\ ChatLog.baseTimestamp Date_parse input = NaN
    /\ Forall (fun t => startMs t = None \/ startMs t = Some NaN)
              (turns (ChatLog.parseChatLog Date_parse input title)).
Proof.
  intros Date_parse input title m Hm Hbad.
  pose proof (ChatLogOrderFacts.unreadable_is_NaN Date_parse Hbad) as Hts.
  assert (Hbase : ChatLog.baseTimestamp Date_parse input = NaN).
  { unfold ChatLog.baseTimestamp.
    assert (Hin : In NaN (Arr.defined (map (ChatLog.parseTimestampToMs Date_parse)
                                           (ChatLog.sortedMessages Date_parse input)))).
    { apply ChatLogOrderFacts.defined_in. rewrite <- Hts. apply in_map.
      apply ChatLogFacts.sorted_in, Hm. }
    rewrite (ChatLogOrderFacts.min_NaN _ Hin).
    destruct (Arr.defined _); [destruct Hin | reflexivity]. }
  split; [exact Hts|]. split; [exact Hbase|].
  simpl. rewrite Hbase. unfold mapi.
  apply ListFacts.Forall_mapi_from with (Q := fun _ => True).
  - intros x i _. simpl. destruct (ChatLog.parseTimestampToMs Date_parse x) as [t|].
    + right. destruct t; reflexivity.
    + left. reflexivity.
  - apply Forall_forall. intros; exact I.
Qed.

(** A message with [ts = "soon"]: both turns start at [NaN]. *)
Lemma chat_log_unreadable_ts_spoils_offsets_witness :
  map startMs (turns (ChatLog.parseChatLog Host.Date_parse_iso ChatLogMore.unreadable None))
  = [Some NaN; Some NaN]
  /\ ChatLog.baseTimestamp Host.Date_parse_iso ChatLogMore.unreadable = NaN.
Proof.
  split; [reflexivity|].
  refine (proj1 (proj2 (@chat_log_unreadable_ts_spoils_offsets
                          Host.Date_parse_iso ChatLogMore.unreadable None
                          (Samples.slack "ann" "soon" "a") _ _))).
  - left. reflexivity.
  - split; reflexivity.
Defined.

(** ** WhatsApp: the turns follow the header lines *)

Module HeaderFacts.

Import WhatsApp WhatsAppSpec WhatsAppHeaders.

Section WithHost.
Variable Date_parse : string -> option Z.

Section Projection.
Context {X : Type}.
Variable of_turn : NormalizedTurn -> X.
Variable of_header : ParsedLine -> X.

(** The projection of a pushed turn depends on its header alone. *)
Hypothesis pushed :
  forall acc cur txt,
    map of_turn (flush Date_parse (mkState acc (Some cur) txt))
    = (map of_turn acc ++ [of_header cur])%list.

Lemma flush_projection (st : state) :
  map of_turn (flush Date_parse st)
  = (map of_turn (st_turns st) ++ map of_header (pending st))%list.
Proof.
  destruct st as [acc [cur|] txt]; unfold pending; simpl currentTurn.
  - apply pushed.
  - unfold flush. simpl. rewrite app_nil_r. reflexivity.
Qed.

Lemma scan_projection (lines : list string) :
  forall st,
    map of_turn (flush Date_parse (fold_left (step Date_parse) lines st))
    = (map of_turn (st_turns st) ++ map of_header (pending st ++ headers lines))%list.
Proof.
  induction lines as [|line lines IH]; intros st.
  - simpl fold_left. simpl headers. rewrite app_nil_r. apply flush_projection.
  - simpl fold_left. simpl headers. unfold step at 2.
    destruct (parseLine line) as [parsed|].
    + rewrite IH. simpl st_turns. rewrite flush_projection.
      unfold pending at 2. simpl currentTurn.
      rewrite !map_app, <- !app_assoc. reflexivity.
    + destruct st as [acc [cur|] txt]; simpl; rewrite IH; reflexivity.
Qed.

Lemma collect_projection (lines : list string) :
  map of_turn (collect Date_parse lines) = map of_header (headers lines).
Proof.
  unfold collect. rewrite scan_projection. reflexivity.
Qed.
End Projection.

Lemma rebase_keeps {X : Type} (of_turn : NormalizedTurn -> X) (l : list NormalizedTurn) :
  (forall t v, of_turn (set_startMs t v) = of_turn t) ->
  map of_turn (rebase l) = map of_turn l.
Proof.
  intros H. unfold rebase. destruct l as [|first l']; [reflexivity|].
  destruct (startMs first); [|reflexivity].
  rewrite map_map. apply map_ext. intros t. destruct (startMs t); [apply H | reflexivity].
Qed.
End WithHost.

Lemma headers_filter (lines : list string) :
  List.length (headers lines) = List.length (filter header lines).
Proof.
  induction lines as [|line lines IH]; simpl; [reflexivity|].
  unfold header. destruct (parseLine line); simpl; rewrite IH; reflexivity.
Qed.

Lemma filter_firstn_length {A : Type} (p : A -> bool) (n : nat) (l : list A) :
  List.length (filter p (firstn n l)) <= List.length (filter p l).
Proof.
  revert n. induction l as [|x l IH]; intros [|n]; simpl; try lia.
  destruct (p x); simpl; specialize (IH n); lia.
Qed.

End HeaderFacts.

(** X8. The WhatsApp parser emits one turn for every header line of
    the text, in the order of the lines: the turn has the speaker of its
    header, records the header's date and time strings as
    [originalDate] and [originalTime], and has no [endMs]. *)
Theorem whatsapp_turns_follow_headers :
  forall Date_parse text title,
    let found := WhatsAppHeaders.headers (WhatsApp.nonblank_lines text) in
    let emitted := turns (WhatsApp.parseWhatsApp Date_parse text title) in
    map Types.speaker emitted = map WhatsApp.speaker found
    /\ map metadata emitted = map WhatsAppHeaders.header_metadata found
    /\ map endMs emitted = map (fun _ => None) found.
Proof.
  intros Date_parse text title. cbv zeta. simpl turns.
  repeat split.
  - rewrite HeaderFacts.rebase_keeps by reflexivity.
    apply HeaderFacts.collect_projection.
    intros acc cur txt. unfold WhatsApp.flush. simpl. rewrite map_app. reflexivity.
  - rewrite HeaderFacts.rebase_keeps by reflexivity.
    apply HeaderFacts.collect_projection.
    intros acc cur txt. unfold WhatsApp.flush. simpl. rewrite map_app. reflexivity.
  - rewrite HeaderFacts.rebase_keeps by reflexivity.
    apply HeaderFacts.collect_projection.
    intros acc cur txt. unfold WhatsApp.flush. simpl. rewrite map_app. reflexivity.
Qed.

(** X9. A text that [isWhatsAppText] accepts always parses into at
    least one turn: the 30% rule over at least two lines needs a header
    line among the sampled ones. *)
Theorem detected_whatsapp_has_a_turn :
  forall Date_parse text title,
    WhatsApp.isWhatsAppText text = true ->
    1 <= List.length (turns (WhatsApp.parseWhatsApp Date_parse text title)).
Proof.
  intros Date_parse text title H.
  apply DetectFacts.isWhatsAppText_spec in H. destruct H as [Hlen Hmet].
  rewrite WhatsAppFacts.whatsapp_length.
  unfold WhatsAppSpec.threshold_met, WhatsAppSpec.matched, WhatsAppSpec.sample in Hmet.
  pose proof (HeaderFacts.filter_firstn_length WhatsAppSpec.header 10
                (WhatsApp.nonblank_lines text)) as Hsub.
  assert (Hsample : 2 <= List.length (firstn 10 (WhatsApp.nonblank_lines text))).
  { rewrite length_firstn. lia. }
  lia.
Qed.

(** Two header lines: detected, and parsed into two turns. *)
Lemma detected_whatsapp_has_a_turn_witness :
  WhatsApp.isWhatsAppText Samples.two_lines = true
  /\ 1 <= List.length (turns (WhatsApp.parseWhatsApp Host.Date_parse_iso Samples.two_lines None)).
Proof.
  split; [reflexivity|].
  apply (@detected_whatsapp_has_a_turn Host.Date_parse_iso Samples.two_lines None).
  reflexivity.
Defined.

(** ** Decimal digits through [Number] and the patterns *)

Module DigitFacts.

Import Str Digits.

Local Open Scope string_scope.

Ltac by_bits c :=
  destruct c as [[|] [|] [|] [|] [|] [|] [|] [|]];
  intros H; compute in H; try discriminate H; try reflexivity.

Lemma digit_not_space (c : ascii) : is_digit c = true -> is_space c = false.
Proof. revert c. intros c. by_bits c. Qed.

Lemma digit_not_colon (c : ascii) : is_digit c = true -> Ascii.eqb c ":" = false.
Proof. by_bits c. Qed.

Lemma digit_not_I (c : ascii) : is_digit c = true -> Ascii.eqb "I" c = false.
Proof. by_bits c. Qed.

Lemma digit_not_radix (c : ascii) :
  is_digit c = true ->
  is_char_ci "x" c = false /\ is_char_ci "o" c = false /\ is_char_ci "b" c = false.
Proof.
  destruct c as [[|] [|] [|] [|] [|] [|] [|] [|]];
    intros H; compute in H; try discriminate H; repeat split; reflexivity.
Qed.

Lemma digit_unsigned (c : ascii) (s : string) :
  is_digit c = true -> signed_decimal (String c s) = unsigned_decimal (String c s).
Proof. by_bits c. Qed.

Lemma digit_val_nonneg (c : ascii) : (0 <= digit_val c)%Z.
Proof. unfold digit_val. apply Nat2Z.is_nonneg. Qed.

Lemma value_from_nonneg (s : string) : forall acc, (0 <= acc)%Z -> (0 <= value_from s acc)%Z.
Proof.
  induction s as [|c s IH]; intros acc Hacc; cbn [value_from]; [exact Hacc|].
  apply IH. pose proof (digit_val_nonneg c). lia.
Qed.

Lemma value_nonneg (s : string) : (0 <= value s)%Z.
Proof. apply value_from_nonneg. lia. Qed.

Lemma digits_all (s : string) :
  all_digits s = true ->
  forall acc n, digits s acc n = (value_from s acc, n + String.length s, "").
Proof.
  induction s as [|c s IH]; intros H acc n; cbn [digits value_from String.length].
  - rewrite Nat.add_0_r. reflexivity.
  - cbn [all_digits] in H. apply andb_prop in H. destruct H as [Hc Hs].
    rewrite Hc, (IH Hs). rewrite Nat.add_succ_r. reflexivity.
Qed.

Lemma trimEnd_digits (s : string) : all_digits s = true -> trimEnd s = s.
Proof.
  induction s as [|c s IH]; intros H; simpl; [reflexivity|].
  simpl in H. apply andb_prop in H. destruct H as [Hc Hs].
  rewrite (IH Hs). destruct s; [|reflexivity].
  rewrite (digit_not_space _ Hc). reflexivity.
Qed.

Lemma trim_digits (s : string) : all_digits s = true -> trim s = s.
Proof.
  intros H. unfold trim. destruct s as [|c s]; [reflexivity|].
  simpl trimStart. pose proof H as H'. simpl in H'. apply andb_prop in H'.
  rewrite (digit_not_space _ (proj1 H')). apply trimEnd_digits, H.
Qed.

Lemma non_decimal_digits (s : string) : all_digits s = true -> non_decimal s = None.
Proof.
  intros H. destruct s as [|c s1]; [reflexivity|].
  destruct c as [[|] [|] [|] [|] [|] [|] [|] [|]]; try reflexivity.
  destruct s1 as [|p [|d ds]]; try reflexivity.
  cbn [all_digits] in H. apply andb_prop in H. destruct H as [_ H].
  apply andb_prop in H. destruct H as [Hp _].
  destruct (digit_not_radix _ Hp) as [Hx [Ho Hb]].
  unfold non_decimal. rewrite Hx, Ho, Hb. reflexivity.
Qed.

Lemma unsigned_digits (c : ascii) (s : string) :
  all_digits (String c s) = true ->
  unsigned_decimal (String c s) = Some (of_Z (value (String c s)), "").
Proof.
  intros H. pose proof H as H'. simpl in H'. apply andb_prop in H'. destruct H' as [Hc _].
  unfold unsigned_decimal.
  change (strip_prefix "Infinity" (String c s))
    with (if Ascii.eqb "I" c then strip_prefix "nfinity" s else None).
  rewrite (digit_not_I _ Hc).
  rewrite (digits_all _ H). simpl String.length. simpl Nat.add.
  cbn iota beta. simpl Nat.eqb. cbn iota. unfold exponent. cbn iota beta.
  unfold scale10. simpl Z.leb. cbn iota.
  unfold value, of_Z. rewrite Z.sub_0_r. simpl Z.pow. rewrite Z.mul_1_r. reflexivity.
Qed.

(** [Number] on a string of decimal digits is its decimal value, 0 for
    the empty string. *)
Lemma Number_digits (s : string) : all_digits s = true -> Number s = of_Z (value s).
Proof.
  intros H. unfold Number. rewrite (trim_digits _ H).
  destruct s as [|c s]; [reflexivity|].
  rewrite (non_decimal_digits _ H).
  pose proof H as H'. simpl in H'. apply andb_prop in H'. destruct H' as [Hc _].
  rewrite (@digit_unsigned c s Hc), (@unsigned_digits c s H). reflexivity.
Qed.

Lemma all_in_digits (w : string) : all_in is_digit w = true -> all_digits w = true.
Proof.
  induction w as [|c w IH]; simpl; [reflexivity|].
  intros H. apply andb_prop in H. destruct H as [Hc Hw].
  rewrite Hc, (IH Hw). reflexivity.
Qed.

End DigitFacts.

(** ** Patterns without groups: what they consume *)

Module PlainFacts.

Import Str Regex Digits StrFacts.

Local Open Scope string_scope.

Lemma all_in_app (p : ascii -> bool) (a b : string) :
  all_in p (a ++ b) = all_in p a && all_in p b.
Proof.
  induction a as [|c a IH]; simpl; [reflexivity|].
  rewrite IH, andb_assoc. reflexivity.
Qed.

Lemma substring_prefix (w s : string) : substring 0 (String.length w) (w ++ s) = w.
Proof. induction w as [|c w IH]; simpl; [destruct s; reflexivity | rewrite IH; reflexivity]. Qed.

Lemma upto_app (w s : string) : upto (w ++ s) s = w.
Proof.
  unfold upto. rewrite append_length.
  replace (String.length w + String.length s - String.length s) with (String.length w) by lia.
  apply substring_prefix.
Qed.

Section Plain.
Context {R : Type}.
Variable total : nat.
Variable p : ascii -> bool.

(** A successful run of a pattern without groups has consumed
    characters of its classes and handed the captures on unchanged. *)
Lemma run_plain (r : re) :
  plain p r ->
  forall (s : string) (c : caps) (k : string -> caps -> option R) (res : R),
    run total r s c k = Some res ->
    exists w s', s = w ++ s' /\ all_in p w = true /\ k s' c = Some res.
Proof.
  induction 1 as [|q Hq|r1 r2 _ IH1 _ IH2|r1 r2 _ IH1 _ IH2|r1 _ IH1];
    intros s c k res H; simpl in H.
  - exists "", s. repeat split. exact H.
  - destruct s as [|a s]; [discriminate|].
    destruct (q a) eqn:E; [|discriminate].
    exists (String a ""), s. repeat split; [|exact H].
    simpl. rewrite (Hq a E). reflexivity.
  - apply IH1 in H. destruct H as [w1 [s1 [-> [Hw1 H]]]].
    apply IH2 in H. destruct H as [w2 [s2 [-> [Hw2 H]]]].
    exists (w1 ++ w2), s2. rewrite append_assoc, all_in_app, Hw1, Hw2.
    repeat split. exact H.
  - destruct (run total r1 s c k) eqn:E.
    + injection H as <-. apply IH1 in E. exact E.
    + apply IH2 in H. exact H.
  - revert H. generalize (String.length s) at 1. intros fuel. revert s c.
    induction fuel as [|fuel IHf]; intros s c H.
    + exists "", s. repeat split. exact H.
    + match type of H with
      | match ?e with _ => _ end = _ => destruct e eqn:E
      end.
      * injection H as <-. apply IH1 in E. destruct E as [w1 [s1 [-> [Hw1 E]]]].
        destruct (Nat.ltb (String.length s1) (String.length (w1 ++ s1))); [|discriminate].
        apply IHf in E. destruct E as [w2 [s2 [-> [Hw2 E]]]].
        exists (w1 ++ w2), s2. rewrite append_assoc, all_in_app, Hw1, Hw2.
        repeat split. exact E.
      * exists "", s. repeat split. exact H.
Qed.

(** A group around such a pattern captures what the pattern consumed. *)
Lemma run_group (i : nat) (r r2 : re) :
  plain p r ->
  forall s c (k : string -> caps -> option R) res,
    run total (Seq (Grp i r) r2) s c k = Some res ->
    exists w s', all_in p w = true /\ run total r2 s' ((i, w) :: c) k = Some res.
Proof.
  intros Hr s c k res H. simpl in H.
  apply (run_plain Hr) in H. destruct H as [w [s' [-> [Hw H]]]].
  rewrite upto_app in H. exists w, s'. split; assumption.
Qed.

Lemma run_last_group (i : nat) (r : re) :
  plain p r ->
  forall s c (k : string -> caps -> option R) res,
    run total (Grp i r) s c k = Some res ->
    exists w s', all_in p w = true /\ k s' ((i, w) :: c) = Some res.
Proof.
  intros Hr s c k res H. simpl in H.
  apply (run_plain Hr) in H. destruct H as [w [s' [-> [Hw H]]]].
  rewrite upto_app in H. exists w, s'. split; assumption.
Qed.

Lemma run_skip (r r2 : re) :
  plain p r ->
  forall s c (k : string -> caps -> option R) res,
    run total (Seq r r2) s c k = Some res ->
    exists s', run total r2 s' c k = Some res.
Proof.
  intros Hr s c k res H. simpl in H.
  apply (run_plain Hr) in H. destruct H as [w [s' [_ [_ H]]]].
  exists s'. exact H.
Qed.
End Plain.

Lemma plain_upto_n (p : ascii -> bool) (r : re) (n : nat) :
  plain p r -> plain p (upto_n n r).
Proof. intros H. induction n; simpl; repeat constructor; assumption. Qed.

Lemma plain_Rep (p : ascii -> bool) (r : re) (m n : nat) :
  plain p r -> plain p (Rep m n r).
Proof.
  intros H. induction m; simpl; [apply plain_upto_n, H|].
  constructor; assumption.
Qed.

Lemma plain_digits (lo hi : nat) : plain is_digit (Range lo hi (Cls is_digit)).
Proof. apply plain_Rep. constructor. auto. Qed.

Lemma plain_times (n : nat) : plain is_digit (Times n (Cls is_digit)).
Proof. apply plain_Rep. constructor. auto. Qed.

Lemma plain_any (q : ascii -> bool) : plain (fun _ => true) (Cls q).
Proof. constructor. auto. Qed.

End PlainFacts.

(** ** Subtitles: cue times *)

Module SrtFacts.

Import Str Regex Digits Srt.

(** The four groups of a match of the cue-time pattern are digits. *)
Lemma timestamp_groups (ts : string) (m : caps) :
  exec timestamp_re ts = Some m ->
  exists hh mm ss ms,
    all_digits hh = true /\ all_digits mm = true
    /\ all_digits ss = true /\ all_digits ms = true
    /\ m = [(4, ms); (3, ss); (2, mm); (1, hh)].
Proof.
  unfold exec. intros H.
  destruct (search_from timestamp_re (String.length ts) ts) as [[[pre rest] c]|] eqn:E;
    [|discriminate].
  injection H as <-.
  apply RegexFacts.search_from_some in E. destruct E as [s [_ E]].
  unfold match_here in E.
  change timestamp_re with
    (Seq (Grp 1 (Range 1 2 digit))
       (Seq (chr ":")
          (Seq (Grp 2 (Times 2 digit))
             (Seq (chr ":")
                (Seq (Grp 3 (Times 2 digit))
                   (Seq comma_or_dot (Grp 4 (Times 3 digit)))))))) in E.
  apply PlainFacts.run_group with (p := is_digit) in E;
    [|apply (PlainFacts.plain_digits 1 2)].
  destruct E as [hh [s1 [Hhh E]]].
  apply PlainFacts.run_skip with (p := fun _ => true) in E; [|apply PlainFacts.plain_any].
  destruct E as [s2 E].
  apply PlainFacts.run_group with (p := is_digit) in E; [|apply (PlainFacts.plain_times 2)].
  destruct E as [mm [s3 [Hmm E]]].
  apply PlainFacts.run_skip with (p := fun _ => true) in E; [|apply PlainFacts.plain_any].
  destruct E as [s4 E].
  apply PlainFacts.run_group with (p := is_digit) in E; [|apply (PlainFacts.plain_times 2)].
  destruct E as [ss [s5 [Hss E]]].
  apply PlainFacts.run_skip with (p := fun _ => true) in E; [|apply PlainFacts.plain_any].
  destruct E as [s6 E].
  apply PlainFacts.run_last_group with (p := is_digit) in E;
    [|apply (PlainFacts.plain_times 3)].
  destruct E as [ms [s7 [Hms E]]].
  injection E as _ <-.
  exists hh, mm, ss, ms.
  repeat split; auto using DigitFacts.all_in_digits.
Qed.

(** [parseTimestamp] answers 0 or the milliseconds of the cue time it
    found: a non-negative integer in both cases. *)
Lemma parseTimestamp_value (ts : string) :
  exists n, (0 <= n)%Z /\ parseTimestamp ts = of_Z n.
Proof.
  unfold parseTimestamp.
  destruct (exec timestamp_re ts) as [m|] eqn:E.
  - apply timestamp_groups in E.
    destruct E as [hh [mm [ss [ms [Hhh [Hmm [Hss [Hms ->]]]]]]]].
    exists (cue_ms hh mm ss ms). split.
    + unfold cue_ms.
      pose proof (DigitFacts.value_nonneg hh). pose proof (DigitFacts.value_nonneg mm).
      pose proof (DigitFacts.value_nonneg ss). pose proof (DigitFacts.value_nonneg ms).
      lia.
    + cbn [cap Nat.eqb].
      rewrite !DigitFacts.Number_digits by assumption.
      rewrite !NumFacts.mul_of_Z, !NumFacts.add_of_Z. reflexivity.
  - exists 0%Z. split; [lia | reflexivity].
Qed.

Lemma parseBlock_times (block : string) (b : SrtBlock) :
  parseBlock block = Some b ->
  exists a z, (0 <= a)%Z /\ (0 <= z)%Z
              /\ Srt.startMs b = of_Z a /\ Srt.endMs b = of_Z z.
Proof.
  unfold parseBlock.
  destruct (filter nonblank (split line_break block)) as [|line0 [|line1 rest]];
    try discriminate.
  destruct (List.length (line0 :: line1 :: rest) <? 3); [discriminate|].
  destruct (isNaN (parseInt10 line0)); [discriminate|].
  destruct (exec cue_range line1) as [m|]; [|discriminate].
  intros H. injection H as <-. simpl.
  destruct (parseTimestamp_value (cap m 1)) as [a [Ha ->]].
  destruct (parseTimestamp_value (cap m 2)) as [z [Hz ->]].
  exists a, z. repeat split; assumption.
Qed.

Lemma blocks_times (text : string) :
  Forall (fun b => exists a z, (0 <= a)%Z /\ (0 <= z)%Z
                               /\ Srt.startMs b = of_Z a /\ Srt.endMs b = of_Z z)
         (parseSrtBlocks text).
Proof.
  unfold parseSrtBlocks.
  induction (filter nonblank (split blank_line text)) as [|block l IH]; simpl;
    [constructor|].
  destruct (parseBlock block) as [b|] eqn:E; [|exact IH].
  constructor; [eapply parseBlock_times; eassumption | exact IH].
Qed.

(** The loop of [parseSrt] pushes one turn per block. *)
Lemma push_all (P : NormalizedTurn -> Prop) (Q : SrtBlock -> Prop) :
  (forall acc b, Q b -> Forall P acc -> Forall P (push acc b)) ->
  forall blocks acc, Forall Q blocks -> Forall P acc -> Forall P (fold_left push blocks acc).
Proof.
  intros Hpush blocks. induction blocks as [|b blocks IH]; intros acc HQ Hacc; simpl.
  - exact Hacc.
  - inversion HQ; subst. apply IH; [assumption|]. apply Hpush; assumption.
Qed.

Lemma push_length (blocks : list SrtBlock) :
  forall acc, List.length (fold_left push blocks acc) = List.length acc + List.length blocks.
Proof.
  induction blocks as [|b blocks IH]; intros acc; simpl; [lia|].
  rewrite IH. unfold push. destruct (extractSpeaker (Srt.text b)).
  rewrite length_app. simpl. lia.
Qed.

End SrtFacts.

(** X10. Every turn of the srt parser has a [startMs] and an [endMs],
    and both are non-negative integers of milliseconds: [parseTimestamp]
    answers the milliseconds of a cue time or 0, never [NaN]; there is
    one turn for each block that [parseSrtBlocks] keeps. *)
Theorem srt_times_are_defined :
  forall text title,
    Forall (fun t => exists a z, (0 <= a)%Z /\ (0 <= z)%Z
                                 /\ startMs t = Some (of_Z a) /\ endMs t = Some (of_Z z))
           (turns (Srt.parseSrt text title))
    /\ List.length (turns (Srt.parseSrt text title))
       = List.length (Srt.parseSrtBlocks text)
    /\ forall ts, exists n, (0 <= n)%Z /\ Srt.parseTimestamp ts = of_Z n.
Proof.
  intros text title. split; [|split].
  - simpl. eapply SrtFacts.push_all; [| apply SrtFacts.blocks_times | constructor].
    intros acc b [a [z [Ha [Hz [Hs He]]]]] Hacc. unfold Srt.push.
    destruct (Srt.extractSpeaker (Srt.text b)) as [speaker content].
    apply Forall_app. split; [exact Hacc|].
    constructor; [|constructor].
    exists a, z. simpl. rewrite Hs, He. repeat split; assumption.
  - simpl. rewrite SrtFacts.push_length. reflexivity.
  - apply SrtFacts.parseTimestamp_value.
Qed.

Module CueFacts.

Import Str Regex Digits Srt.

Local Open Scope string_scope.

Lemma exec_two_digit_hours (h1 h2 m1 m2 s1 s2 f1 f2 f3 sep : ascii) :
  is_digit h1 = true -> is_digit h2 = true -> is_digit m1 = true -> is_digit m2 = true ->
  is_digit s1 = true -> is_digit s2 = true ->
  is_digit f1 = true -> is_digit f2 = true -> is_digit f3 = true ->
  sep = ","%char \/ sep = "."%char ->
  exec timestamp_re
       (String h1 (String h2 (String ":" (String m1 (String m2 (String ":"
          (String s1 (String s2 (String sep (String f1 (String f2 (String f3 ""))))))))))))
  = Some [(4, String f1 (String f2 (String f3 ""))); (3, String s1 (String s2 ""));
          (2, String m1 (String m2 "")); (1, String h1 (String h2 ""))].
Proof.
  intros H1 H2 H3 H4 H5 H6 H7 H8 H9 [-> | ->];
    unfold exec; cbn;
    rewrite H1; cbn; rewrite H2; cbn; rewrite H3; cbn; rewrite H4; cbn;
    rewrite H5; cbn; rewrite H6; cbn; rewrite H7; cbn; rewrite H8; cbn;
    rewrite H9; cbn; reflexivity.
Qed.

Lemma exec_one_digit_hours (h1 m1 m2 s1 s2 f1 f2 f3 sep : ascii) :
  is_digit h1 = true -> is_digit m1 = true -> is_digit m2 = true ->
  is_digit s1 = true -> is_digit s2 = true ->
  is_digit f1 = true -> is_digit f2 = true -> is_digit f3 = true ->
  sep = ","%char \/ sep = "."%char ->
  exec timestamp_re
       (String h1 (String ":" (String m1 (String m2 (String ":"
          (String s1 (String s2 (String sep (String f1 (String f2 (String f3 "")))))))))))
  = Some [(4, String f1 (String f2 (String f3 ""))); (3, String s1 (String s2 ""));
          (2, String m1 (String m2 "")); (1, String h1 "")].
Proof.
  intros H1 H3 H4 H5 H6 H7 H8 H9 [-> | ->];
    unfold exec; cbn;
    rewrite H1; cbn; rewrite H3; cbn; rewrite H4; cbn;
    rewrite H5; cbn; rewrite H6; cbn; rewrite H7; cbn; rewrite H8; cbn;
    rewrite H9; cbn; reflexivity.
Qed.

Lemma digits_of_length (s : string) (n : nat) :
  all_digits s = true -> String.length s = n ->
  match n with
  | 1 => exists a, s = String a "" /\ is_digit a = true
  | 2 => exists a b, s = String a (String b "") /\ is_digit a = true /\ is_digit b = true
  | 3 => exists a b c, s = String a (String b (String c ""))
                       /\ is_digit a = true /\ is_digit b = true /\ is_digit c = true
  | _ => True
  end.
Proof.
  intros H Hlen. destruct n as [|[|[|[|n]]]]; try exact I;
    destruct s as [|a [|b [|c [|d s]]]]; try discriminate Hlen;
    cbn [all_digits] in H;
    repeat match goal with
           | H : _ && _ = true |- _ => apply andb_prop in H; destruct H
           end;
    eauto 10.
Qed.

Lemma captured_value (hh mm ss ms : string) :
  all_digits hh = true -> all_digits mm = true ->
  all_digits ss = true -> all_digits ms = true ->
  (Number hh * of_Z 3600000 + Number mm * of_Z 60000 + Number ss * of_Z 1000 + Number ms)%num
  = of_Z (cue_ms hh mm ss ms).
Proof.
  intros Hh Hm Hs Hf. rewrite !DigitFacts.Number_digits by assumption.
  rewrite !NumFacts.mul_of_Z, !NumFacts.add_of_Z. reflexivity.
Qed.

End CueFacts.

(** X11. [parseTimestamp] of srt.ts reads a cue time [H:MM:SS,mmm] or
    [HH:MM:SS.mmm] (one or two digits of hours, comma or dot before the
    milliseconds) as [H * 3600000 + M * 60000 + S * 1000 + mmm]. *)
Theorem srt_cue_time_value :
  forall hh mm ss ms sep,
    Digits.all_digits hh = true -> Digits.all_digits mm = true ->
    Digits.all_digits ss = true -> Digits.all_digits ms = true ->
    String.length hh = 1 \/ String.length hh = 2 ->
    String.length mm = 2 -> String.length ss = 2 -> String.length ms = 3 ->
    sep = ","%char \/ sep = "."%char ->
    Srt.parseTimestamp (hh ++ ":" ++ mm ++ ":" ++ ss ++ String sep ms)%string
    = of_Z (Digits.cue_ms hh mm ss ms).
Proof.
  intros hh mm ss ms sep Hh Hm Hs Hf Hlh Hlm Hls Hlf Hsep.
  destruct (CueFacts.digits_of_length mm Hm Hlm) as [m1 [m2 [-> [Hm1 Hm2]]]].
  destruct (CueFacts.digits_of_length ss Hs Hls) as [s1 [s2 [-> [Hs1 Hs2]]]].
  destruct (CueFacts.digits_of_length ms Hf Hlf) as [f1 [f2 [f3 [-> [Hf1 [Hf2 Hf3]]]]]].
  unfold Srt.parseTimestamp.
  destruct Hlh as [Hlh|Hlh].
  - destruct (CueFacts.digits_of_length hh Hh Hlh) as [h1 [-> Hh1]].
    cbn [append].
    rewrite CueFacts.exec_one_digit_hours by assumption.
    cbn [Regex.cap Nat.eqb]. apply CueFacts.captured_value; assumption.
  - destruct (CueFacts.digits_of_length hh Hh Hlh) as [h1 [h2 [-> [Hh1 Hh2]]]].
    cbn [append].
    rewrite CueFacts.exec_two_digit_hours by assumption.
    cbn [Regex.cap Nat.eqb]. apply CueFacts.captured_value; assumption.
Qed.

(** [01:02:03,004] is 3723004 ms. *)
Lemma srt_cue_time_value_witness : Srt.parseTimestamp "01:02:03,004" = of_Z 3723004.
Proof.
  apply (@srt_cue_time_value "01" "02" "03" "004" ","%char);
    try reflexivity; auto.
Defined.

(** ** JSON transcripts: the clock formats *)

Module ClockFacts.

Import Str Digits JsonTranscript.

Local Open Scope string_scope.

Lemma split_digits (a : string) : all_digits a = true -> split_char ":" a = [a].
Proof.
  induction a as [|c a IH]; intros H; [reflexivity|].
  cbn [all_digits] in H. apply andb_prop in H. destruct H as [Hc Ha].
  cbn [split_char]. rewrite (DigitFacts.digit_not_colon _ Hc), (IH Ha). reflexivity.
Qed.

Lemma split_field (a rest : string) :
  all_digits a = true ->
  split_char ":" (a ++ String ":" rest) = a :: split_char ":" rest.
Proof.
  induction a as [|c a IH]; intros H; [reflexivity|].
  cbn [all_digits] in H. apply andb_prop in H. destruct H as [Hc Ha].
  cbn [append split_char]. rewrite (DigitFacts.digit_not_colon _ Hc), (IH Ha). reflexivity.
Qed.

Lemma truthy_field (a rest : string) : truthy (a ++ String ":" rest) = true.
Proof. destruct a; reflexivity. Qed.

End ClockFacts.

(** X12. When the host's date parser does not read it, a json-transcript
    timestamp made of decimal fields is the clock time in milliseconds:
    [HH:MM:SS] is [(HH * 3600 + MM * 60 + SS) * 1000], [MM:SS] is
    [(MM * 60 + SS) * 1000] and [SS] is [SS * 1000], whatever the number
    of digits of a field, as long as the result is an integer that a
    number holds exactly; an empty field counts as 0. *)
Theorem json_clock_value :
  forall Date_parse hh mm ss,
    Digits.all_digits hh = true -> Digits.all_digits mm = true ->
    Digits.all_digits ss = true ->
    (Date_parse (hh ++ ":" ++ mm ++ ":" ++ ss)%string = None ->
     Digits.safe ((Digits.value hh * 3600 + Digits.value mm * 60 + Digits.value ss) * 1000) ->
     JsonTranscript.parseTimestampToMs Date_parse (Some (hh ++ ":" ++ mm ++ ":" ++ ss)%string)
     = Some (of_Z ((Digits.value hh * 3600 + Digits.value mm * 60 + Digits.value ss) * 1000)))
    /\ (Date_parse (mm ++ ":" ++ ss)%string = None ->
        Digits.safe ((Digits.value mm * 60 + Digits.value ss) * 1000) ->
        JsonTranscript.parseTimestampToMs Date_parse (Some (mm ++ ":" ++ ss)%string)
        = Some (of_Z ((Digits.value mm * 60 + Digits.value ss) * 1000)))
    /\ (Date_parse ss = None -> ss <> "" ->
        Digits.safe (Digits.value ss * 1000) ->
        JsonTranscript.parseTimestampToMs Date_parse (Some ss)
        = Some (of_Z (Digits.value ss * 1000))).
Proof.
  intros Date_parse hh mm ss Hh Hm Hs. unfold JsonTranscript.parseTimestampToMs.
  split; [|split].
  - intros Hdate _. change (hh ++ ":" ++ mm ++ ":" ++ ss)%string
      with (hh ++ String ":" (mm ++ String ":" ss))%string in *.
    rewrite ClockFacts.truthy_field, Hdate. simpl negb. cbv iota.
    rewrite !ClockFacts.split_field, ClockFacts.split_digits by assumption.
    cbn [map]. rewrite !DigitFacts.Number_digits by assumption.
    cbn [existsb].
    rewrite !NumFacts.mul_of_Z, !NumFacts.add_of_Z, NumFacts.mul_of_Z. reflexivity.
  - intros Hdate _. change (mm ++ ":" ++ ss)%string with (mm ++ String ":" ss)%string in *.
    rewrite ClockFacts.truthy_field, Hdate. simpl negb. cbv iota.
    rewrite ClockFacts.split_field, ClockFacts.split_digits by assumption.
    cbn [map]. rewrite !DigitFacts.Number_digits by assumption.
    cbn [existsb].
    rewrite !NumFacts.mul_of_Z, !NumFacts.add_of_Z, NumFacts.mul_of_Z. reflexivity.
  - intros Hdate Hne _. destruct ss as [|c ss]; [congruence|].
    rewrite Hdate. simpl negb. cbv iota.
    rewrite ClockFacts.split_digits by assumption.
    cbn [map]. rewrite !DigitFacts.Number_digits by assumption.
    cbn [existsb]. rewrite NumFacts.mul_of_Z. reflexivity.
Qed.

(** [1:02:03] is 3723000 ms and [90] is 90000 ms for the ISO-only host. *)
Lemma json_clock_value_witness :
  JsonTranscript.parseTimestampToMs Host.Date_parse_iso (Some "1:02:03") = Some (of_Z 3723000)
  /\ JsonTranscript.parseTimestampToMs Host.Date_parse_iso (Some "90") = Some (of_Z 90000).
Proof.
  destruct (@json_clock_value Host.Date_parse_iso "1" "02" "03" eq_refl eq_refl eq_refl)
    as [H3 _].
  destruct (@json_clock_value Host.Date_parse_iso "" "" "90" eq_refl eq_refl eq_refl)
    as [_ [_ H1]].
  split.
  - apply H3; [reflexivity | unfold Digits.safe; vm_compute; discriminate].
  - apply H1; [reflexivity | discriminate | unfold Digits.safe; vm_compute; discriminate].
Defined.

(** ** Chat logs: the Slack timestamp *)

Module SlackFacts.

Import Str Digits ChatLog.

Lemma parseFloat_digits (s : string) :
  all_digits s = true -> s <> "" -> safe (value s) -> parseFloat s = of_Z (value s).
Proof.
  intros H Hne Hsafe. destruct s as [|c s]; [congruence|].
  pose proof H as H'. cbn [all_digits] in H'. apply andb_prop in H'. destruct H' as [Hc _].
  unfold parseFloat. cbn [trimStart]. rewrite (DigitFacts.digit_not_space _ Hc).
  rewrite (@DigitFacts.digit_unsigned c s Hc), (@DigitFacts.unsigned_digits c s H).
  apply NumFacts.to_double_of_Z.
  pose proof (DigitFacts.value_nonneg (String c s)) as Hnn.
  unfold safe in Hsafe. change (2 ^ 53)%Z with 9007199254740992%Z. lia.
Qed.

Lemma floor_of_Z (z : Z) : floor (of_Z z) = of_Z z.
Proof. unfold floor, of_Z. rewrite Qfloor_Z. reflexivity. Qed.

End SlackFacts.

(** X20. A [ts] field made of decimal digits decides the time of a
    chat-log message, whatever its [timestamp], [date] and [time] fields
    hold: a value below 4102444800 (the year 2100 in seconds) is taken as
    seconds and multiplied by 1000, a larger one is taken as milliseconds
    and kept (for a value that a number holds exactly). *)
Theorem slack_ts_is_seconds_or_milliseconds :
  forall Date_parse m s,
    ChatLog.ts m = Some s -> s <> "" ->
    Digits.all_digits s = true -> Digits.safe (Digits.value s) ->
    ChatLog.parseTimestampToMs Date_parse m
    = Some (of_Z (if (Digits.value s <? 4102444800)%Z
                  then Digits.value s * 1000
                  else Digits.value s)).
Proof.
  intros Date_parse m s Hts Hne Hd Hsafe. unfold ChatLog.parseTimestampToMs.
  rewrite Hts. unfold present.
  assert (Ht : Str.truthy s = true) by (destruct s; [congruence | reflexivity]).
  rewrite Ht. unfold or_else. rewrite Ht.
  rewrite (SlackFacts.parseFloat_digits Hd Hne Hsafe).
  unfold ChatLog.year2100. rewrite NumFacts.lt_of_Z.
  destruct (Z.ltb_spec (Digits.value s) 4102444800) as [Hlt|_].
  - rewrite NumFacts.fmul_of_Z, SlackFacts.floor_of_Z; [reflexivity|].
    pose proof (DigitFacts.value_nonneg s) as Hnn.
    change (2 ^ 53)%Z with 9007199254740992%Z. lia.
  - rewrite SlackFacts.floor_of_Z. reflexivity.
Qed.

(** 1700000000 is in seconds, 1700000000000 in milliseconds: both are
    the same instant. *)
Lemma slack_ts_is_seconds_or_milliseconds_witness :
  ChatLog.parseTimestampToMs Host.Date_parse_iso (Samples.slack "ann" "1700000000" "a")
  = Some (of_Z 1700000000000)
  /\ ChatLog.parseTimestampToMs Host.Date_parse_iso (Samples.slack "ann" "1700000000000" "a")
     = Some (of_Z 1700000000000).
Proof.
  split.
  - apply (@slack_ts_is_seconds_or_milliseconds
             Host.Date_parse_iso (Samples.slack "ann" "1700000000" "a") "1700000000");
      [reflexivity | discriminate | reflexivity
       | unfold Digits.safe; vm_compute; discriminate].
  - apply (@slack_ts_is_seconds_or_milliseconds
             Host.Date_parse_iso (Samples.slack "ann" "1700000000000" "a") "1700000000000");
      [reflexivity | discriminate | reflexivity
       | unfold Digits.safe; vm_compute; discriminate].
Defined.

(** ** The routes and the store *)

Module StoreFacts.

Import Ingest Routes Persist PersistMore.

Lemma parse_format Date_parse payload options result :
  parseInput Date_parse payload options = Some result ->
  format result = Some (chosen payload options)
  /\ (success result = true -> chosen payload options <> unknown).
Proof.
  unfold parseInput, chosen.
  destruct (match match options with
                  | Some o => opt_format o
                  | None => None
                  end with
            | Some f => f
            | None => detectFormat payload
            end).
  - destruct (negb (isJsonTranscript payload)).
    + intros H. injection H as <-. split; [reflexivity | discriminate].
    + destruct (as_JsonTranscriptInput payload); [|discriminate].
      intros H. injection H as <-. split; [reflexivity | discriminate].
  - destruct (negb (isChatLog payload)).
    + intros H. injection H as <-. split; [reflexivity | discriminate].
    + destruct (as_ChatLogInput payload); [|discriminate].
      intros H. injection H as <-. split; [reflexivity | discriminate].
  - destruct payload; intros H; injection H as <-; split;
      try reflexivity; discriminate.
  - destruct payload; intros H; injection H as <-; split;
      try reflexivity; discriminate.
  - intros H. injection H as <-. split; [reflexivity | discriminate].
Qed.

(** A parse that ran either failed with a message or carries a
    conversation with contiguous indices whose source is the format. *)
Lemma parsed Date_parse payload options result :
  parseInput Date_parse payload options = Some result ->
  (exists e, e <> "" /\ result = failure e (chosen payload options))
  \/ (exists conversation,
         result = succeeded conversation (chosen payload options)
         /\ chosen payload options <> unknown
         /\ source conversation = format_tag (chosen payload options)
         /\ contiguous (turns conversation)).
Proof.
  intros H.
  destruct (parse_format _ _ _ H) as [Hformat Hknown].
  destruct (ResultFacts.parseInput_cases _ _ _ H) as [Hfail Hok]. cbv zeta in Hok.
  destruct (success result) eqn:Es.
  - right. specialize (Hknown eq_refl).
    destruct (Hok eq_refl) as [[x ->]|[[x ->]|[[x ->]|[x ->]]]];
      simpl in Hformat; injection Hformat as <-;
      eexists; (split; [reflexivity|]); (split; [discriminate|]);
      (split; [reflexivity|]).
    + apply IndexFacts.json_contiguous.
    + apply IndexFacts.chat_contiguous.
    + apply IndexFacts.whatsapp_contiguous.
    + apply IndexFacts.srt_contiguous.
  - left. destruct (Hfail eq_refl) as [e [f [-> He]]].
    simpl in Hformat. injection Hformat as <-. eauto.
Qed.

Lemma contiguous_firstn (n : nat) (l : list NormalizedTurn) :
  contiguous l -> contiguous (firstn n l).
Proof.
  intros Hl i t Ht. apply Hl.
  assert (Hi : i < List.length (firstn n l)).
  { apply nth_error_Some. rewrite Ht. discriminate. }
  rewrite length_firstn in Hi.
  rewrite nth_error_firstn in Ht.
  destruct (Nat.ltb_spec i n); [exact Ht | lia].
Qed.

Lemma rows_of_turns (id : string) (l : list NormalizedTurn) :
  contiguous l ->
  map Persist.turnIndex (map (turn_row id) l) = seq 0 (List.length l)
  /\ Forall (fun row => Persist.conversationId row = id) (map (turn_row id) l).
Proof.
  intros Hl. split.
  - rewrite map_map. simpl. apply (IndexFacts.contiguous_interval Hl).
  - apply Forall_forall. intros row Hrow. apply in_map_iff in Hrow.
    destruct Hrow as [t [<- _]]. reflexivity.
Qed.

Section WithDb.
Variable Store : Type.
Variable insertConversation : Store -> ConversationRow -> Store * outcome string.
Variable insertTurns : Store -> list TurnRow -> Store * outcome unit.
Variable Date_parse : string -> option Z.

Local Abbreviation ingest := (@Persist.ingest Store insertConversation insertTurns Date_parse).
Local Abbreviation post_ingest :=
  (@Persist.post_ingest Store insertConversation insertTurns Date_parse).

Lemma ingest_failure db payload options e f :
  parseInput Date_parse payload options = Some (failure e f) -> e <> "" ->
  ingest db payload options = Some (db, Rejected e).
Proof.
  intros H He. unfold Persist.ingest. rewrite H.
  unfold failure. cbn [success data error].
  rewrite (ResultFacts.or_else_given _ He). reflexivity.
Qed.

(** What [ingest] does once the parse gave a conversation. *)
Lemma ingest_success db payload options conversation f :
  parseInput Date_parse payload options = Some (succeeded conversation f) ->
  ingest db payload options
  = match insertConversation db (conversation_row conversation) with
    | (db1, Rejected message) => Some (db1, Rejected message)
    | (db1, Resolved id) =>
        match turns conversation with
        | [] => Some (db1, Resolved (mkIngested id 0))
        | _ :: _ =>
            match insertTurns db1 (map (turn_row id) (turns conversation)) with
            | (db2, Rejected message) => Some (db2, Rejected message)
            | (db2, Resolved _) =>
                Some (db2, Resolved (mkIngested id (List.length (turns conversation))))
            end
        end
    end.
Proof.
  intros H. unfold Persist.ingest. rewrite H. simpl.
  unfold conversation_row.
  destruct (insertConversation db _) as [db1 [id|message]]; [|reflexivity].
  destruct (turns conversation); reflexivity.
Qed.

Lemma post_ingest_chosen db body :
  post_ingest db body
  = let n := normalizeRequestBody body in
    let options := Some (mkOptions (n_format n) (n_title n)) in
    match chosen (n_data n) options with
    | unknown => Some (db, Undetected)
    | f =>
        match ingest db (n_data n) options with
        | None => None
        | Some (db', Rejected message) => Some (db', Failed message)
        | Some (db', Resolved r) => Some (db', Created (ingested_id r) (Persist.turnCount r) f)
        end
    end.
Proof.
  unfold Persist.post_ingest, chosen. cbv zeta. simpl opt_format.
  destruct (match n_format (normalizeRequestBody body) with
            | Some f => f
            | None => detectFormat (n_data (normalizeRequestBody body))
            end); reflexivity.
Qed.

End WithDb.

End StoreFacts.

(** X13. When the parse fails, [ingest] rejects before any insert has
    run: the store is the one it was given, and the message is the error
    of the parse, or "Failed to parse input" should that error be empty.
    Conversely a rejection of [ingest] is either that one, or the
    rejection of one of the two inserts, with the message and the store
    that the insert left. *)
Theorem ingest_failed_parse_keeps_store :
  forall (Store : Type) insertConversation insertTurns Date_parse
         (db : Store) payload options,
    let run :=
      @Persist.ingest Store insertConversation insertTurns Date_parse db payload options in
    (forall result,
        Ingest.parseInput Date_parse payload options = Some result ->
        success result = false ->
        run = Some (db, Persist.Rejected (or_else (error result) "Failed to parse input")))
    /\ (forall db' message,
           run = Some (db', Persist.Rejected message) ->
           (exists result,
               Ingest.parseInput Date_parse payload options = Some result
               /\ success result = false /\ db' = db
               /\ message = or_else (error result) "Failed to parse input")
           \/ (exists conversation,
                  Ingest.parseInput Date_parse payload options
                  = Some (Ingest.succeeded conversation
                            (PersistMore.chosen payload options))
                  /\ (insertConversation db (PersistMore.conversation_row conversation)
                      = (db', Persist.Rejected message)
                      \/ exists db1 id,
                           insertConversation db
                             (PersistMore.conversation_row conversation)
                           = (db1, Persist.Resolved id)
                           /\ turns conversation <> []
                           /\ insertTurns db1
                                (map (Persist.turn_row id) (turns conversation))
                              = (db', Persist.Rejected message)))).
Proof.
  intros Store insertConversation insertTurns Date_parse db payload options. cbv zeta.
  split.
  - intros result H Hs. unfold Persist.ingest. rewrite H, Hs. reflexivity.
  - intros db' message Hrun.
    destruct (Ingest.parseInput Date_parse payload options) as [result|] eqn:Hp;
      [|unfold Persist.ingest in Hrun; rewrite Hp in Hrun; discriminate Hrun].
    destruct (StoreFacts.parsed _ _ _ Hp) as [[e [He ->]]|[conversation [-> _]]].
    + left. exists (Ingest.failure e (PersistMore.chosen payload options)).
      unfold Persist.ingest in Hrun. rewrite Hp in Hrun.
      unfold Ingest.failure in *. cbn [success Types.data error] in *.
      injection Hrun as <- <-. repeat split; reflexivity.
    + right. exists conversation. split; [reflexivity|].
      erewrite StoreFacts.ingest_success in Hrun by eassumption.
      destruct (insertConversation db (PersistMore.conversation_row conversation))
        as [db1 [id|message1]] eqn:Hi.
      * right. exists db1, id. split; [reflexivity|].
        destruct (turns conversation) as [|t ts]; [discriminate Hrun|].
        split; [discriminate|].
        destruct (insertTurns db1 _) as [db2 [[]|message2]]; [discriminate Hrun|].
        injection Hrun as <- <-. reflexivity.
      * left. injection Hrun as <- <-. reflexivity.
Qed.

(** A number is no conversation: nothing is stored. *)
Lemma ingest_failed_parse_keeps_store_witness :
  Persist.ingest Persist.table_insertConversation (Persist.table_insertTurns false)
                 Host.Date_parse_iso Persist.empty_tables
                 (Ingest.VNum (of_Z 7)) None
  = Some (Persist.empty_tables,
          Persist.Rejected
            "Unknown format. Supported: json-transcript, chat-log, whatsapp, srt").
Proof.
  apply (proj1 (@ingest_failed_parse_keeps_store
                  Persist.Tables Persist.table_insertConversation
                  (Persist.table_insertTurns false) Host.Date_parse_iso
                  Persist.empty_tables (Ingest.VNum (of_Z 7)) None)
               _ eq_refl eq_refl).
Defined.

(** X14. When [ingest] resolves, the parse had succeeded; the
    conversation was inserted first, with the title, source and metadata
    of the parse, and its id is the one returned; the turn rows handed to
    the store all carry that id, their [turnIndex] runs from 0 to
    [turnCount - 1], and [turnCount] is the number of turns parsed.  With
    no turn, the store is left as the insert of the conversation left it. *)
Theorem ingest_stores_what_it_parsed :
  forall (Store : Type) insertConversation insertTurns Date_parse
         (db db' : Store) payload options r,
    @Persist.ingest Store insertConversation insertTurns Date_parse db payload options
    = Some (db', Persist.Resolved r) ->
    exists result conversation db1,
      Ingest.parseInput Date_parse payload options = Some result
      /\ success result = true
      /\ Types.data result = Some conversation
      /\ insertConversation db (PersistMore.conversation_row conversation)
         = (db1, Persist.Resolved (Persist.ingested_id r))
      /\ Persist.turnCount r = List.length (turns conversation)
      /\ let rows := map (Persist.turn_row (Persist.ingested_id r)) (turns conversation) in
         map Persist.turnIndex rows = seq 0 (Persist.turnCount r)
         /\ Forall (fun row => Persist.conversationId row = Persist.ingested_id r) rows
         /\ (turns conversation = [] -> db' = db1)
         /\ (turns conversation <> [] ->
             insertTurns db1 rows = (db', Persist.Resolved tt)).
Proof.
  intros Store insertConversation insertTurns Date_parse db db' payload options r H.
  destruct (Ingest.parseInput Date_parse payload options) as [result|] eqn:Hp;
    [|unfold Persist.ingest in H; rewrite Hp in H; discriminate H].
  destruct (StoreFacts.parsed _ _ _ Hp) as [[e [He ->]]|[conversation [-> [_ [_ Hc]]]]].
  - erewrite StoreFacts.ingest_failure in H by eassumption. discriminate H.
  - erewrite StoreFacts.ingest_success in H by eassumption.
    destruct (insertConversation db (PersistMore.conversation_row conversation))
      as [db1 [id|message]] eqn:Hi; [|discriminate H].
    exists (Ingest.succeeded conversation (PersistMore.chosen payload options)),
           conversation, db1.
    destruct (StoreFacts.rows_of_turns id Hc) as [Hidx Hid].
    destruct (turns conversation) as [|t ts] eqn:Et.
    + injection H as <- <-. simpl.
      repeat split; try reflexivity; try assumption; try constructor.
      intros Hne. congruence.
    + destruct (insertTurns db1 _) as [db2 [[]|message]] eqn:Ht; [|discriminate H].
      injection H as <- <-. cbn [Persist.ingested_id Persist.turnCount].
      repeat split; try reflexivity; try assumption;
        [intros Hnil; discriminate Hnil | intros _; exact Ht].
Qed.

(** The scenario transcript is stored as conversation "0" with two turns. *)
Lemma ingest_stores_what_it_parsed_witness :
  exists db' result conversation db1,
    Persist.ingest Persist.table_insertConversation (Persist.table_insertTurns false)
                   Host.Date_parse_iso Persist.empty_tables Samples.transcript None
    = Some (db', Persist.Resolved (Persist.mkIngested "0" 2))
    /\ Ingest.parseInput Host.Date_parse_iso Samples.transcript None = Some result
    /\ Types.data result = Some conversation
    /\ Persist.table_insertConversation Persist.empty_tables
         (PersistMore.conversation_row conversation)
       = (db1, Persist.Resolved "0")
    /\ map Persist.turnIndex (map (Persist.turn_row "0") (turns conversation)) = [0; 1].
Proof.
  eexists.
  destruct (@ingest_stores_what_it_parsed
              Persist.Tables Persist.table_insertConversation
              (Persist.table_insertTurns false) Host.Date_parse_iso Persist.empty_tables
              _ Samples.transcript None (Persist.mkIngested "0" 2) eq_refl)
    as [result [conversation [db1 [Hp [_ [Hd [Hi [_ [Hidx _]]]]]]]]].
  exists result, conversation, db1.
  split; [reflexivity|]. repeat split; assumption.
Defined.

(** X15. The two inserts of [ingest] are not one transaction: when the
    conversation has been inserted and the insert of its turns rejects,
    [ingest] rejects with that message and the store is the one the
    failed insert left, reached from the store that already holds the
    conversation; nothing takes the conversation back. *)
Theorem ingest_is_not_atomic :
  forall (Store : Type) insertConversation insertTurns Date_parse
         (db db1 db2 : Store) payload options result conversation id message,
    Ingest.parseInput Date_parse payload options = Some result ->
    Types.data result = Some conversation ->
    turns conversation <> [] ->
    insertConversation db (PersistMore.conversation_row conversation)
    = (db1, Persist.Resolved id) ->
    insertTurns db1 (map (Persist.turn_row id) (turns conversation))
    = (db2, Persist.Rejected message) ->
    @Persist.ingest Store insertConversation insertTurns Date_parse db payload options
    = Some (db2, Persist.Rejected message).
Proof.
  intros Store insertConversation insertTurns Date_parse db db1 db2 payload options
         result conversation id message Hp Hd Hne Hi Ht.
  destruct (StoreFacts.parsed _ _ _ Hp) as [[e [He ->]]|[c [-> _]]]; [discriminate Hd|].
  injection Hd as ->.
  erewrite StoreFacts.ingest_success by eassumption. rewrite Hi.
  destruct (turns conversation) as [|t ts]; [congruence|].
  rewrite Ht. reflexivity.
Qed.

(** With a store that refuses the batch of turns, ingesting the scenario
    transcript fails and leaves a conversation without turns. *)
Lemma ingest_is_not_atomic_witness :
  exists db2,
    Persist.ingest Persist.table_insertConversation (Persist.table_insertTurns true)
                   Host.Date_parse_iso Persist.empty_tables Samples.transcript None
    = Some (db2, Persist.Rejected "insert failed")
    /\ List.length (Persist.conversations db2) = 1
    /\ Persist.turn_rows db2 = [].
Proof.
  eexists. split.
  - eapply (@ingest_is_not_atomic
              Persist.Tables Persist.table_insertConversation
              (Persist.table_insertTurns true) Host.Date_parse_iso
              Persist.empty_tables _ _ Samples.transcript None _ _ "0" "insert failed").
    + vm_compute. reflexivity.
    + reflexivity.
    + discriminate.
    + reflexivity.
    + reflexivity.
  - split; reflexivity.
Defined.

Module RouteFacts.

Import Ingest Routes Persist PersistMore.

Lemma tag_round_trip (s : string) (f : InputFormat) :
  (if String.eqb s "json-transcript" then Some json_transcript
   else if String.eqb s "chat-log" then Some chat_log
   else if String.eqb s "whatsapp" then Some whatsapp
   else if String.eqb s "srt" then Some srt
   else None) = Some f
  <-> s = format_tag f /\ f <> unknown.
Proof.
  split.
  - destruct (String.eqb_spec s "json-transcript") as [->|_];
      [intros H; injection H as <-; split; [reflexivity | discriminate]|].
    destruct (String.eqb_spec s "chat-log") as [->|_];
      [intros H; injection H as <-; split; [reflexivity | discriminate]|].
    destruct (String.eqb_spec s "whatsapp") as [->|_];
      [intros H; injection H as <-; split; [reflexivity | discriminate]|].
    destruct (String.eqb_spec s "srt") as [->|_];
      [intros H; injection H as <-; split; [reflexivity | discriminate]|].
    discriminate.
  - intros [-> Hf]. destruct f; try reflexivity. congruence.
Qed.

Lemma has_get (o : object) (key : string) :
  has o key = true <-> exists v, get o key = Some v.
Proof.
  unfold has. destruct (get o key) as [v|].
  - split; eauto.
  - split; [discriminate | intros [v H]; discriminate H].
Qed.

Lemma format_known (body : value) :
  n_format (normalizeRequestBody body) <> Some unknown.
Proof.
  destruct body as [| |b|n|s|items|obj]; try discriminate.
  unfold normalizeRequestBody. destruct (has obj "data"); [|discriminate].
  cbn [n_format]. unfold format_of.
  destruct (get obj "format") as [[| |b|n|s|items|o]|]; try discriminate.
  intros H. apply tag_round_trip in H. destruct H as [_ H]. congruence.
Qed.

(** The options the two handlers hand on. *)
Lemma chosen_of_body (n : Normalized) :
  chosen (n_data n) (Some (mkOptions (n_format n) (n_title n)))
  = match n_format n with Some f => f | None => detectFormat (n_data n) end.
Proof. reflexivity. Qed.

End RouteFacts.

(** X16. [normalizeRequestBody] hands on a format exactly when the body
    is an object with a [data] property whose [format] is the tag of one
    of the four formats; ["unknown"], any other string, and a [format]
    beside a direct payload are dropped.  The data is the [data] property
    of a wrapped body and the whole body otherwise. *)
Theorem normalized_format_is_a_known_tag :
  forall body,
    (forall f,
        Routes.n_format (Routes.normalizeRequestBody body) = Some f
        <-> exists obj,
              body = Ingest.VObj obj /\ Ingest.has obj "data" = true
              /\ Ingest.get obj "format" = Some (Ingest.VStr (format_tag f))
              /\ f <> unknown)
    /\ (forall obj d,
           body = Ingest.VObj obj -> Ingest.get obj "data" = Some d ->
           Routes.n_data (Routes.normalizeRequestBody body) = d)
    /\ ((forall obj, body = Ingest.VObj obj -> Ingest.has obj "data" = false) ->
        Routes.n_data (Routes.normalizeRequestBody body) = body).
Proof.
  intros body. split; [|split].
  - intros f. split.
    + destruct body as [| |b|n|s|items|obj]; try discriminate.
      unfold Routes.normalizeRequestBody.
      destruct (Ingest.has obj "data") eqn:Hd; [|discriminate].
      cbn [Routes.n_format]. unfold Routes.format_of.
      destruct (Ingest.get obj "format") as [[| |b|n|s|items|o]|] eqn:Eg;
        try discriminate.
      intros H. apply RouteFacts.tag_round_trip in H. destruct H as [-> Hf].
      exists obj. split; [reflexivity|]. split; [exact Hd|].
      split; [exact Eg | exact Hf].
    + intros [obj [-> [Hd [Hf Hk]]]].
      unfold Routes.normalizeRequestBody. rewrite Hd.
      cbn [Routes.n_format]. unfold Routes.format_of. rewrite Hf.
      apply RouteFacts.tag_round_trip. split; [reflexivity | exact Hk].
  - intros obj d -> Hd. unfold Routes.normalizeRequestBody, Ingest.has.
    rewrite Hd. reflexivity.
  - intros H. destruct body as [| |b|n|s|items|obj]; try reflexivity.
    unfold Routes.normalizeRequestBody. rewrite (H obj eq_refl). reflexivity.
Qed.

(** X17. What [POST /ingest/preview] answers is read off the parse of
    the normalized body.  When the parse fails, the answer is status 400
    with the error and the format of the parse.  When it succeeds, the
    preview carries the format, the title and the source of the parsed
    conversation, [turnCount] is the number of all its turns, and the
    turns shown are its first five (all of them when there are fewer),
    indexed from 0.  It never answers 500 for a missing conversation. *)
Theorem preview_shows_the_first_five :
  forall Date_parse body response,
    Routes.preview Date_parse body = Some response ->
    let n := Routes.normalizeRequestBody body in
    exists result,
      Ingest.parseInput Date_parse (Routes.n_data n)
        (Some (Ingest.mkOptions (Routes.n_format n) (Routes.n_title n)))
      = Some result
      /\ match response with
         | Routes.PreviewRefused status e f =>
             success result = false /\ status = 400
             /\ e = error result /\ f = format result
         | Routes.PreviewShown f title source turnCount shown =>
             exists conversation,
               success result = true
               /\ Types.data result = Some conversation
               /\ f = format result
               /\ title = Types.title conversation
               /\ source = Types.source conversation
               /\ turnCount = List.length (turns conversation)
               /\ shown = firstn 5 (turns conversation)
               /\ map turnIndex shown = seq 0 (Nat.min 5 turnCount)
         end.
Proof.
  intros Date_parse body response. unfold Routes.preview. cbv zeta.
  destruct (Ingest.parseInput Date_parse _ _) as [result|] eqn:Hp; [|discriminate].
  intros H. exists result. split; [reflexivity|].
  destruct (StoreFacts.parsed _ _ _ Hp)
    as [[e [He ->]]|[conversation [-> [Hk [Hs Hc]]]]].
  - unfold Ingest.failure in *. cbn [success Types.data error format negb] in *.
    injection H as <-. repeat split; reflexivity.
  - unfold Ingest.succeeded in *. cbn [success Types.data error format negb] in *.
    injection H as <-. exists conversation.
    repeat (split; [reflexivity|]).
    rewrite <- (length_firstn 5 (turns conversation)).
    apply IndexFacts.contiguous_interval, StoreFacts.contiguous_firstn, Hc.
Qed.

(** The scenario transcript is previewed with its two turns. *)
Lemma preview_shows_the_first_five_witness :
  exists f title source shown,
    Routes.preview Host.Date_parse_iso Samples.transcript
    = Some (Routes.PreviewShown f title source 2 shown)
    /\ map turnIndex shown = [0; 1].
Proof.
  eexists. eexists. eexists. eexists. split; [vm_compute; reflexivity|].
  destruct (@preview_shows_the_first_five
              Host.Date_parse_iso Samples.transcript
              (Routes.PreviewShown _ _ _ 2 _) eq_refl)
    as [result [_ [conversation [_ [_ [_ [_ [_ [_ [_ Hidx]]]]]]]]]].
  exact Hidx.
Defined.

(** X18. What [POST /ingest] answers.  400 means that no format was
    given and none detected, and the store is untouched.  201 reports
    the id and the number of turns of a conversation that was parsed from
    the data, and the format it reports, computed by the handler, is the
    one the parser worked with: it is the source of the stored
    conversation and never [unknown]. *)
Theorem post_ingest_answers :
  forall (Store : Type) insertConversation insertTurns Date_parse
         (db db' : Store) body response,
    @Persist.post_ingest Store insertConversation insertTurns Date_parse db body
    = Some (db', response) ->
    let n := Routes.normalizeRequestBody body in
    match response with
    | Persist.Undetected =>
        db' = db /\ Routes.n_format n = None
        /\ Ingest.detectFormat (Routes.n_data n) = unknown
    | Persist.Created id count f =>
        f <> unknown
        /\ exists result conversation db1,
             Ingest.parseInput Date_parse (Routes.n_data n)
               (Some (Ingest.mkOptions (Routes.n_format n) (Routes.n_title n)))
             = Some result
             /\ Types.data result = Some conversation
             /\ format result = Some f
             /\ source conversation = format_tag f
             /\ count = List.length (turns conversation)
             /\ insertConversation db (PersistMore.conversation_row conversation)
                = (db1, Persist.Resolved id)
    | Persist.Failed details => True
    end.
Proof.
  intros Store insertConversation insertTurns Date_parse db db' body response.
  rewrite StoreFacts.post_ingest_chosen. cbv zeta.
  set (n := Routes.normalizeRequestBody body).
  set (options := Some (Ingest.mkOptions (Routes.n_format n) (Routes.n_title n))).
  assert (Hund : PersistMore.chosen (Routes.n_data n) options = unknown ->
                 Some (db, Persist.Undetected) = Some (db', response) ->
                 match response with
                 | Persist.Undetected =>
                     db' = db /\ Routes.n_format n = None
                     /\ Ingest.detectFormat (Routes.n_data n) = unknown
                 | _ => False
                 end).
  { intros Hu H. injection H as <- <-. split; [reflexivity|].
    unfold options in Hu. rewrite RouteFacts.chosen_of_body in Hu.
    pose proof (RouteFacts.format_known body) as Hknown. fold n in Hknown.
    destruct (Routes.n_format n) as [f|]; [|split; [reflexivity | exact Hu]].
    subst f. congruence. }
  assert (Hrun : PersistMore.chosen (Routes.n_data n) options <> unknown ->
                 match @Persist.ingest Store insertConversation insertTurns Date_parse
                         db (Routes.n_data n) options with
                 | None => None
                 | Some (db0, Persist.Rejected message) =>
                     Some (db0, Persist.Failed message)
                 | Some (db0, Persist.Resolved r) =>
                     Some (db0, Persist.Created (Persist.ingested_id r)
                                  (Persist.turnCount r)
                                  (PersistMore.chosen (Routes.n_data n) options))
                 end = Some (db', response) ->
                 match response with
                 | Persist.Undetected => False
                 | Persist.Created id count f =>
                     f <> unknown
                     /\ exists result conversation db1,
                          Ingest.parseInput Date_parse (Routes.n_data n) options
                          = Some result
                          /\ Types.data result = Some conversation
                          /\ format result = Some f
                          /\ source conversation = format_tag f
                          /\ count = List.length (turns conversation)
                          /\ insertConversation db
                               (PersistMore.conversation_row conversation)
                             = (db1, Persist.Resolved id)
                 | Persist.Failed details => True
                 end).
  { intros Hk.
    destruct (Ingest.parseInput Date_parse (Routes.n_data n) options) as [result|] eqn:Hp;
      [|unfold Persist.ingest; rewrite Hp; discriminate].
    destruct (StoreFacts.parsed _ _ _ Hp) as [[e [He ->]]|[conversation [-> [_ [Hs _]]]]].
    - erewrite StoreFacts.ingest_failure by eassumption.
      intros H. injection H as <- <-. exact I.
    - erewrite StoreFacts.ingest_success by eassumption.
      destruct (insertConversation db (PersistMore.conversation_row conversation))
        as [db1 [id|message]] eqn:Hi;
        [|intros H; injection H as <- <-; exact I].
      destruct (turns conversation) as [|t ts] eqn:Et.
      + intros H. injection H as <- <-. split; [exact Hk|].
        eexists. exists conversation, db1.
        repeat split; try reflexivity; try assumption. simpl. rewrite Et. reflexivity.
      + destruct (insertTurns db1 _) as [db2 [[]|message]];
          [|intros H; injection H as <- <-; exact I].
        intros H. injection H as <- <-. split; [exact Hk|].
        eexists. exists conversation, db1.
        repeat split; try reflexivity; try assumption. simpl. rewrite Et. reflexivity. }
  destruct (PersistMore.chosen (Routes.n_data n) options) eqn:Ec;
    try (intros H; specialize (Hrun ltac:(discriminate) H);
         destruct response; [destruct Hrun | exact Hrun | exact I]).
  intros H. specialize (Hund eq_refl H).
  destruct response; [exact Hund | destruct Hund | destruct Hund].
Qed.

(** The scenario transcript, posted directly, is created as conversation
    "0" with two turns and reported as a json-transcript. *)
Lemma post_ingest_answers_witness :
  exists db' conversation,
    Persist.post_ingest Persist.table_insertConversation (Persist.table_insertTurns false)
                        Host.Date_parse_iso Persist.empty_tables Samples.transcript
    = Some (db', Persist.Created "0" 2 json_transcript)
    /\ source conversation = "json-transcript"
    /\ List.length (turns conversation) = 2.
Proof.
  eexists.
  destruct (@post_ingest_answers
              Persist.Tables Persist.table_insertConversation
              (Persist.table_insertTurns false) Host.Date_parse_iso
              Persist.empty_tables _ Samples.transcript
              (Persist.Created "0" 2 json_transcript) eq_refl)
    as [_ [result [conversation [db1 [_ [_ [_ [Hs [Hn _]]]]]]]]].
  exists conversation. split; [reflexivity|]. split; [exact Hs | symmetry; exact Hn].
Defined.

(** A wrapped body with the tag of a format hands on the format and the
    data. *)
Lemma normalized_format_is_a_known_tag_witness :
  let body := Ingest.VObj [("format", Ingest.VStr "srt"); ("data", Ingest.VStr "1")] in
  Routes.n_format (Routes.normalizeRequestBody body) = Some srt
  /\ Routes.n_data (Routes.normalizeRequestBody body) = Ingest.VStr "1".
Proof.
  intros body.
  destruct (normalized_format_is_a_known_tag body) as [Hf [Hd _]].
  split.
  - apply Hf. exists [("format", Ingest.VStr "srt"); ("data", Ingest.VStr "1")].
    repeat split. discriminate.
  - apply (Hd _ _ eq_refl eq_refl).
Defined.

(** X19. The two handlers agree.  On a body that the preview refuses,
    [POST /ingest] stores nothing: it answers 400 or 500 and leaves the
    store as it was.  On a body that the preview shows, [POST /ingest]
    never answers 400, and when it answers 201 the format and the number
    of turns it reports are those of the preview. *)
Theorem preview_agrees_with_ingest :
  forall (Store : Type) insertConversation insertTurns Date_parse
         (db db' : Store) body shown response,
    Routes.preview Date_parse body = Some shown ->
    @Persist.post_ingest Store insertConversation insertTurns Date_parse db body
    = Some (db', response) ->
    match shown with
    | Routes.PreviewRefused _ _ _ =>
        db' = db
        /\ (response = Persist.Undetected \/ exists details, response = Persist.Failed details)
    | Routes.PreviewShown f _ _ turnCount _ =>
        match response with
        | Persist.Undetected => False
        | Persist.Created _ count f' => f = Some f' /\ count = turnCount
        | Persist.Failed _ => True
        end
    end.
Proof.
  intros Store insertConversation insertTurns Date_parse db db' body shown response.
  rewrite StoreFacts.post_ingest_chosen. unfold Routes.preview. cbv zeta.
  set (n := Routes.normalizeRequestBody body).
  set (options := Some (Ingest.mkOptions (Routes.n_format n) (Routes.n_title n))).
  destruct (Ingest.parseInput Date_parse (Routes.n_data n) options) as [result|] eqn:Hp;
    [|discriminate].
  destruct (StoreFacts.parsed _ _ _ Hp) as [[e [He ->]]|[conversation [-> [Hk _]]]].
  - unfold Ingest.failure. cbn [success Types.data error format negb].
    intros H. injection H as <-.
    erewrite StoreFacts.ingest_failure by eassumption.
    destruct (PersistMore.chosen (Routes.n_data n) options);
      intros H; injection H as <- <-; split; eauto.
  - unfold Ingest.succeeded. cbn [success Types.data error format negb].
    intros H. injection H as <-.
    erewrite StoreFacts.ingest_success by eassumption.
    destruct (PersistMore.chosen (Routes.n_data n) options) eqn:Ec; [| | | |congruence];
      (destruct (insertConversation db (PersistMore.conversation_row conversation))
        as [db1 [id|message]];
       [|intros H; injection H as <- <-; exact I]);
      (destruct (turns conversation) as [|t ts];
       [intros H; injection H as <- <-; split; reflexivity|]);
      (destruct (insertTurns db1 _) as [db2 [[]|message]];
       intros H; injection H as <- <-; [split; reflexivity | exact I]).
Qed.

(** The preview of the scenario transcript and its ingestion both report
    a json-transcript of two turns. *)
Lemma preview_agrees_with_ingest_witness :
  exists f title source shown db' id count f',
    Routes.preview Host.Date_parse_iso Samples.transcript
    = Some (Routes.PreviewShown f title source 2 shown)
    /\ Persist.post_ingest Persist.table_insertConversation
         (Persist.table_insertTurns false)
         Host.Date_parse_iso Persist.empty_tables Samples.transcript
       = Some (db', Persist.Created id count f')
    /\ f = Some f' /\ count = 2.
Proof.
  do 8 eexists. split; [vm_compute; reflexivity|]. split; [vm_compute; reflexivity|].
  exact (@preview_agrees_with_ingest
           Persist.Tables Persist.table_insertConversation
           (Persist.table_insertTurns false) Host.Date_parse_iso
           Persist.empty_tables _ Samples.transcript
           (Routes.PreviewShown _ _ _ 2 _) (Persist.Created _ _ _) eq_refl eq_refl).
Defined.

(** ** Chat logs: equal timestamps *)

Module StableFacts.

Section Stable.
Context {A : Type}.
Variable cmp : A -> A -> number.
Variable key : A -> Z.
Variable t : Z.

Local Abbreviation here := (fun a : A => (key a =? t)%Z).

Lemma insert_stable (x : A) (l : list A) :
  agrees cmp key (x :: l) -> filter here (Arr.insert cmp x l) = filter here (x :: l).
Proof.
  induction l as [|y l IH]; intros Hag; [reflexivity|].
  cbn [Arr.insert]. rewrite (Hag x y) by (simpl; auto).
  rewrite NumFacts.gt_of_Z.
  destruct (Z.ltb_spec 0 (key x - key y)) as [Hlt|Hge]; [|reflexivity].
  cbn [filter]. rewrite IH.
  - cbn [filter].
    destruct (Z.eqb_spec (key x) t) as [Hx|Hx]; [|reflexivity].
    destruct (Z.eqb_spec (key y) t) as [Hy|Hy]; [lia | reflexivity].
  - intros a b Ha Hb. apply Hag; simpl in *; tauto.
Qed.

Lemma sort_stable (l : list A) :
  agrees cmp key l -> filter here (Arr.sort cmp l) = filter here l.
Proof.
  induction l as [|x l IH]; intros Hag; [reflexivity|].
  cbn [Arr.sort]. rewrite insert_stable.
  - cbn [filter]. rewrite IH; [reflexivity|].
    intros a b Ha Hb. apply Hag; right; assumption.
  - intros a b Ha Hb. apply Hag.
    + destruct Ha as [->|Ha]; [left; reflexivity|].
      right. eapply Permutation_in; [apply ListFacts.sort_perm | exact Ha].
    + destruct Hb as [->|Hb]; [left; reflexivity|].
      right. eapply Permutation_in; [apply ListFacts.sort_perm | exact Hb].
Qed.
End Stable.

Lemma filter_comm {A : Type} (p q : A -> bool) (l : list A) :
  filter p (filter q l) = filter q (filter p l).
Proof.
  induction l as [|x l IH]; [reflexivity|].
  simpl. destruct (p x) eqn:Ep, (q x) eqn:Eq; simpl; rewrite ?Ep, ?Eq, IH; reflexivity.
Qed.

End StableFacts.

(** X21. The sort of the chat-log parser is stable: when every
    timestamp resolves, the messages that have the same resolved time
    come out in the order of the input, among the sorted messages and
    among the messages behind the turns. *)
Theorem chat_log_sort_is_stable :
  forall Date_parse input t,
    forallb (ChatLogSpec.resolves Date_parse) input.(ChatLog.messages) = true ->
    filter (ChatLogMore.at_time Date_parse t) (ChatLog.sortedMessages Date_parse input)
    = filter (ChatLogMore.at_time Date_parse t) input.(ChatLog.messages)
    /\ filter (ChatLogMore.at_time Date_parse t) (ChatLogSpec.emitted Date_parse input)
       = filter ChatLog.keeps
                (filter (ChatLogMore.at_time Date_parse t) input.(ChatLog.messages)).
Proof.
  intros Date_parse input t Hres.
  assert (Hsort : filter (ChatLogMore.at_time Date_parse t)
                         (ChatLog.sortedMessages Date_parse input)
                  = filter (ChatLogMore.at_time Date_parse t) input.(ChatLog.messages)).
  { unfold ChatLog.sortedMessages, ChatLogMore.at_time.
    apply (@StableFacts.sort_stable _ (ChatLog.compare_messages Date_parse)
                                    (ChatLogSpec.time_of Date_parse) t).
    rewrite forallb_forall in Hres.
    intros a b Ha Hb. apply ChatLogFacts.compare_resolved; apply Hres; assumption. }
  split; [exact Hsort|].
  unfold ChatLogSpec.emitted. rewrite StableFacts.filter_comm, Hsort. reflexivity.
Qed.

(** Two messages of the same second keep their order behind a later one
    that comes first in the input. *)
Lemma chat_log_sort_is_stable_witness :
  let input :=
    ChatLog.mkInput None None
      [Samples.slack "cy" "300" "c"; Samples.slack "ann" "100" "a";
       Samples.slack "bob" "100" "b"] in
  filter (ChatLogMore.at_time Host.Date_parse_iso 100000)
         (ChatLog.sortedMessages Host.Date_parse_iso input)
  = [Samples.slack "ann" "100" "a"; Samples.slack "bob" "100" "b"].
Proof.
  intros input.
  rewrite (proj1 (@chat_log_sort_is_stable Host.Date_parse_iso input 100000 eq_refl)).
  reflexivity.
Defined.

(** ** Subtitles: turns and blocks *)

Module BlockFacts.

Import Srt.

Lemma push_projection {B : Type} (f : NormalizedTurn -> B) (g : SrtBlock -> B) :
  (forall acc b, map f (push acc b) = (map f acc ++ [g b])%list) ->
  forall blocks acc,
    map f (fold_left push blocks acc) = (map f acc ++ map g blocks)%list.
Proof.
  intros Hpush blocks. induction blocks as [|b blocks IH]; intros acc; simpl.
  - rewrite app_nil_r. reflexivity.
  - rewrite IH, Hpush, <- app_assoc. reflexivity.
Qed.

Lemma parseBlock_index (block : string) (b : SrtBlock) :
  parseBlock block = Some b -> isNaN (index b) = false.
Proof.
  unfold parseBlock.
  destruct (filter nonblank (Regex.split line_break block)) as [|line0 [|line1 rest]];
    try discriminate.
  destruct (List.length (line0 :: line1 :: rest) <? 3); [discriminate|].
  destruct (isNaN (parseInt10 line0)) eqn:E; [discriminate|].
  destruct (Regex.exec cue_range line1) as [m|]; [|discriminate].
  intros H. injection H as <-. exact E.
Qed.

Lemma blocks_index (text : string) :
  Forall (fun b => isNaN (index b) = false) (parseSrtBlocks text).
Proof.
  unfold parseSrtBlocks.
  induction (filter nonblank (Regex.split blank_line text)) as [|block l IH]; simpl;
    [constructor|].
  destruct (parseBlock block) as [b|] eqn:E; [|exact IH].
  constructor; [eapply parseBlock_index; eassumption | exact IH].
Qed.

End BlockFacts.

(** X22. The srt parser emits one turn for every block that
    [parseSrtBlocks] keeps, in the order of the blocks: the turn has the
    times of its block, the speaker and text that [extractSpeaker] finds
    in the text of the block, and records the number of the block as
    [srtIndex]; that number is what [parseInt] read at the head of the
    first line of the block, and it is never [NaN]. *)
Theorem srt_turns_follow_blocks :
  forall text title,
    let blocks := Srt.parseSrtBlocks text in
    let emitted := turns (Srt.parseSrt text title) in
    map startMs emitted = map (fun b => Some (Srt.startMs b)) blocks
    /\ map endMs emitted = map (fun b => Some (Srt.endMs b)) blocks
    /\ map (fun t => (Types.speaker t, Types.text t)) emitted
       = map (fun b => Srt.extractSpeaker (Srt.text b)) blocks
    /\ map metadata emitted = map (fun b => [("srtIndex", MNum (Srt.index b))]) blocks
    /\ Forall (fun b => isNaN (Srt.index b) = false) blocks.
Proof.
  intros text title. cbv zeta. cbn [Srt.parseSrt turns].
  repeat split.
  - apply (BlockFacts.push_projection startMs (fun b => Some (Srt.startMs b))).
    intros acc b. unfold Srt.push. destruct (Srt.extractSpeaker (Srt.text b)).
    rewrite map_app. reflexivity.
  - apply (BlockFacts.push_projection endMs (fun b => Some (Srt.endMs b))).
    intros acc b. unfold Srt.push. destruct (Srt.extractSpeaker (Srt.text b)).
    rewrite map_app. reflexivity.
  - apply (BlockFacts.push_projection
             (fun t => (Types.speaker t, Types.text t))
             (fun b => Srt.extractSpeaker (Srt.text b))).
    intros acc b. unfold Srt.push. destruct (Srt.extractSpeaker (Srt.text b)).
    rewrite map_app. reflexivity.
  - apply (BlockFacts.push_projection
             metadata (fun b => [("srtIndex", MNum (Srt.index b))])).
    intros acc b. unfold Srt.push. destruct (Srt.extractSpeaker (Srt.text b)).
    rewrite map_app. reflexivity.
  - apply BlockFacts.blocks_index.
Qed.

(** ** Results of [parseInput] *)

(** X1. What [parseInput] returns is well formed.  The format it
    reports is the explicit one when one is given and the detected one
    otherwise.  A success carries no error and a conversation whose
    source is the tag of that format, which is not [unknown]; a failure
    carries an error message and no conversation. *)
Theorem parse_result_well_formed :
  forall Date_parse payload options result,
    Ingest.parseInput Date_parse payload options = Some result ->
    let f := PersistMore.chosen payload options in
    format result = Some f
    /\ (success result = true ->
        f <> unknown /\ error result = None
        /\ exists conversation,
             Types.data result = Some conversation
             /\ source conversation = format_tag f)
    /\ (success result = false ->
        Types.data result = None /\ exists e, error result = Some e).
Proof.
  intros Date_parse payload options result H. cbv zeta.
  destruct (StoreFacts.parsed _ _ _ H) as [[e [_ ->]]|[conversation [-> [Hk [Hs _]]]]].
  - split; [reflexivity|]. split; [intros Hs; discriminate Hs|].
    intros _. split; [reflexivity|]. exists e. reflexivity.
  - split; [reflexivity|]. split; [|intros Hf; discriminate Hf].
    intros _. split; [exact Hk|]. split; [reflexivity|].
    exists conversation. split; [reflexivity | exact Hs].
Qed.

(** The scenario transcript parses into a json-transcript conversation. *)
Lemma parse_result_well_formed_witness :
  exists result conversation,
    Ingest.parseInput Host.Date_parse_iso Samples.transcript None = Some result
    /\ Types.data result = Some conversation
    /\ source conversation = "json-transcript".
Proof.
  eexists. eexists. split; [vm_compute; reflexivity|].
  destruct (proj1 (proj2 (@parse_result_well_formed
                            Host.Date_parse_iso Samples.transcript None _ eq_refl))
                  eq_refl)
    as [_ [_ [conversation [Hdata Hsource]]]].
  vm_compute in Hdata. injection Hdata as <-.
  split; reflexivity.
Defined.

(** X2. When the format is left to detection, the check that
    [parseInput] makes before it runs a parser never refuses the
    payload.  A payload that [detectFormat] does not classify is
    answered with the unknown-format failure; a payload that it
    classifies passes the check of the detected format, so the answer is
    not the shape failure of that format and the parser runs. *)
Theorem autodetected_format_is_accepted :
  forall Date_parse payload title,
    let options := Some (Ingest.mkOptions None title) in
    let f := Ingest.detectFormat payload in
    (f = unknown ->
     Ingest.parseInput Date_parse payload options
     = Some (Ingest.failure (IngestSpec.shape_error unknown) unknown))
    /\ (f <> unknown ->
        IngestSpec.guard f payload = true
        /\ Ingest.parseInput Date_parse payload options
           <> Some (Ingest.failure (IngestSpec.shape_error f) f)).
Proof.
  intros Date_parse payload title. cbv zeta. split.
  - intros Hu. unfold Ingest.parseInput. simpl. rewrite Hu. reflexivity.
  - intros Hk.
    assert (Hguard : IngestSpec.guard (Ingest.detectFormat payload) payload = true).
    { destruct (Ingest.detectFormat payload) eqn:E; simpl.
      - apply ResultFacts.detect_json, E.
      - apply ResultFacts.detect_chat, E.
      - destruct (ResultFacts.detect_text payload (or_introl E)) as [text ->]. reflexivity.
      - destruct (ResultFacts.detect_text payload (or_intror E)) as [text ->]. reflexivity.
      - congruence. }
    split; [exact Hguard|].
    unfold Ingest.parseInput. simpl.
    destruct (Ingest.detectFormat payload) eqn:E; simpl in Hguard.
    + rewrite Hguard. simpl.
      destruct (Ingest.as_JsonTranscriptInput payload); simpl; discriminate.
    + rewrite Hguard. simpl.
      destruct (Ingest.as_ChatLogInput payload); simpl; discriminate.
    + destruct payload; try discriminate Hguard. discriminate.
    + destruct payload; try discriminate Hguard. discriminate.
    + congruence.
Qed.

(** The scenario transcript is detected and passes the check. *)
Lemma autodetected_format_is_accepted_witness :
  IngestSpec.guard json_transcript Samples.transcript = true.
Proof.
  apply (proj2 (@autodetected_format_is_accepted
                  Host.Date_parse_iso Samples.transcript None)).
  discriminate.
Defined.
